(** * TinyG xmega_io: the character-device I/O subsystem

    A shallow embedding of [xmega_io.c] (build b119) with the flag and
    device constants of [xmega_io.h].  The C globals ([errno], [fd_ptrs],
    [fd_usb], [fd_rs485]) and the two USARTs the code can reach are the
    fields of one [world] record; every C function is a function from a
    world to an [outcome].  The print functions at the end of the file
    and [config_parse()] and [config_test()] of [config.c] (build b111)
    touch none of these globals and have a small result type of their
    own.

    Conventions.
    - [char] is the signed 8-bit type the code relies on (it returns and
      compares against -1); [uint8_t] and [uint_fast8_t] are 8 bits wide,
      [int] and [int16_t] 16 bits, as on the AVR.  Integers are [Z] and the
      wrap-around of each C type is written out ([u8], [s8], [s16]).
    - Arrays are lists; an access outside the array, or through a NULL
      pointer, is undefined in C and is the outcome [Fault].
    - A receive interrupt runs to completion between two foreground
      statements.  The interrupts that arrive while the processor sleeps
      are the [pending] list of the world: [sleep_mode()] returns after the
      next one has been served and never returns when there is none.
    - The transfer loops of read and write carry a bound on their passes;
      [OutOfFuel] says the bound was too small and is no behaviour of the
      program.  Results are stated for bounds that are large enough. *)

From Stdlib Require Import ZArith Lia List Bool.
From stdpp Require Import base list.
Import ListNotations.

Local Open Scope Z_scope.

(** ** C integer types *)

Definition u8 (x : Z) : Z := x mod 256.
Definition s8 (x : Z) : Z := (x + 128) mod 256 - 128.
Definition s16 (x : Z) : Z := (x + 32768) mod 65536 - 32768.

(** [a[i]] and [a[i] = v]; [None] outside the array. *)
Definition array_get (a : list Z) (i : Z) : option Z :=
  if i <? 0 then None else a !! Z.to_nat i.

Definition array_set (a : list Z) (i : Z) (v : Z) : option (list Z) :=
  if (0 <=? i) && (i <? Z.of_nat (length a))
  then Some (<[Z.to_nat i := v]> a) else None.

(** ** Constants of xmega_io.h *)

Definition FD_USB : Z := 1.
Definition FD_RS485 : Z := 2.
Definition FD_MAX : Z := 3.

Definition SIZE_MODE : Z := 0.
Definition LINE_MODE : Z := -1.
Definition NUL : Z := 0.

Definition DEV_USARTC0 : Z := 17.
Definition DEV_USARTC1 : Z := 18.
Definition DEV_USB : Z := 43.
Definition DEV_RS485 : Z := 44.

Definition IO_BAUD_UNSPECIFIED : Z := 0.
Definition IO_BAUD_9600 : Z := 1.
Definition IO_BAUD_19200 : Z := 2.
Definition IO_BAUD_38400 : Z := 3.
Definition IO_BAUD_57600 : Z := 4.
Definition IO_BAUD_115200 : Z := 5.
Definition IO_BAUD_230400 : Z := 6.
Definition IO_BAUD_460800 : Z := 7.
Definition IO_BAUD_921600 : Z := 8.
Definition IO_BAUD_500000 : Z := 9.
Definition IO_BAUD_1000000 : Z := 10.
Definition IO_BAUD_DEFAULT : Z := IO_BAUD_115200.
Definition IO_BAUD_gm : Z := 15.

(** The bit masks are the numbers the header means: (1<<15) is 32768,
    not the negative value a 16-bit int gives it. *)
Definition IO_RDONLY : Z := Z.shiftl 1 8.
Definition IO_WRONLY : Z := Z.shiftl 1 9.
Definition IO_RDWR : Z := 0.
Definition IO_ECHO : Z := Z.shiftl 1 10.
Definition IO_NOECHO : Z := Z.shiftl 1 11.
Definition IO_RDBLOCK : Z := Z.shiftl 1 12.
Definition IO_WRBLOCK : Z := Z.shiftl 1 13.
Definition IO_RDNONBLOCK : Z := Z.shiftl 1 14.
Definition IO_WRNONBLOCK : Z := Z.shiftl 1 15.

Definition IO_FLAG_RD_bm : Z := Z.shiftl 1 0.
Definition IO_FLAG_WR_bm : Z := Z.shiftl 1 1.
Definition IO_FLAG_RD_BLOCK_bm : Z := Z.shiftl 1 2.
Definition IO_FLAG_WR_BLOCK_bm : Z := Z.shiftl 1 3.
Definition IO_FLAG_ECHO_CHAR_bm : Z := Z.shiftl 1 4.

Definition IO_FLAG_DEFAULT_gm : Z :=
  Z.lor (Z.lor (Z.lor IO_FLAG_RD_bm IO_FLAG_WR_bm) IO_FLAG_RD_BLOCK_bm)
        IO_FLAG_ECHO_CHAR_bm.

(** A C condition is true when its value is not zero. *)
Definition c_true (x : Z) : bool := negb (x =? 0).

Definition READ_ENABLED (a : Z) : bool := c_true (Z.land a IO_FLAG_RD_bm).
Definition WRITE_ENABLED (a : Z) : bool := c_true (Z.land a IO_FLAG_WR_bm).
Definition BLOCKING_ENABLED (a : Z) : bool :=
  c_true (Z.land a IO_FLAG_RD_BLOCK_bm).
Definition ECHO_ENABLED (a : Z) : bool :=
  c_true (Z.land a IO_FLAG_ECHO_CHAR_bm).

Definition USART_TX_even_bm : Z := Z.shiftl 1 3.
Definition USART_RX_even_bm : Z := Z.shiftl 1 2.
Definition USART_TX_odd_bm : Z := Z.shiftl 1 7.
Definition USART_RX_odd_bm : Z := Z.shiftl 1 6.
Definition USB_RTS_bm : Z := Z.shiftl 1 1.
Definition USB_CTS_bm : Z := Z.shiftl 1 0.

(** Register bits of the ATxmega USART (avr/io.h of the toolchain). *)
Definition USART_TXEN_bm : Z := 8.
Definition USART_RXEN_bm : Z := 16.
Definition USART_RXCINTLVL_MED_gc : Z := 32.

(** The two size sentinels the b119 sources name but whose header is not
    part of the tree; their values are the ones xio_read() and xio_write()
    document ("-2 STR_MODE", "-3 PSTR_MODE"). *)
Definition STR_MODE : Z := -2.
Definition PSTR_MODE : Z := -3.

(** The remaining constants of the b119 header, which is not part of the
    tree, are parameters of the development. *)
Class xio_config : Type := {
  USART_RX_BUFSIZE : Z;   (* length of rx_buf *)
  READ_BUFFER_SIZE : Z;   (* default rx_size_max is READ_BUFFER_SIZE-1 *)
  NO_LIMIT : Z;           (* "no size limit" sentinel of rx/tx_size_max *)
  IO_RD_SIZE_MAX : Z;     (* xio_control() command bits *)
  IO_WR_SIZE_MAX : Z;
  ERR_EOF : Z             (* what getc/putc return for a bad fd *)
}.

(** What the code needs of the parameters: the ring indices are 8 bits
    wide and one slot besides slot 0 exists; NO_LIMIT is not a size
    ("1-32767, NO_LIMIT" in _control_USART()). *)
Record cfg_ok (cfg : xio_config) : Prop := {
  bufsize_lo : 2 <= USART_RX_BUFSIZE;
  bufsize_hi : USART_RX_BUFSIZE <= 255;
  no_limit_range : -32768 <= NO_LIMIT <= 0
}.

(** Modelled from the spec: xmega_errno.h is not part of the tree; the
    error numbers are the distinct conditions of the error taxonomy (no
    such device, invalid argument, would-block, too big, message too big,
    internal) plus EBADF, and 0 for "no error". *)
Inductive errno_t : Type :=
| ENOERR | ENODEV | EINVAL | EAGAIN | EFBIG | EMSGSIZE | EBADF | EWTF.

(** ** Device structures *)

Inductive USART_id : Type := USARTC0 | USARTC1.
Inductive PORT_id : Type := PORTC.

(** struct fdUSART.  The four function pointers (read, write, close,
    control) are assigned by open and never called; they are left out. *)
Record fdUSART : Type := mk_fdUSART {
  fd : Z;
  baud : Z;
  flags : Z;
  rx_buf_tail : Z;
  rx_buf_head : Z;
  tx_buf_tail : Z;
  tx_buf_head : Z;
  rx_buf : list Z;
  rx_size_max : Z;
  tx_size_max : Z;
  usart : option USART_id;
  port : option PORT_id
}.

Definition set_fd v f := mk_fdUSART v (baud f) (flags f) (rx_buf_tail f)
  (rx_buf_head f) (tx_buf_tail f) (tx_buf_head f) (rx_buf f)
  (rx_size_max f) (tx_size_max f) (usart f) (port f).
Definition set_baud v f := mk_fdUSART (fd f) v (flags f) (rx_buf_tail f)
  (rx_buf_head f) (tx_buf_tail f) (tx_buf_head f) (rx_buf f)
  (rx_size_max f) (tx_size_max f) (usart f) (port f).
Definition set_flags v f := mk_fdUSART (fd f) (baud f) v (rx_buf_tail f)
  (rx_buf_head f) (tx_buf_tail f) (tx_buf_head f) (rx_buf f)
  (rx_size_max f) (tx_size_max f) (usart f) (port f).
Definition set_rx_buf_tail v f := mk_fdUSART (fd f) (baud f) (flags f) v
  (rx_buf_head f) (tx_buf_tail f) (tx_buf_head f) (rx_buf f)
  (rx_size_max f) (tx_size_max f) (usart f) (port f).
Definition set_rx_buf_head v f := mk_fdUSART (fd f) (baud f) (flags f)
  (rx_buf_tail f) v (tx_buf_tail f) (tx_buf_head f) (rx_buf f)
  (rx_size_max f) (tx_size_max f) (usart f) (port f).
Definition set_tx_buf_tail v f := mk_fdUSART (fd f) (baud f) (flags f)
  (rx_buf_tail f) (rx_buf_head f) v (tx_buf_head f) (rx_buf f)
  (rx_size_max f) (tx_size_max f) (usart f) (port f).
Definition set_tx_buf_head v f := mk_fdUSART (fd f) (baud f) (flags f)
  (rx_buf_tail f) (rx_buf_head f) (tx_buf_tail f) v (rx_buf f)
  (rx_size_max f) (tx_size_max f) (usart f) (port f).
Definition set_rx_buf v f := mk_fdUSART (fd f) (baud f) (flags f)
  (rx_buf_tail f) (rx_buf_head f) (tx_buf_tail f) (tx_buf_head f) v
  (rx_size_max f) (tx_size_max f) (usart f) (port f).
Definition set_rx_size_max v f := mk_fdUSART (fd f) (baud f) (flags f)
  (rx_buf_tail f) (rx_buf_head f) (tx_buf_tail f) (tx_buf_head f) (rx_buf f)
  v (tx_size_max f) (usart f) (port f).
Definition set_tx_size_max v f := mk_fdUSART (fd f) (baud f) (flags f)
  (rx_buf_tail f) (rx_buf_head f) (tx_buf_tail f) (tx_buf_head f) (rx_buf f)
  (rx_size_max f) v (usart f) (port f).
Definition set_usart v f := mk_fdUSART (fd f) (baud f) (flags f)
  (rx_buf_tail f) (rx_buf_head f) (tx_buf_tail f) (tx_buf_head f) (rx_buf f)
  (rx_size_max f) (tx_size_max f) v (port f).
Definition set_port v f := mk_fdUSART (fd f) (baud f) (flags f)
  (rx_buf_tail f) (rx_buf_head f) (tx_buf_tail f) (tx_buf_head f) (rx_buf f)
  (rx_size_max f) (tx_size_max f) (usart f) v.

(** The registers of a USART the code writes, and the bytes it has put
    into the transmit data register, oldest first. *)
Record USART_t : Type := mk_USART {
  BAUDCTRLA : Z;
  BAUDCTRLB : Z;
  CTRLA : Z;
  CTRLB : Z;
  DATA_tx : list Z
}.

(** A port: direction and output latch.  DIRCLR, DIRSET and OUTSET are the
    write-one-to-clear/set views of these two registers. *)
Record PORT_t : Type := mk_PORT { DIR : Z; OUT : Z }.

(** &fd_usb and &fd_rs485. *)
Inductive fd_ref : Type := ref_usb | ref_rs485.

(** A receive-complete interrupt with the byte in the data register. *)
Inductive irq : Type :=
| USARTC0_RXC (data : Z)
| USARTC1_RXC (data : Z).

Record world : Type := mk_world {
  errno : errno_t;
  fd_ptrs : list (option fd_ref);
  fd_usb : fdUSART;
  fd_rs485 : fdUSART;
  usartc0 : USART_t;
  usartc1 : USART_t;
  portc : PORT_t;
  sleeps : nat;            (* how often sleep_mode() was entered *)
  pending : list irq       (* interrupts still to come *)
}.

Definition set_errno v w := mk_world v (fd_ptrs w) (fd_usb w) (fd_rs485 w)
  (usartc0 w) (usartc1 w) (portc w) (sleeps w) (pending w).
Definition set_fd_ptrs v w := mk_world (errno w) v (fd_usb w) (fd_rs485 w)
  (usartc0 w) (usartc1 w) (portc w) (sleeps w) (pending w).
Definition set_fd_usb v w := mk_world (errno w) (fd_ptrs w) v (fd_rs485 w)
  (usartc0 w) (usartc1 w) (portc w) (sleeps w) (pending w).
Definition set_fd_rs485 v w := mk_world (errno w) (fd_ptrs w) (fd_usb w) v
  (usartc0 w) (usartc1 w) (portc w) (sleeps w) (pending w).
Definition set_usartc0 v w := mk_world (errno w) (fd_ptrs w) (fd_usb w)
  (fd_rs485 w) v (usartc1 w) (portc w) (sleeps w) (pending w).
Definition set_usartc1 v w := mk_world (errno w) (fd_ptrs w) (fd_usb w)
  (fd_rs485 w) (usartc0 w) v (portc w) (sleeps w) (pending w).
Definition set_portc v w := mk_world (errno w) (fd_ptrs w) (fd_usb w)
  (fd_rs485 w) (usartc0 w) (usartc1 w) v (sleeps w) (pending w).
Definition set_sleeps v w := mk_world (errno w) (fd_ptrs w) (fd_usb w)
  (fd_rs485 w) (usartc0 w) (usartc1 w) (portc w) v (pending w).
Definition set_pending v w := mk_world (errno w) (fd_ptrs w) (fd_usb w)
  (fd_rs485 w) (usartc0 w) (usartc1 w) (portc w) (sleeps w) v.

(** [*p] and [*p = f] for a pointer to one of the two structs. *)
Definition deref (p : fd_ref) (w : world) : fdUSART :=
  match p with ref_usb => fd_usb w | ref_rs485 => fd_rs485 w end.

Definition assign (p : fd_ref) (f : fdUSART) (w : world) : world :=
  match p with ref_usb => set_fd_usb f w | ref_rs485 => set_fd_rs485 f w end.

Definition get_usart (u : USART_id) (w : world) : USART_t :=
  match u with USARTC0 => usartc0 w | USARTC1 => usartc1 w end.

Definition put_usart (u : USART_id) (r : USART_t) (w : world) : world :=
  match u with USARTC0 => set_usartc0 r w | USARTC1 => set_usartc1 r w end.

(** ** Outcomes *)

Inductive outcome (A : Type) : Type :=
| Ret (a : A) (w : world)   (* the call returns [a] *)
| Blocked                   (* asleep with no interrupt left to wake it *)
| Fault                     (* undefined behaviour *)
| OutOfFuel.                (* the loop bound of the model was too small *)

Arguments Ret {A} a w.
Arguments Blocked {A}.
Arguments Fault {A}.
Arguments OutOfFuel {A}.

Definition M (A : Type) : Type := world -> outcome A.

Definition ret {A} (a : A) : M A := fun w => Ret a w.

Definition bind {A B} (m : M A) (k : A -> M B) : M B :=
  fun w => match m w with
           | Ret a w' => k a w'
           | Blocked => Blocked
           | Fault => Fault
           | OutOfFuel => OutOfFuel
           end.

Definition modify (g : world -> world) : M unit := fun w => Ret tt (g w).
Definition fault {A} : M A := fun _ => Fault.

Definition lift_opt {A} (o : option A) : M A :=
  match o with Some a => ret a | None => fault end.

Notation "x <- m ;; k" := (bind m (fun x => k))
  (at level 100, m at next level, right associativity).
Notation "m ;;; k" := (bind m (fun _ => k))
  (at level 100, right associativity).

(** ** The functions of xmega_io.c *)

Section Xio.
Context {cfg : xio_config}.

(** fdes[]: device number to file descriptor. *)
Definition fdes : list Z :=
  [ 0;
    0; 0; 0; 0; 0; 0; 0; 0;
    0; 0; 0; 0; 0; 0; 0; 0;
    1; 2; 0; 0; 0; 0; 0; 0;
    0; 0; 0; 0;
    0; 0;
    0;
    0;
    0; 0;
    0; 0;
    0; 0; 0; 0; 0;
    0;
    1; 2; 0; 0;
    0;
    0 ].

(** usel[] and psel[]: the entries of the two USARTs that have a control
    block; the other six have none (fdes maps them to 0, the NULL entry of
    fd_ptrs). *)
Definition usel (u : Z) : option USART_id :=
  if u =? 0 then Some USARTC0 else if u =? 1 then Some USARTC1 else None.

Definition psel (u : Z) : option PORT_id :=
  if (0 <=? u) && (u <=? 1) then Some PORTC else None.

Definition bsel : list Z := [0; 207; 103; 51; 34; 33; 31; 27; 19; 1; 1].

Definition bscale : list Z :=
  [0; 0; 0; 0; 0; u8 (Z.shiftl (-1) 4); u8 (Z.shiftl (-2) 4);
   u8 (Z.shiftl (-3) 4); u8 (Z.shiftl (-4) 4); Z.shiftl 1 4; 1].

(** xio_init() *)
Definition xio_init : M unit :=
  modify (fun w => set_errno ENOERR
                     (set_fd_ptrs [None; Some ref_usb; Some ref_rs485] w)).

(** The struct behind fd_ptrs[fd].  A NULL entry faults here, where the
    pointer is loaded; the C code faults at its first use. *)
Definition fd_ptr (fdn : Z) : M fd_ref :=
  fun w => match (if fdn <? 0 then None else fd_ptrs w !! Z.to_nat fdn) with
           | Some (Some p) => Ret p w
           | _ => Fault
           end.

(** _write_char_USART(): the spin on the transmit-ready bit is taken to
    end (the hardware raises it after each byte); the byte then goes into
    the data register of the USART the struct is bound to. *)
Definition _write_char_USART (p : fd_ref) (c : Z) : M Z := fun w =>
  match usart (deref p w) with
  | None => Fault
  | Some u =>
      let r := get_usart u w in
      Ret c (put_usart u (mk_USART (BAUDCTRLA r) (BAUDCTRLB r) (CTRLA r)
                                   (CTRLB r) (DATA_tx r ++ [u8 c])) w)
  end.

(** _echo_to_console() *)
Definition _echo_to_console (c : Z) : M unit :=
  _write_char_USART ref_usb c ;;; ret tt.

(** The body of a receive interrupt.  ISR(USB_RX_ISR_vect) is this text
    on fd_usb and ISR(USARTC1_RXC_vect) the same text on fd_rs485; [data]
    is the byte in the data register of the USART. *)
Definition rx_isr (p : fd_ref) (data : Z) : M unit := fun w =>
  let f := deref p w in
  (* if ((--head) == 0) head = USART_RX_BUFSIZE-1; *)
  let h := u8 (rx_buf_head f - 1) in
  let h := if h =? 0 then u8 (USART_RX_BUFSIZE - 1) else h in
  if negb (h =? rx_buf_tail f) then
    (* rx_buf[head] = usart->DATA; return; *)
    match usart f with
    | None => Fault
    | Some _ =>
        match array_set (rx_buf f) h (s8 data) with
        | None => Fault
        | Some b => Ret tt (assign p (set_rx_buf b (set_rx_buf_head h f)) w)
        end
    end
  else
    (* if ((++head) > USART_RX_BUFSIZE-1) head = 1; *)
    let h := u8 (h + 1) in
    let h := if h >? USART_RX_BUFSIZE - 1 then 1 else h in
    Ret tt (assign p (set_rx_buf_head h f) w).

Definition ISR_USB_RX (data : Z) : M unit := rx_isr ref_usb data.
Definition ISR_USARTC1_RXC (data : Z) : M unit := rx_isr ref_rs485 data.

Definition serve (q : irq) : M unit :=
  match q with
  | USARTC0_RXC d => ISR_USB_RX d
  | USARTC1_RXC d => ISR_USARTC1_RXC d
  end.

(** The wait loop of _read_char_USART():
      while (head == tail) {
        if (!BLOCKING_ENABLED(flags)) { errno = EAGAIN; return (-1); }
        sleep_mode();
      }
    [irqs] is the pending list of [w].  The result is [false] when the
    function has returned -1 and [true] when the loop was left. *)
Fixpoint rx_wait (p : fd_ref) (irqs : list irq) (w : world) : outcome bool :=
  let f := deref p w in
  if rx_buf_head f =? rx_buf_tail f then
    if negb (BLOCKING_ENABLED (flags f)) then Ret false (set_errno EAGAIN w)
    else
      match irqs with
      | [] => Blocked
      | q :: irqs' =>
          match serve q (set_pending irqs' (set_sleeps (S (sleeps w)) w)) with
          | Ret _ w' => rx_wait p irqs' w'
          | Blocked => Blocked
          | Fault => Fault
          | OutOfFuel => OutOfFuel
          end
      end
  else Ret true w.

(** The rest of _read_char_USART(), after the wait loop.  The wrap of
    the tail writes fd_usb.rx_buf_tail, whatever [f] points to, as the
    source does. *)
Definition rx_take (p : fd_ref) : M Z := fun w1 =>
  (* if (--(f->rx_buf_tail) == 0) fd_usb.rx_buf_tail = BUFSIZE-1; *)
  let f := deref p w1 in
  let t := u8 (rx_buf_tail f - 1) in
  let w2 := assign p (set_rx_buf_tail t f) w1 in
  let w3 :=
    if t =? 0
    then set_fd_usb
           (set_rx_buf_tail (u8 (USART_RX_BUFSIZE - 1)) (fd_usb w2)) w2
    else w2 in
  (* char c = f->rx_buf[f->rx_buf_tail]; *)
  let f3 := deref p w3 in
  match array_get (rx_buf f3) (rx_buf_tail f3) with
  | None => Fault
  | Some c =>
      if ECHO_ENABLED (flags f3)
      then (_echo_to_console c ;;; ret c) w3
      else Ret c w3
  end.

(** _read_char_USART() *)
Definition _read_char_USART (p : fd_ref) : M Z := fun w =>
  match rx_wait p (pending w) w with
  | Ret false w1 => Ret (-1) w1
  | Ret true w1 => rx_take p w1
  | Blocked => Blocked
  | Fault => Fault
  | OutOfFuel => OutOfFuel
  end.

(** [*p = g( *p )] *)
Definition upd (p : fd_ref) (g : fdUSART -> fdUSART) : M unit :=
  modify (fun w => assign p (g (deref p w)) w).

Definition is_delimiter (c : Z) : bool :=
  (c =? 13) || (c =? 10) || (c =? 59).      (* '\r', '\n', ';' *)

(** The step "if (size != NO_LIMIT) { if (--size == 0) ..." of the line and
    string loops: the new size, and whether the limit has been reached. *)
Definition count_down (size : Z) : Z * bool :=
  if negb (size =? NO_LIMIT)
  then let size' := s16 (size - 1) in (size', size' =? 0)
  else (size, false).

(** The three loops of _read_usb().  [buf] is the caller's buffer, [i] the
    output index; the result is the return value and the buffer. *)
Fixpoint read_size_loop (fuel : nat) (p : fd_ref) (buf : list Z) (i size : Z)
  : M (Z * list Z) :=
  match fuel with
  | O => fun _ => OutOfFuel
  | S fuel' =>
      (* if ((buf[i++] = _read_char_USART(f)) == -1) return (-1); *)
      c <- _read_char_USART p ;;
      buf1 <- lift_opt (array_set buf i c) ;;
      if c =? -1 then ret (-1, buf1)
      else
        (* if (--size == 0) return (i); *)
        let size' := s16 (size - 1) in
        if size' =? 0 then ret (i + 1, buf1)
        else read_size_loop fuel' p buf1 (i + 1) size'
  end.

Fixpoint read_line_loop (fuel : nat) (p : fd_ref) (buf : list Z) (i size : Z)
  : M (Z * list Z) :=
  match fuel with
  | O => fun _ => OutOfFuel
  | S fuel' =>
      c <- _read_char_USART p ;;
      if c =? -1 then ret (-1, buf)
      else
        buf1 <- lift_opt (array_set buf i c) ;;
        let '(size', full) := count_down size in
        if full then
          buf2 <- lift_opt (array_set buf1 (i + 1) NUL) ;;
          modify (set_errno EMSGSIZE) ;;;
          ret (-1, buf2)
        else if is_delimiter c then
          buf2 <- lift_opt (array_set buf1 (i + 1) NUL) ;;
          ret (i + 1, buf2)
        else if c =? NUL then ret (i + 1, buf1)
        else read_line_loop fuel' p buf1 (i + 1) size'
  end.

Fixpoint read_str_loop (fuel : nat) (p : fd_ref) (buf : list Z) (i size : Z)
  : M (Z * list Z) :=
  match fuel with
  | O => fun _ => OutOfFuel
  | S fuel' =>
      c <- _read_char_USART p ;;
      if c =? -1 then ret (-1, buf)
      else
        buf1 <- lift_opt (array_set buf i c) ;;
        let '(size', full) := count_down size in
        if full then
          buf2 <- lift_opt (array_set buf1 (i + 1) NUL) ;;
          modify (set_errno EFBIG) ;;;
          ret (-1, buf2)
        else if c =? NUL then ret (i + 1, buf1)
        else read_str_loop fuel' p buf1 (i + 1) size'
  end.

(** _read_usb() *)
Definition _read_usb (fuel : nat) (p : fd_ref) (buf : list Z) (size : Z)
  : M (Z * list Z) := fun w =>
  let f := deref p w in
  if size =? 0 then Ret (0, buf) w
  else if size >? rx_size_max f then Ret (-1, buf) (set_errno EFBIG w)
  else if size <? STR_MODE then Ret (-1, buf) (set_errno EINVAL w)
  else
    let mode := if size >? 0 then SIZE_MODE else s8 size in
    let size := if size >? 0 then size else rx_size_max f in
    if mode =? SIZE_MODE then read_size_loop fuel p buf 0 size w
    else if mode =? LINE_MODE then read_line_loop fuel p buf 0 size w
    else if mode =? STR_MODE then read_str_loop fuel p buf 0 size w
    else Ret (-1, buf) (set_errno EWTF w).

(** The loops of _write_usb().  [buf] is the source string. *)
Fixpoint write_size_loop (fuel : nat) (p : fd_ref) (buf : list Z) (i size : Z)
  : M Z :=
  match fuel with
  | O => fun _ => OutOfFuel
  | S fuel' =>
      (* if (--size == 0) return (i); *)
      let size' := s16 (size - 1) in
      if size' =? 0 then ret i
      else
        (* if (_write_char_USART(f,buf[i++]) == -1) return (-1); *)
        c <- lift_opt (array_get buf i) ;;
        r <- _write_char_USART p c ;;
        if r =? -1 then ret (-1)
        else write_size_loop fuel' p buf (i + 1) size'
  end.

Fixpoint write_line_loop (fuel : nat) (p : fd_ref) (buf : list Z) (i size : Z)
  : M Z :=
  match fuel with
  | O => fun _ => OutOfFuel
  | S fuel' =>
      let '(size', full) := count_down size in
      if full then modify (set_errno EMSGSIZE) ;;; ret (-1)
      else
        c <- lift_opt (array_get buf i) ;;
        if c =? NUL then ret (i + 1)
        else
          r <- _write_char_USART p c ;;
          if r =? -1 then ret (-1)
          else if is_delimiter c then ret (i + 1)
          else write_line_loop fuel' p buf (i + 1) size'
  end.

(** The STR_MODE loop; the PSTR_MODE loop is the same text with the
    source read from program memory by pgm_read_byte(). *)
Fixpoint write_str_loop (fuel : nat) (p : fd_ref) (buf : list Z) (i size : Z)
  : M Z :=
  match fuel with
  | O => fun _ => OutOfFuel
  | S fuel' =>
      let '(size', full) := count_down size in
      if full then modify (set_errno EMSGSIZE) ;;; ret (-1)
      else
        c <- lift_opt (array_get buf i) ;;
        if c =? NUL then ret (i + 1)
        else
          r <- _write_char_USART p c ;;
          if r =? -1 then ret (-1)
          else write_str_loop fuel' p buf (i + 1) size'
  end.

(** _write_usb() *)
Definition _write_usb (fuel : nat) (p : fd_ref) (buf : list Z) (size : Z)
  : M Z := fun w =>
  let f := deref p w in
  if size =? 0 then Ret 0 w
  else if size >? rx_size_max f then Ret (-1) (set_errno EFBIG w)
  else if size <? PSTR_MODE then Ret (-1) (set_errno EINVAL w)
  else
    let mode := if size >? 0 then SIZE_MODE else s8 size in
    let size := if size >? 0 then size else rx_size_max f in
    if mode =? SIZE_MODE then write_size_loop fuel p buf 0 size w
    else if mode =? LINE_MODE then write_line_loop fuel p buf 0 size w
    else if mode =? STR_MODE then write_str_loop fuel p buf 0 size w
    else if mode =? PSTR_MODE then write_str_loop fuel p buf 0 size w
    else Ret (-1) (set_errno EWTF w).

(** Writes to the registers behind f->usart and f->port. *)
Definition usart_write (p : fd_ref) (g : USART_t -> USART_t) : M unit :=
  fun w => match usart (deref p w) with
           | None => Fault
           | Some u => Ret tt (put_usart u (g (get_usart u w)) w)
           end.

Definition port_write (p : fd_ref) (g : PORT_t -> PORT_t) : M unit :=
  fun w => match port (deref p w) with
           | None => Fault
           | Some PORTC => Ret tt (set_portc (g (portc w)) w)
           end.

Definition set_BAUDCTRLA v r :=
  mk_USART v (BAUDCTRLB r) (CTRLA r) (CTRLB r) (DATA_tx r).
Definition set_BAUDCTRLB v r :=
  mk_USART (BAUDCTRLA r) v (CTRLA r) (CTRLB r) (DATA_tx r).
Definition set_CTRLA v r :=
  mk_USART (BAUDCTRLA r) (BAUDCTRLB r) v (CTRLB r) (DATA_tx r).
Definition set_CTRLB v r :=
  mk_USART (BAUDCTRLA r) (BAUDCTRLB r) (CTRLA r) v (DATA_tx r).

Definition DIRCLR (m : Z) (r : PORT_t) := mk_PORT (Z.land (DIR r) (Z.lnot m)) (OUT r).
Definition DIRSET (m : Z) (r : PORT_t) := mk_PORT (Z.lor (DIR r) m) (OUT r).
Definition OUTSET (m : Z) (r : PORT_t) := mk_PORT (DIR r) (Z.lor (OUT r) m).

(** "f->flags &= ~bm" and "f->flags |= bm" *)
Definition clear_flag (bm : Z) (f : fdUSART) : fdUSART :=
  set_flags (Z.land (flags f) (Z.lnot bm)) f.
Definition set_flag (bm : Z) (f : fdUSART) : fdUSART :=
  set_flags (Z.lor (flags f) bm) f.

(** The baud-rate registers from the two tables. *)
Definition set_baud_regs (p : fd_ref) : M unit :=
  fun w =>
    let b := baud (deref p w) in
    (a <- lift_opt (array_get bsel b) ;;
     usart_write p (set_BAUDCTRLA a) ;;;
     s <- lift_opt (array_get bscale b) ;;
     usart_write p (set_BAUDCTRLB s)) w.

(** _open_USART() *)
Definition _open_USART (dev control : Z) : M Z :=
  fdn <- lift_opt (array_get fdes dev) ;;
  p <- fd_ptr fdn ;;
  upd p (set_fd fdn) ;;;
  upd p (set_rx_buf_head 1) ;;;
  upd p (set_rx_buf_tail 1) ;;;
  upd p (set_tx_buf_head 1) ;;;
  upd p (set_tx_buf_tail 1) ;;;
  upd p (set_rx_size_max (s16 (READ_BUFFER_SIZE - 1))) ;;;
  upd p (set_tx_size_max NO_LIMIT) ;;;
  if Z.land control (Z.lor IO_RDONLY IO_WRONLY) =? Z.lor IO_RDONLY IO_WRONLY
  then modify (set_errno EINVAL) ;;; ret (-1)
  else
    upd p (set_flags IO_FLAG_DEFAULT_gm) ;;;
    (if c_true (Z.land control IO_RDONLY)
     then upd p (clear_flag IO_FLAG_WR_bm)
     else if c_true control && c_true IO_RDONLY    (* control && IO_RDONLY *)
          then upd p (clear_flag IO_FLAG_RD_bm)
          else ret tt) ;;;
    (if c_true (Z.land control IO_NOECHO)
     then upd p (clear_flag IO_FLAG_ECHO_CHAR_bm) else ret tt) ;;;
    (if c_true (Z.land control IO_RDNONBLOCK)
     then upd p (clear_flag IO_FLAG_RD_BLOCK_bm) else ret tt) ;;;
    let u := u8 (dev - DEV_USARTC0) in
    upd p (set_usart (usel u)) ;;;
    upd p (set_port (psel u)) ;;;
    upd p (set_baud (u8 (Z.land control IO_BAUD_gm))) ;;;
    (if u8 (Z.land control IO_BAUD_gm) =? IO_BAUD_UNSPECIFIED
     then upd p (set_baud IO_BAUD_DEFAULT) else ret tt) ;;;
    set_baud_regs p ;;;
    usart_write p (set_CTRLB (Z.lor USART_TXEN_bm USART_RXEN_bm)) ;;;
    usart_write p (set_CTRLA USART_RXCINTLVL_MED_gc) ;;;
    (if c_true (Z.land u 1)
     then port_write p (DIRCLR USART_RX_odd_bm) ;;;
          port_write p (DIRSET USART_TX_odd_bm) ;;;
          port_write p (OUTSET USART_TX_odd_bm)
     else port_write p (DIRCLR USART_RX_even_bm) ;;;
          port_write p (DIRSET USART_TX_even_bm) ;;;
          port_write p (OUTSET USART_TX_even_bm)) ;;;
    fun w => Ret (s8 (fd (deref p w))) w.

(** _close_USART() *)
Definition _close_USART (p : fd_ref) : M Z := ret 0.

(** _control_USART() *)
Definition _control_USART (p : fd_ref) (control arg : Z) : M Z :=
  (if negb (Z.land control IO_BAUD_gm =? IO_BAUD_UNSPECIFIED)
   then upd p (set_baud (u8 (Z.land control IO_BAUD_gm))) ;;;
        set_baud_regs p
   else ret tt) ;;;
  (if c_true (Z.land control IO_ECHO)
   then upd p (set_flag IO_FLAG_ECHO_CHAR_bm) else ret tt) ;;;
  (if c_true (Z.land control IO_NOECHO)
   then upd p (clear_flag IO_FLAG_ECHO_CHAR_bm) else ret tt) ;;;
  (if c_true (Z.land control IO_RDBLOCK)
   then upd p (set_flag IO_FLAG_RD_BLOCK_bm) else ret tt) ;;;
  (if c_true (Z.land control IO_RDNONBLOCK)
   then upd p (clear_flag IO_FLAG_RD_BLOCK_bm) else ret tt) ;;;
  (if c_true (Z.land control IO_WRBLOCK)
   then upd p (set_flag IO_FLAG_WR_BLOCK_bm) else ret tt) ;;;
  (if c_true (Z.land control IO_WRNONBLOCK)
   then upd p (clear_flag IO_FLAG_WR_BLOCK_bm) else ret tt) ;;;
  if c_true (Z.land control IO_RD_SIZE_MAX)
  then upd p (set_rx_size_max arg) ;;; ret 0
  else if c_true (Z.land control IO_WR_SIZE_MAX)
  then upd p (set_tx_size_max arg) ;;; ret 0
  else ret 0.

(** _open_usb().  [fd] is a uint8_t, so the test against -1 compares a
    value of 0..255 with -1. *)
Definition _open_usb (dev control : Z) : M Z :=
  r <- _open_USART DEV_USARTC0 control ;;
  let fdn := u8 r in
  if fdn =? -1 then ret (-1)
  else
    p <- fd_ptr fdn ;;
    port_write p (DIRCLR USB_CTS_bm) ;;;
    port_write p (DIRSET USB_RTS_bm) ;;;
    port_write p (OUTSET USB_RTS_bm) ;;;
    fun w => Ret (s8 (fd (deref p w))) w.

(** _close_usb() and _control_usb() *)
Definition _close_usb (p : fd_ref) : M Z := ret 0.

Definition _control_usb (p : fd_ref) (control arg : Z) : M Z :=
  _control_USART p control arg.

(** ** The dispatchers *)

(** xio_open() *)
Definition xio_open (dev control : Z) : M Z :=
  if dev =? DEV_USARTC0 then modify (set_errno ENODEV) ;;; ret (-1)
  else if dev =? DEV_USARTC1 then modify (set_errno ENODEV) ;;; ret (-1)
  else if dev =? DEV_USB then _open_usb dev control
  else modify (set_errno ENODEV) ;;; ret (-1).

(** xio_control() *)
Definition xio_control (fdn control arg : Z) : M Z :=
  if fdn =? FD_USB
  then p <- fd_ptr fdn ;; _control_usb p control arg
  else modify (set_errno ENODEV) ;;; ret (-1).

(** xio_close() *)
Definition xio_close (fdn : Z) : M Z := ret 0.

(** xio_read() *)
Definition xio_read (fuel : nat) (fdn : Z) (buf : list Z) (size : Z)
  : M (Z * list Z) :=
  if fdn =? FD_USB then _read_usb fuel ref_usb buf size
  else modify (set_errno EBADF) ;;; ret (-1, buf).

(** xio_write() *)
Definition xio_write (fuel : nat) (fdn : Z) (buf : list Z) (size : Z) : M Z :=
  if fdn =? FD_USB
  then p <- fd_ptr fdn ;; _write_usb fuel p buf size
  else modify (set_errno EBADF) ;;; ret (-1).

(** xio_getc() and xio_putc() *)
Definition xio_getc (fdn : Z) : M Z :=
  if fdn =? FD_USB
  then p <- fd_ptr fdn ;; _read_char_USART p
  else modify (set_errno EBADF) ;;; ret ERR_EOF.

Definition xio_putc (fdn : Z) (c : Z) : M Z :=
  if fdn =? FD_USB
  then p <- fd_ptr fdn ;; _write_char_USART p c
  else modify (set_errno EBADF) ;;; ret ERR_EOF.

End Xio.

(** ** Specification vocabulary *)

Section RingSpec.
Context {cfg : xio_config}.

(** One step of an index: decrement, and from 1 wrap to the top slot. *)
Definition advance (x : Z) : Z :=
  if x - 1 =? 0 then USART_RX_BUFSIZE - 1 else x - 1.

(** The range the indices live in: 1 .. USART_RX_BUFSIZE-1. *)
Definition index_ok (x : Z) : Prop := 1 <= x <= USART_RX_BUFSIZE - 1.

Definition ring_empty (f : fdUSART) : Prop := rx_buf_head f = rx_buf_tail f.

(** Full: one more step of the head would reach the tail. *)
Definition ring_full (f : fdUSART) : Prop :=
  advance (rx_buf_head f) = rx_buf_tail f.

(** The invariant of a receive ring. *)
Record ring_ok (f : fdUSART) : Prop := {
  head_ok : index_ok (rx_buf_head f);
  tail_ok : index_ok (rx_buf_tail f);
  buf_len : Z.of_nat (length (rx_buf f)) = USART_RX_BUFSIZE
}.

(** The slots from the tail (excluded) down to the head (included), in
    the order the reader will meet them. *)
Fixpoint ring_slots (n : nat) (t : Z) (b : list Z) : list Z :=
  match n with
  | O => []
  | S n' => let t' := advance t in
            default 0 (array_get b t') :: ring_slots n' t' b
  end.

(** How many steps the tail [t] is behind the head [h]. *)
Definition gap (h t : Z) : Z :=
  if h <=? t then t - h else t - h + (USART_RX_BUFSIZE - 1).

Definition occupancy (f : fdUSART) : Z :=
  gap (rx_buf_head f) (rx_buf_tail f).

(** The queue a ring stands for, oldest byte first. *)
Definition contents (f : fdUSART) : list Z :=
  ring_slots (Z.to_nat (occupancy f)) (rx_buf_tail f) (rx_buf f).

(** The abstract queue: a push appends unless USART_RX_BUFSIZE-2 bytes
    are waiting, a pop takes the oldest byte. *)
Definition fifo_push (c : Z) (q : list Z) : list Z :=
  if Z.of_nat (length q) <? USART_RX_BUFSIZE - 2 then q ++ [c] else q.

Definition fifo_pop (q : list Z) : option (Z * list Z) :=
  match q with
  | [] => None
  | c :: q' => Some (c, q')
  end.

(** The ring after a receive interrupt. *)
Definition pushed (c : Z) (f : fdUSART) : fdUSART :=
  let h := advance (rx_buf_head f) in
  if h =? rx_buf_tail f then f
  else set_rx_buf (<[Z.to_nat h := c]> (rx_buf f)) (set_rx_buf_head h f).

(** The ring after a pop. *)
Definition popped (f : fdUSART) : fdUSART :=
  set_rx_buf_tail (advance (rx_buf_tail f)) f.

(** A run of the USB device: receive interrupts between foreground calls
    and calls of xio_getc(FD_USB).  The result lists the bytes the calls
    took out of the ring; a call took one when it moved the tail. *)
Inductive op : Type :=
| Rx (data : Z)
| Getc.

Fixpoint run_usb (ops : list op) : M (list Z) :=
  match ops with
  | [] => ret []
  | Rx d :: ops' => ISR_USB_RX d ;;; run_usb ops'
  | Getc :: ops' => fun w =>
      match xio_getc FD_USB w with
      | Ret c w1 =>
          let popped :=
            negb (rx_buf_tail (fd_usb w1) =? rx_buf_tail (fd_usb w)) in
          (out <- run_usb ops' ;; ret (if popped then c :: out else out)) w1
      | Blocked => Blocked
      | Fault => Fault
      | OutOfFuel => OutOfFuel
      end
  end.

(** The same run on the abstract queue; [None] when a blocking read finds
    the queue empty and no interrupt is left to fill it. *)
Fixpoint fifo_run (blocking : bool) (ops : list op) (q : list Z)
  : option (list Z) :=
  match ops with
  | [] => Some []
  | Rx d :: ops' => fifo_run blocking ops' (fifo_push (s8 d) q)
  | Getc :: ops' =>
      match fifo_pop q with
      | Some (c, q') => option_map (cons c) (fifo_run blocking ops' q')
      | None => if blocking then None else fifo_run blocking ops' q
      end
  end.

(** The bytes a run pushes, as the chars the interrupt stores. *)
Fixpoint rx_data (ops : list op) : list Z :=
  match ops with
  | [] => []
  | Rx d :: ops' => s8 d :: rx_data ops'
  | Getc :: ops' => rx_data ops'
  end.

(** A USB device ready for a run: initialised by xio_init() and open(),
    with no interrupt due while the processor sleeps. *)
Record usb_ready (w : world) : Prop := {
  usb_ring : ring_ok (fd_usb w);
  usb_bound : usart (fd_usb w) <> None;
  usb_ptr : fd_ptrs w !! 1%nat = Some (Some ref_usb);
  usb_quiet : pending w = []
}.

(** A run of the program on any descriptor.  open(DEV_USB) is the one
    open the program has, and it enables the receive interrupt of the
    USB USART only, so the interrupts of a run are those; the foreground
    calls are xio_getc() on whatever descriptor the caller names.  The
    result lists, with their descriptor, the bytes the calls took out of
    a ring; a call took one when it moved the tail of either ring. *)
Inductive call : Type :=
| Receive (data : Z)
| Pop (fdn : Z).

Fixpoint run_calls (cs : list call) : M (list (Z * Z)) :=
  match cs with
  | [] => ret []
  | Receive d :: cs' => ISR_USB_RX d ;;; run_calls cs'
  | Pop fdn :: cs' => fun w =>
      match xio_getc fdn w with
      | Ret c w1 =>
          let popped :=
            negb (rx_buf_tail (fd_usb w1) =? rx_buf_tail (fd_usb w))
            || negb (rx_buf_tail (fd_rs485 w1) =? rx_buf_tail (fd_rs485 w)) in
          (out <- run_calls cs' ;;
           ret (if popped then (fdn, c) :: out else out)) w1
      | Blocked => Blocked
      | Fault => Fault
      | OutOfFuel => OutOfFuel
      end
  end.

(** The part of a run that reaches the USB ring. *)
Fixpoint usb_ops (cs : list call) : list op :=
  match cs with
  | [] => []
  | Receive d :: cs' => Rx d :: usb_ops cs'
  | Pop fdn :: cs' => if fdn =? FD_USB then Getc :: usb_ops cs' else usb_ops cs'
  end.

End RingSpec.

(** ** Concrete runs *)

(** A configuration for concrete runs: the 32-byte ring of the spec (and
    of RX_BUFSIZE in the b009 header), a read limit of 31, -1 for NO_LIMIT
    and for ERR_EOF, and two free bits of the control word for the size
    commands. *)
Definition cfg32 : xio_config := {|
  USART_RX_BUFSIZE := 32;
  READ_BUFFER_SIZE := 32;
  NO_LIMIT := -1;
  IO_RD_SIZE_MAX := Z.shiftl 1 16;
  IO_WR_SIZE_MAX := Z.shiftl 1 17;
  ERR_EOF := -1
|}.

(** The statics after reset: all zero, all pointers NULL. *)
Definition zero_fd (cfg : xio_config) : fdUSART :=
  mk_fdUSART 0 0 0 0 0 0 0 (replicate (Z.to_nat USART_RX_BUFSIZE) 0) 0 0
             None None.

Definition reset_world (cfg : xio_config) (irqs : list irq) : world :=
  mk_world ENOERR [None; None; None] (zero_fd cfg) (zero_fd cfg)
           (mk_USART 0 0 0 0 []) (mk_USART 0 0 0 0 []) (mk_PORT 0 0)
           O irqs.

(** The world an outcome ends in; the given world when the call did not
    return. *)
Definition world_of {A} (o : outcome A) (w0 : world) : world :=
  match o with Ret _ w => w | _ => w0 end.

(** What a call returned, if it returned. *)
Definition result_of {A} (o : outcome A) : option A :=
  match o with Ret a _ => Some a | _ => None end.

(** xio_init(); open(DEV_USB, control) *)
Definition usb_opened (cfg : xio_config) (control : Z) : world :=
  let w := reset_world cfg [] in
  world_of ((xio_init ;;; xio_open DEV_USB control) w) w.


(** The device flags _open_USART() computes from a control word, as one
    expression. *)
Definition open_flags (control : Z) : Z :=
  let fl := IO_FLAG_DEFAULT_gm in
  let fl := if c_true (Z.land control IO_RDONLY)
            then Z.land fl (Z.lnot IO_FLAG_WR_bm)
            else if c_true control && c_true IO_RDONLY
                 then Z.land fl (Z.lnot IO_FLAG_RD_bm)
                 else fl in
  let fl := if c_true (Z.land control IO_NOECHO)
            then Z.land fl (Z.lnot IO_FLAG_ECHO_CHAR_bm) else fl in
  if c_true (Z.land control IO_RDNONBLOCK)
  then Z.land fl (Z.lnot IO_FLAG_RD_BLOCK_bm) else fl.

(** A computation that, when it returns, has left the part [proj] of the
    world as it was. *)
Definition keeps {A X} (proj : world -> X) (m : M A) : Prop :=
  forall w a w', m w = Ret a w' -> proj w' = proj w.

(** A part of the world that no register write touches. *)
Definition hw_blind {X} (proj : world -> X) : Prop :=
  (forall u r w, proj (put_usart u r w) = proj w) /\
  (forall r w, proj (set_portc r w) = proj w).

Definition usb_flags (w : world) : Z := flags (fd_usb w).

(** The world after the USB receive interrupt has run for each of
    [bytes]. *)
Definition usb_received (cfg : xio_config) (bytes : list Z) (w : world)
  : world :=
  world_of (run_usb (map Rx bytes) w) w.

(** An opened USB device whose ring has taken thirty bytes: head 2,
    tail 1. *)
Definition full_usb_world : world :=
  usb_received cfg32 (seqZ 1 30) (usb_opened cfg32 0).

(** ** Vocabulary for the foreground reader *)

(** An opened USB device: its ring is valid and its struct is bound to
    USARTC0, where the echo goes. *)
Record usb_open {cfg : xio_config} (w : world) : Prop := {
  open_ring : ring_ok (fd_usb w);
  open_usart : usart (fd_usb w) = Some USARTC0
}.

(** [w'] is [w] after the foreground has taken the bytes [k], oldest
    first, out of the USB ring: the ring has lost them, head and buffer are
    where they were, each byte has gone out on USARTC0 when the echo flag
    is set, and the rest of the world is untouched. *)
Record usb_took {cfg : xio_config} (k : list Z) (w w' : world) : Prop := {
  took_contents : contents (fd_usb w) = k ++ contents (fd_usb w');
  took_open : usb_open w';
  took_head : rx_buf_head (fd_usb w') = rx_buf_head (fd_usb w);
  took_buf : rx_buf (fd_usb w') = rx_buf (fd_usb w);
  took_flags : flags (fd_usb w') = flags (fd_usb w);
  took_rx_max : rx_size_max (fd_usb w') = rx_size_max (fd_usb w);
  took_tx_max : tx_size_max (fd_usb w') = tx_size_max (fd_usb w);
  took_errno : errno w' = errno w;
  took_sleeps : sleeps w' = sleeps w;
  took_pending : pending w' = pending w;
  took_rs485 : fd_rs485 w' = fd_rs485 w;
  took_ptrs : fd_ptrs w' = fd_ptrs w;
  took_echo :
    DATA_tx (usartc0 w') =
    DATA_tx (usartc0 w) ++
    (if ECHO_ENABLED (flags (fd_usb w)) then map u8 k else [])
}.

(** A char the read loops pass on: not the -1 they take for an error. *)
Definition plain (c : Z) : Prop := c <> -1.

(** A char inside a line: neither -1, nor NUL, nor a delimiter. *)
Definition in_line (c : Z) : Prop :=
  c <> -1 /\ c <> NUL /\ is_delimiter c = false.

(** A char inside a string: neither -1 nor NUL. *)
Definition in_string (c : Z) : Prop := c <> -1 /\ c <> NUL.


(** [w'] is [w] after the bytes of the chars [k] have been put, in this
    order, into the transmit data register of USARTC0, with nothing else
    changed. *)
Record usb_sent (k : list Z) (w w' : world) : Prop := {
  sent_tx : DATA_tx (usartc0 w') = DATA_tx (usartc0 w) ++ map u8 k;
  sent_fd_usb : fd_usb w' = fd_usb w;
  sent_fd_rs485 : fd_rs485 w' = fd_rs485 w;
  sent_ptrs : fd_ptrs w' = fd_ptrs w;
  sent_errno : errno w' = errno w;
  sent_sleeps : sleeps w' = sleeps w;
  sent_pending : pending w' = pending w
}.

(** The device flags _control_USART() leaves, as one expression of the
    control word and the flags it found. *)
Definition control_flags (control fl : Z) : Z :=
  let fl := if c_true (Z.land control IO_ECHO)
            then Z.lor fl IO_FLAG_ECHO_CHAR_bm else fl in
  let fl := if c_true (Z.land control IO_NOECHO)
            then Z.land fl (Z.lnot IO_FLAG_ECHO_CHAR_bm) else fl in
  let fl := if c_true (Z.land control IO_RDBLOCK)
            then Z.lor fl IO_FLAG_RD_BLOCK_bm else fl in
  let fl := if c_true (Z.land control IO_RDNONBLOCK)
            then Z.land fl (Z.lnot IO_FLAG_RD_BLOCK_bm) else fl in
  let fl := if c_true (Z.land control IO_WRBLOCK)
            then Z.lor fl IO_FLAG_WR_BLOCK_bm else fl in
  if c_true (Z.land control IO_WRNONBLOCK)
  then Z.land fl (Z.lnot IO_FLAG_WR_BLOCK_bm) else fl.

(** ** The print functions of xmega_io.c

    printByte() comes from wiring_serial.c, which is not part of the
    tree: a print function is modelled by the values it hands to
    printByte(), in order, appended to what was printed before.
    [unsigned long] is 32 bits wide on the AVR, so the digit buffer has
    8 * sizeof(long) = 32 entries; it is a local array without an
    initialiser, so its first contents [buf] are arbitrary.
    printFloat() is left out: it needs modf() and round(). *)

Inductive result (A : Type) : Type :=
| Done (a : A)     (* the function returns *)
| Undefined        (* undefined behaviour *)
| Unfinished.      (* the loop bound of the model was too small *)

Arguments Done {A} a.
Arguments Undefined {A}.
Arguments Unfinished {A}.

Definition u32 (x : Z) : Z := x mod 2 ^ 32.

(** "while (n > 0) { buf[i++] = n % base; n /= base; }" *)
Fixpoint digit_loop (fuel : nat) (n base : Z) (buf : list Z) (i : Z)
  : result (list Z * Z) :=
  match fuel with
  | O => Unfinished
  | S fuel =>
      if n >? 0 then
        if base =? 0 then Undefined
        else match array_set buf i (u8 (n mod base)) with
             | None => Undefined
             | Some buf' => digit_loop fuel (n / base) base buf' (u32 (i + 1))
             end
      else Done (buf, i)
  end.

(** "buf[i - 1] < 10 ? '0' + buf[i - 1] : 'A' + buf[i - 1] - 10" *)
Definition digit_char (d : Z) : Z := if d <? 10 then 48 + d else 65 + d - 10.

(** "for (; i > 0; i--) printByte(...)" *)
Fixpoint print_loop (fuel : nat) (buf : list Z) (i : Z) (out : list Z)
  : result (list Z) :=
  match fuel with
  | O => Unfinished
  | S fuel =>
      if i >? 0 then
        match array_get buf (i - 1) with
        | None => Undefined
        | Some d => print_loop fuel buf (i - 1) (out ++ [digit_char d])
        end
      else Done out
  end.

(** printIntegerInBase() *)
Definition printIntegerInBase (fuel : nat) (buf : list Z) (n base : Z)
           (out : list Z) : result (list Z) :=
  if n =? 0 then Done (out ++ [48])
  else match digit_loop fuel n base buf 0 with
       | Done (buf', i) => print_loop fuel buf' i out
       | Undefined => Undefined
       | Unfinished => Unfinished
       end.

(** printInteger(): "n = -n" overflows for the least long. *)
Definition printInteger (fuel : nat) (buf : list Z) (n : Z) (out : list Z)
  : result (list Z) :=
  if n <? 0
  then if n =? - 2 ^ 31 then Undefined
       else printIntegerInBase fuel buf (u32 (- n)) 10 (out ++ [45])
  else printIntegerInBase fuel buf (u32 n) 10 out.

(** printHex() *)
Definition printHex (fuel : nat) (buf : list Z) (n : Z) (out : list Z)
  : result (list Z) :=
  printIntegerInBase fuel buf n 16 out.

(** Reading a printed number back: the value of a digit char, and of a
    string of them in a base, most significant digit first. *)
Definition digit_value (c : Z) : Z := if c <? 65 then c - 48 else c - 65 + 10.

Definition number (base : Z) (cs : list Z) : Z :=
  fold_left (fun a c => a * base + digit_value c) cs 0.

Definition is_digit_char (c : Z) : Prop := 48 <= c <= 57 \/ 65 <= c <= 90.

(** The value of a list of digits, least significant first, as the digit
    loop stores them. *)
Definition lsf (base : Z) (ds : list Z) : Z :=
  fold_right (fun d a => d + base * a) 0 ds.

(** ** config_parse() and config_test() of config.c

    The normalised line is built in the file-level array configline[40]
    at the file-level index j; config_parse() resets neither.  The
    file-level char c is scratch: config_parse() leaves it 0.  An int has
    16 bits. *)

Record globals : Type := mk_globals { configline : list Z; j : Z }.

(** "configline[j++] = c" *)
Definition store (c : Z) (g : globals) : option globals :=
  match array_set (configline g) (j g) c with
  | Some line => Some (mk_globals line (s16 (j g + 1)))
  | None => None
  end.

(** The body of the loop of config_parse(): '=' and '-' are saved, lower
    case is converted to upper and saved, upper case and digits are
    saved, every other char is dropped. *)
Definition save_char (c : Z) (g : globals) : option globals :=
  if (c =? 61) || (c =? 45) || (c =? 45) then store c g
  else if (97 <=? c) && (c <=? 122) then store (c - 97 + 65) g
  else if (65 <=? c) && (c <=? 90) then store c g
  else if (48 <=? c) && (c <=? 57) then store c g
  else Some g.

(** "while ((c = textline[i++]) != 0) { ... }" *)
Fixpoint config_parse_loop (fuel : nat) (textline : list Z) (i : Z)
         (g : globals) : result globals :=
  match fuel with
  | O => Unfinished
  | S fuel =>
      match array_get textline i with
      | None => Undefined
      | Some c =>
          if c =? 0 then Done g
          else match save_char c g with
               | None => Undefined
               | Some g' => config_parse_loop fuel textline (s16 (i + 1)) g'
               end
      end
  end.

(** config_parse() *)
Definition config_parse (fuel : nat) (textline : list Z) (g : globals)
  : result globals :=
  config_parse_loop fuel textline 0 g.

(** configs_P[]: the four lines
    x_seek_steps_sec = 2000 , y_..., z_... and a_seek_steps_sec = 2000,
    the first three ended by a blank and '\r', and the closing NUL. *)
Definition configs_P : list Z :=
  [120; 95; 115; 101; 101; 107; 95; 115; 116; 101; 112; 115; 95; 115; 101; 99; 32; 61; 32; 50; 48; 48; 48; 32; 13;
   121; 95; 115; 101; 101; 107; 95; 115; 116; 101; 112; 115; 95; 115; 101; 99; 32; 61; 32; 50; 48; 48; 48; 32; 13;
   122; 95; 115; 101; 101; 107; 95; 115; 116; 101; 112; 115; 95; 115; 101; 99; 32; 61; 32; 50; 48; 48; 48; 32; 13;
   97; 95; 115; 101; 101; 107; 95; 115; 116; 101; 112; 115; 95; 115; 101; 99; 32; 61; 32; 50; 48; 48; 48; 0].

(** config_test(): its own textline[40], i, j and c are locals; a line
    goes to config_parse() when its '\r', '\n' or ';' is met. *)
Fixpoint config_test_loop (fuel : nat) (i : Z) (textline : list Z) (tj : Z)
         (g : globals) : result globals :=
  match fuel with
  | O => Unfinished
  | S fuel =>
      match array_get configs_P i with
      | None => Undefined
      | Some c =>
          if c =? 0 then Done g
          else if (c =? 13) || (c =? 10) || (c =? 59) then
            match array_set textline tj 0 with
            | None => Undefined
            | Some textline' =>
                match config_parse fuel textline' g with
                | Done g' => config_test_loop fuel (s16 (i + 1)) textline' 0 g'
                | Undefined => Undefined
                | Unfinished => Unfinished
                end
            end
          else if c <=? 32 then
            config_test_loop fuel (s16 (i + 1)) textline tj g
          else
            match array_set textline tj c with
            | None => Undefined
            | Some textline' =>
                config_test_loop fuel (s16 (i + 1)) textline' (s16 (tj + 1)) g
            end
      end
  end.

Definition config_test (fuel : nat) (textline : list Z) (g : globals)
  : result globals :=
  config_test_loop fuel 0 textline 0 g.

(** The list view of the parser: what becomes of one char, and of a
    text. *)
Definition kept (c : Z) : option Z :=
  if (c =? 61) || (c =? 45) then Some c
  else if (97 <=? c) && (c <=? 122) then Some (c - 32)
  else if ((65 <=? c) && (c <=? 90)) || ((48 <=? c) && (c <=? 57))
       then Some c
       else None.

Definition normalised (t : list Z) : list Z := omap kept t.

Definition in_alphabet (c : Z) : Prop :=
  c = 61 \/ c = 45 \/ 65 <= c <= 90 \/ 48 <= c <= 57.

(** The globals after the chars [cs] have been stored from index j on. *)
Definition stored (cs : list Z) (g : globals) : globals :=
  mk_globals (take (Z.to_nat (j g)) (configline g) ++ cs ++
              drop (Z.to_nat (j g) + length cs) (configline g))
             (j g + Z.of_nat (length cs)).

(** * Properties *)

Section Basics.
Context {cfg : xio_config}.

Lemma u8_small (x : Z) : 0 <= x < 256 -> u8 x = x.
Proof. intros H. unfold u8. now apply Z.mod_small. Qed.

Lemma deref_assign (p : fd_ref) (f : fdUSART) (w : world) :
  deref p (assign p f w) = f.
Proof. now destruct p. Qed.

Lemma assign_deref (p : fd_ref) (w : world) : assign p (deref p w) w = w.
Proof. now destruct p, w. Qed.

Lemma set_rx_buf_head_same (f : fdUSART) :
  set_rx_buf_head (rx_buf_head f) f = f.
Proof. now destruct f. Qed.

Lemma advance_range (x : Z) :
  2 <= USART_RX_BUFSIZE -> index_ok x -> index_ok (advance x).
Proof.
  unfold index_ok, advance. intros HC Hx.
  destruct (Z.eqb_spec (x - 1) 0); lia.
Qed.

Lemma advance_inj (x y : Z) :
  index_ok x -> index_ok y -> advance x = advance y -> x = y.
Proof.
  unfold index_ok, advance. intros Hx Hy.
  destruct (Z.eqb_spec (x - 1) 0), (Z.eqb_spec (y - 1) 0); lia.
Qed.

(** The decrement-and-wrap of the code is [advance] on a valid index. *)
Lemma dec_wrap_advance (x : Z) :
  cfg_ok cfg -> index_ok x ->
  (if u8 (x - 1) =? 0 then u8 (USART_RX_BUFSIZE - 1) else u8 (x - 1))
  = advance x.
Proof.
  intros [Hlo Hhi _] Hx. unfold index_ok in Hx. unfold advance.
  rewrite (u8_small (x - 1)) by lia.
  rewrite (u8_small (USART_RX_BUFSIZE - 1)) by lia.
  reflexivity.
Qed.

End Basics.

Section Close.

(** C10. close returns 0 for every handle, in every state; it never
    returns -1 and leaves the error state, like everything else,
    untouched. *)
Theorem xio_close_always_succeeds (fdn : Z) (w : world) :
  xio_close fdn w = Ret 0 w /\
  (forall (r : Z) (w' : world),
      xio_close fdn w = Ret r w' -> r = 0 /\ r <> -1 /\ errno w' = errno w).
Proof.
  split; [reflexivity|].
  intros r w' H. unfold xio_close, ret in H. inversion H; subst.
  repeat split. lia.
Qed.

End Close.

Section ReceiveInterrupt.
Context {cfg : xio_config}.

(** What a receive interrupt does to a valid ring whose USART is bound:
    nothing when the ring is full, else the head advances and the byte is
    stored in the new head slot. *)
Lemma rx_isr_step (p : fd_ref) (data : Z) (w : world) :
  cfg_ok cfg ->
  index_ok (rx_buf_head (deref p w)) ->
  rx_isr p data w =
    let f := deref p w in
    let h := advance (rx_buf_head f) in
    if h =? rx_buf_tail f then Ret tt w
    else match usart f with
         | None => Fault
         | Some _ =>
             match array_set (rx_buf f) h (s8 data) with
             | None => Fault
             | Some b =>
                 Ret tt (assign p (set_rx_buf b (set_rx_buf_head h f)) w)
             end
         end.
Proof.
  intros Hcfg Hh. unfold rx_isr. cbv zeta.
  rewrite (dec_wrap_advance _ Hcfg Hh).
  destruct (Z.eqb_spec (advance (rx_buf_head (deref p w)))
                       (rx_buf_tail (deref p w))) as [Hfull|Hne]; cbn [negb].
  - (* full: the head is put back *)
    assert (Hrestore :
      (if u8 (advance (rx_buf_head (deref p w)) + 1) >? USART_RX_BUFSIZE - 1
       then 1 else u8 (advance (rx_buf_head (deref p w)) + 1))
      = rx_buf_head (deref p w)).
    { destruct Hcfg as [Hlo Hhi _]. unfold index_ok in Hh. unfold advance.
      destruct (Z.eqb_spec (rx_buf_head (deref p w) - 1) 0).
      - rewrite u8_small by lia.
        destruct (Z.gtb_spec (USART_RX_BUFSIZE - 1 + 1) (USART_RX_BUFSIZE - 1));
          lia.
      - rewrite u8_small by lia.
        destruct (Z.gtb_spec (rx_buf_head (deref p w) - 1 + 1)
                             (USART_RX_BUFSIZE - 1)); lia. }
    rewrite Hrestore, set_rx_buf_head_same, assign_deref. reflexivity.
  - reflexivity.
Qed.

(** C3. A receive interrupt that finds the ring full (one more step of
    the head would reach the tail) drops the byte: the interrupt returns
    and the world, with every stored byte, the head and the tail, is the
    one before it.  This holds for the USB and for the RS-485 interrupt. *)
Theorem push_on_full_changes_nothing (p : fd_ref) (data : Z) (w : world) :
  cfg_ok cfg ->
  index_ok (rx_buf_head (deref p w)) ->
  ring_full (deref p w) ->
  match p with
  | ref_usb => ISR_USB_RX data w
  | ref_rs485 => ISR_USARTC1_RXC data w
  end = Ret tt w.
Proof.
  intros Hcfg Hh Hfull.
  assert (Hisr : match p with
                 | ref_usb => ISR_USB_RX data w
                 | ref_rs485 => ISR_USARTC1_RXC data w
                 end = rx_isr p data w) by (destruct p; reflexivity).
  rewrite Hisr. clear Hisr.
  rewrite rx_isr_step by assumption. cbv zeta.
  unfold ring_full in Hfull. rewrite Hfull, Z.eqb_refl. reflexivity.
Qed.

End ReceiveInterrupt.

Section RingRefinement.
Context {cfg : xio_config}.

Lemma gap_range (h t : Z) :
  index_ok h -> index_ok t -> 0 <= gap h t <= USART_RX_BUFSIZE - 2.
Proof.
  unfold index_ok, gap. intros Hh Ht.
  destruct (Z.leb_spec h t); lia.
Qed.

Lemma gap_zero (h t : Z) :
  index_ok h -> index_ok t -> (gap h t = 0 <-> h = t).
Proof.
  unfold index_ok, gap. intros Hh Ht.
  destruct (Z.leb_spec h t); lia.
Qed.

(** A pop shortens the gap by one. *)
Lemma gap_advance_tail (h t : Z) :
  index_ok h -> index_ok t -> h <> t ->
  gap h (advance t) = gap h t - 1.
Proof.
  unfold index_ok, gap, advance. intros Hh Ht Hne.
  destruct (Z.eqb_spec (t - 1) 0);
    destruct (Z.leb_spec h t);
    match goal with |- context [?a <=? ?b] => destruct (Z.leb_spec a b) end;
    lia.
Qed.

(** A push that is not refused lengthens it by one. *)
Lemma gap_advance_head (h t : Z) :
  index_ok h -> index_ok t -> advance h <> t ->
  gap (advance h) t = gap h t + 1.
Proof.
  unfold index_ok, gap, advance. intros Hh Ht.
  destruct (Z.eqb_spec (h - 1) 0); intros Hne;
    destruct (Z.leb_spec h t);
    match goal with |- context [?a <=? ?b] => destruct (Z.leb_spec a b) end;
    lia.
Qed.

(** Full is a gap of USART_RX_BUFSIZE-2. *)
Lemma gap_full (h t : Z) :
  index_ok h -> index_ok t ->
  (advance h = t <-> gap h t = USART_RX_BUFSIZE - 2).
Proof.
  unfold index_ok, gap, advance. intros Hh Ht.
  destruct (Z.eqb_spec (h - 1) 0); destruct (Z.leb_spec h t); lia.
Qed.

Lemma ring_slots_length (n : nat) (t : Z) (b : list Z) :
  length (ring_slots n t b) = n.
Proof.
  revert t. induction n as [|n IH]; intros t; simpl; [reflexivity|].
  now rewrite IH.
Qed.

Lemma contents_length (f : fdUSART) :
  ring_ok f -> Z.of_nat (length (contents f)) = occupancy f.
Proof.
  intros [Hh Ht _]. unfold contents. rewrite ring_slots_length.
  unfold occupancy. pose proof (gap_range _ _ Hh Ht). lia.
Qed.

Lemma array_get_insert_eq (b : list Z) (i v : Z) :
  0 <= i < Z.of_nat (length b) ->
  array_get (<[Z.to_nat i := v]> b) i = Some v.
Proof.
  intros Hi. unfold array_get.
  destruct (Z.ltb_spec i 0); [lia|].
  apply list_lookup_insert_eq. lia.
Qed.

Lemma array_get_insert_ne (b : list Z) (i j v : Z) :
  0 <= i -> 0 <= j -> i <> j ->
  array_get (<[Z.to_nat i := v]> b) j = array_get b j.
Proof.
  intros Hi Hj Hne. unfold array_get.
  destruct (Z.ltb_spec j 0); [reflexivity|].
  apply list_lookup_insert_ne. lia.
Qed.

Lemma array_get_in_range (b : list Z) (i : Z) :
  0 <= i < Z.of_nat (length b) -> exists c, array_get b i = Some c.
Proof.
  intros Hi. unfold array_get.
  destruct (Z.ltb_spec i 0); [lia|].
  destruct (lookup_lt_is_Some_2 b (Z.to_nat i)) as [c Hc]; [lia|].
  exists c. exact Hc.
Qed.

Lemma array_set_in_range (b : list Z) (i v : Z) :
  0 <= i < Z.of_nat (length b) ->
  array_set b i v = Some (<[Z.to_nat i := v]> b).
Proof.
  intros Hi. unfold array_set.
  destruct (Z.leb_spec 0 i); [|lia].
  destruct (Z.ltb_spec i (Z.of_nat (length b))); [|lia].
  reflexivity.
Qed.

(** Storing a byte in the slot after the head appends it to the slots
    between tail and head and changes none of them. *)
Lemma ring_slots_push (h v : Z) (b : list Z) :
  2 <= USART_RX_BUFSIZE ->
  Z.of_nat (length b) = USART_RX_BUFSIZE ->
  index_ok h ->
  forall (n : nat) (t : Z),
    index_ok t -> gap h t = Z.of_nat n ->
    ring_slots (S n) t (<[Z.to_nat (advance h) := v]> b)
    = ring_slots n t b ++ [v].
Proof.
  intros HC Hlen Hh. induction n as [|n IH]; intros t Ht Hgap.
  - change (Z.of_nat 0) with 0 in Hgap.
    apply (proj1 (gap_zero h t Hh Ht)) in Hgap. subst t. simpl.
    pose proof (advance_range h HC Hh) as Ha. unfold index_ok in Ha.
    rewrite array_get_insert_eq by lia. reflexivity.
  - assert (Hne : h <> t).
    { intros ->. assert (gap t t = 0) by (apply gap_zero; auto). lia. }
    pose proof (advance_range h HC Hh) as Ha.
    pose proof (advance_range t HC Ht) as Hb.
    change (ring_slots (S (S n)) t (<[Z.to_nat (advance h) := v]> b))
      with (default 0 (array_get (<[Z.to_nat (advance h) := v]> b) (advance t))
            :: ring_slots (S n) (advance t) (<[Z.to_nat (advance h) := v]> b)).
    rewrite IH; [|assumption|rewrite gap_advance_tail by assumption; lia].
    rewrite array_get_insert_ne.
    + reflexivity.
    + unfold index_ok in Ha; lia.
    + unfold index_ok in Hb; lia.
    + intros Heq. apply Hne. now apply advance_inj.
Qed.

Lemma pushed_ring_ok (c : Z) (f : fdUSART) :
  2 <= USART_RX_BUFSIZE -> ring_ok f -> ring_ok (pushed c f).
Proof.
  intros HC [Hh Ht Hlen]. unfold pushed. cbv zeta.
  destruct (Z.eqb_spec (advance (rx_buf_head f)) (rx_buf_tail f)).
  - now split.
  - split; simpl.
    + now apply advance_range.
    + assumption.
    + now rewrite length_insert.
Qed.

(** A receive interrupt is a push of the abstract queue. *)
Lemma pushed_contents (c : Z) (f : fdUSART) :
  2 <= USART_RX_BUFSIZE -> ring_ok f ->
  contents (pushed c f) = fifo_push c (contents f).
Proof.
  intros HC Hok. pose proof Hok as [Hh Ht Hlen].
  unfold fifo_push. rewrite contents_length by assumption.
  unfold pushed, occupancy. cbv zeta.
  pose proof (gap_range _ _ Hh Ht) as Hr.
  pose proof (gap_full _ _ Hh Ht) as Hf.
  destruct (Z.eqb_spec (advance (rx_buf_head f)) (rx_buf_tail f)) as [He|Hne].
  - destruct (Z.ltb_spec (gap (rx_buf_head f) (rx_buf_tail f))
                         (USART_RX_BUFSIZE - 2)); [|reflexivity].
    apply Hf in He. lia.
  - destruct (Z.ltb_spec (gap (rx_buf_head f) (rx_buf_tail f))
                         (USART_RX_BUFSIZE - 2)) as [_|Hge].
    + unfold contents, occupancy. simpl.
      rewrite gap_advance_head by assumption.
      replace (Z.to_nat (gap (rx_buf_head f) (rx_buf_tail f) + 1))
        with (S (Z.to_nat (gap (rx_buf_head f) (rx_buf_tail f)))) by lia.
      apply ring_slots_push; auto. lia.
    + exfalso. apply Hne, Hf. lia.
Qed.

Lemma popped_ring_ok (f : fdUSART) :
  2 <= USART_RX_BUFSIZE -> ring_ok f -> ring_ok (popped f).
Proof.
  intros HC [Hh Ht Hlen]. split; simpl; auto using advance_range.
Qed.

(** A pop from a ring that is not empty takes the oldest byte. *)
Lemma popped_contents (f : fdUSART) :
  ring_ok f -> rx_buf_head f <> rx_buf_tail f ->
  contents f =
    default 0 (array_get (rx_buf f) (advance (rx_buf_tail f)))
    :: contents (popped f).
Proof.
  intros [Hh Ht Hlen] Hne. unfold contents, popped, occupancy. simpl.
  rewrite gap_advance_tail by assumption.
  pose proof (gap_range _ _ Hh Ht) as Hr.
  assert (gap (rx_buf_head f) (rx_buf_tail f) <> 0).
  { intros H0. apply Hne. now apply (gap_zero _ _ Hh Ht). }
  replace (Z.to_nat (gap (rx_buf_head f) (rx_buf_tail f)))
    with (S (Z.to_nat (gap (rx_buf_head f) (rx_buf_tail f) - 1))) by lia.
  reflexivity.
Qed.

Lemma empty_contents (f : fdUSART) :
  ring_ok f -> (rx_buf_head f = rx_buf_tail f <-> contents f = []).
Proof.
  intros Hok. pose proof Hok as [Hh Ht _].
  pose proof (contents_length f Hok) as Hl. unfold occupancy in Hl.
  pose proof (gap_zero _ _ Hh Ht) as Hz.
  split.
  - intros He. apply Hz in He. rewrite He in Hl.
    destruct (contents f); [reflexivity|simpl in Hl; lia].
  - intros Hc. rewrite Hc in Hl. simpl in Hl. apply Hz. lia.
Qed.

End RingRefinement.

Section UsbDevice.
Context {cfg : xio_config}.

Lemma rx_isr_pushed (p : fd_ref) (data : Z) (w : world) :
  cfg_ok cfg -> ring_ok (deref p w) -> usart (deref p w) <> None ->
  rx_isr p data w = Ret tt (assign p (pushed (s8 data) (deref p w)) w).
Proof.
  intros Hcfg Hok Hu. pose proof Hok as [Hh Ht Hlen].
  rewrite rx_isr_step by assumption. unfold pushed. cbv zeta.
  destruct (Z.eqb_spec (advance (rx_buf_head (deref p w)))
                       (rx_buf_tail (deref p w))).
  - now rewrite assign_deref.
  - destruct (usart (deref p w)); [|congruence].
    pose proof (advance_range _ (bufsize_lo _ Hcfg) Hh) as Ha.
    unfold index_ok in Ha.
    rewrite array_set_in_range by lia. reflexivity.
Qed.

Lemma rx_wait_nonempty (p : fd_ref) (irqs : list irq) (w : world) :
  rx_buf_head (deref p w) <> rx_buf_tail (deref p w) ->
  rx_wait p irqs w = Ret true w.
Proof.
  intros Hne. destruct irqs; simpl;
    destruct (Z.eqb_spec (rx_buf_head (deref p w)) (rx_buf_tail (deref p w)));
    congruence.
Qed.

Lemma rx_wait_would_block (p : fd_ref) (irqs : list irq) (w : world) :
  rx_buf_head (deref p w) = rx_buf_tail (deref p w) ->
  BLOCKING_ENABLED (flags (deref p w)) = false ->
  rx_wait p irqs w = Ret false (set_errno EAGAIN w).
Proof.
  intros He Hnb. destruct irqs; simpl; rewrite He, Z.eqb_refl, Hnb; reflexivity.
Qed.

Lemma rx_wait_sleeps_forever (p : fd_ref) (w : world) :
  rx_buf_head (deref p w) = rx_buf_tail (deref p w) ->
  BLOCKING_ENABLED (flags (deref p w)) = true ->
  rx_wait p [] w = Blocked.
Proof.
  intros He Hb. simpl. rewrite He, Z.eqb_refl, Hb. reflexivity.
Qed.

(** The byte a pop of the USB ring returns, and the world it leaves. *)
Lemma rx_take_usb (w : world) :
  cfg_ok cfg -> ring_ok (fd_usb w) ->
  exists c,
    array_get (rx_buf (fd_usb w)) (advance (rx_buf_tail (fd_usb w))) = Some c /\
    rx_take ref_usb w =
      let w1 := set_fd_usb (popped (fd_usb w)) w in
      if ECHO_ENABLED (flags (fd_usb w))
      then (_echo_to_console c ;;; ret c) w1
      else Ret c w1.
Proof.
  intros Hcfg Hok. pose proof Hok as [Hh Ht Hlen].
  pose proof Hcfg as [Hlo Hhi _].
  pose proof (advance_range _ Hlo Ht) as Ha. unfold index_ok in Ha, Ht.
  destruct (array_get_in_range (rx_buf (fd_usb w))
              (advance (rx_buf_tail (fd_usb w)))) as [c Hc]; [lia|].
  exists c. split; [exact Hc|].
  unfold rx_take. cbv zeta. cbn [deref assign].
  rewrite (u8_small (rx_buf_tail (fd_usb w) - 1)) by lia.
  rewrite (u8_small (USART_RX_BUFSIZE - 1)) by lia.
  assert (Hw3 :
    (if rx_buf_tail (fd_usb w) - 1 =? 0
     then set_fd_usb
            (set_rx_buf_tail (USART_RX_BUFSIZE - 1)
               (fd_usb (set_fd_usb
                  (set_rx_buf_tail (rx_buf_tail (fd_usb w) - 1) (fd_usb w)) w)))
            (set_fd_usb
               (set_rx_buf_tail (rx_buf_tail (fd_usb w) - 1) (fd_usb w)) w)
     else set_fd_usb
            (set_rx_buf_tail (rx_buf_tail (fd_usb w) - 1) (fd_usb w)) w)
    = set_fd_usb (popped (fd_usb w)) w).
  { unfold popped, advance.
    destruct (Z.eqb_spec (rx_buf_tail (fd_usb w) - 1) 0); reflexivity. }
  rewrite Hw3. cbn [fd_usb set_fd_usb popped set_rx_buf_tail rx_buf
                    rx_buf_tail flags].
  rewrite Hc. reflexivity.
Qed.

Lemma read_char_usb_pop (w : world) :
  cfg_ok cfg -> ring_ok (fd_usb w) ->
  rx_buf_head (fd_usb w) <> rx_buf_tail (fd_usb w) ->
  exists c,
    array_get (rx_buf (fd_usb w)) (advance (rx_buf_tail (fd_usb w))) = Some c /\
    _read_char_USART ref_usb w =
      let w1 := set_fd_usb (popped (fd_usb w)) w in
      if ECHO_ENABLED (flags (fd_usb w))
      then (_echo_to_console c ;;; ret c) w1
      else Ret c w1.
Proof.
  intros Hcfg Hok Hne. destruct (rx_take_usb w Hcfg Hok) as [c [Hc Ht]].
  exists c. split; [exact Hc|].
  unfold _read_char_USART. rewrite rx_wait_nonempty by exact Hne. exact Ht.
Qed.

Lemma echo_bound (c : Z) (w : world) (u : USART_id) :
  usart (fd_usb w) = Some u ->
  exists w', (_echo_to_console c ;;; ret c) w = Ret c w' /\
             fd_usb w' = fd_usb w /\ fd_rs485 w' = fd_rs485 w /\
             fd_ptrs w' = fd_ptrs w /\ pending w' = pending w /\
             errno w' = errno w /\ sleeps w' = sleeps w.
Proof.
  intros Hu. unfold _echo_to_console, _write_char_USART, bind, ret.
  cbn [deref]. rewrite Hu. eexists. split; [reflexivity|].
  destruct u; repeat split.
Qed.

Lemma advance_moves (h t : Z) :
  index_ok h -> index_ok t -> h <> t -> advance t <> t.
Proof.
  unfold index_ok, advance. intros Hh Ht Hne.
  destruct (Z.eqb_spec (t - 1) 0); lia.
Qed.

Lemma xio_getc_usb (w : world) :
  fd_ptrs w !! 1%nat = Some (Some ref_usb) ->
  xio_getc FD_USB w = _read_char_USART ref_usb w.
Proof.
  intros Hp. unfold xio_getc, FD_USB, bind, fd_ptr. simpl.
  change (Z.to_nat 1) with 1%nat. rewrite Hp. reflexivity.
Qed.

(** The USB ring with xio_getc() is the bounded queue: a run on the
    device returns what the run on the queue returns, and stops for ever
    exactly when the queue run does. *)
Theorem usb_ring_simulates_fifo (ops : list op) (w : world) :
  cfg_ok cfg -> usb_ready w ->
  match fifo_run (BLOCKING_ENABLED (flags (fd_usb w))) ops
                 (contents (fd_usb w)) with
  | Some out => exists w', run_usb ops w = Ret out w' /\ usb_ready w'
  | None => run_usb ops w = Blocked
  end.
Proof.
  intros Hcfg. pose proof (bufsize_lo _ Hcfg) as HC.
  remember (BLOCKING_ENABLED (flags (fd_usb w))) as bl eqn:Hbl.
  revert w Hbl. induction ops as [|o ops IH]; intros w Hbl Hrdy.
  - simpl. exists w. now split.
  - pose proof Hrdy as [Hok Hu Hp Hq]. destruct o as [d|].
    + (* a receive interrupt *)
      simpl. unfold bind, ISR_USB_RX.
      rewrite rx_isr_pushed by assumption. cbn [deref assign].
      rewrite <- pushed_contents by assumption.
      set (w1 := set_fd_usb (pushed (s8 d) (fd_usb w)) w).
      assert (Hf1 : fd_usb w1 = pushed (s8 d) (fd_usb w)) by reflexivity.
      assert (Hfl : flags (fd_usb w1) = flags (fd_usb w)).
      { rewrite Hf1. unfold pushed. cbv zeta.
        now destruct (advance (rx_buf_head (fd_usb w)) =? rx_buf_tail (fd_usb w)). }
      assert (Hrdy1 : usb_ready w1).
      { split.
        - rewrite Hf1. now apply pushed_ring_ok.
        - rewrite Hf1. unfold pushed. cbv zeta.
          now destruct (advance (rx_buf_head (fd_usb w)) =? rx_buf_tail (fd_usb w)).
        - exact Hp.
        - exact Hq. }
      rewrite <- Hf1. apply IH; [congruence|exact Hrdy1].
    + (* a call of xio_getc *)
      cbn [run_usb fifo_run]. rewrite xio_getc_usb by exact Hp.
      destruct (Z.eq_dec (rx_buf_head (fd_usb w)) (rx_buf_tail (fd_usb w)))
        as [He|Hne].
      * (* empty *)
        rewrite (proj1 (empty_contents _ Hok) He). cbn [fifo_pop].
        unfold _read_char_USART. rewrite Hq.
        destruct bl.
        -- rewrite rx_wait_sleeps_forever; auto.
        -- rewrite rx_wait_would_block by auto.
           cbn [fd_usb set_errno]. rewrite Z.eqb_refl. cbn [negb].
           specialize (IH (set_errno EAGAIN w) Hbl).
           rewrite <- (proj1 (empty_contents _ Hok) He).
           change (fd_usb (set_errno EAGAIN w)) with (fd_usb w) in IH.
           assert (Hrdy1 : usb_ready (set_errno EAGAIN w)) by now split.
           specialize (IH Hrdy1). unfold bind, ret.
           destruct (fifo_run false ops (contents (fd_usb w))) as [out|].
           ++ destruct IH as [w' [Hrun Hr']]. rewrite Hrun. now exists w'.
           ++ now rewrite IH.
      * (* a byte is waiting *)
        rewrite (popped_contents _ Hok Hne). cbn [fifo_pop].
        destruct (read_char_usb_pop w Hcfg Hok Hne) as [c [Hc Hrd]].
        rewrite Hc. cbn [default]. rewrite Hrd. cbv zeta.
        set (w1 := set_fd_usb (popped (fd_usb w)) w).
        assert (Hrdy1 : usb_ready w1).
        { split; [now apply popped_ring_ok|exact Hu|exact Hp|exact Hq]. }
        assert (Hstep : exists w2,
          (if ECHO_ENABLED (flags (fd_usb w))
           then (_echo_to_console c ;;; ret c) w1 else Ret c w1) = Ret c w2 /\
          fd_usb w2 = popped (fd_usb w) /\ usb_ready w2).
        { destruct (ECHO_ENABLED (flags (fd_usb w))).
          - destruct (usart (fd_usb w1)) as [u|] eqn:Hu1;
              [|exfalso; now apply Hu].
            destruct (echo_bound c w1 u Hu1)
              as [w2 [Hrun [Hfu [_ [Hfp [Hpe _]]]]]].
            exists w2. split; [exact Hrun|]. split; [now rewrite Hfu|].
            destruct Hrdy1 as [Ho1 Hu1' Hp1 Hq1].
            split; rewrite ?Hfu, ?Hfp, ?Hpe; auto.
          - exists w1. now split. }
        destruct Hstep as [w2 [Hrun [Hf2 Hrdy2]]]. rewrite Hrun.
        assert (Hmoved :
          negb (rx_buf_tail (fd_usb w2) =? rx_buf_tail (fd_usb w)) = true).
        { rewrite Hf2. cbn [popped rx_buf_tail set_rx_buf_tail].
          destruct Hok as [Hh Ht _].
          pose proof (advance_moves _ _ Hh Ht Hne).
          destruct (Z.eqb_spec (advance (rx_buf_tail (fd_usb w)))
                               (rx_buf_tail (fd_usb w))); [contradiction|].
          reflexivity. }
        rewrite Hmoved.
        specialize (IH w2). rewrite Hf2 in IH.
        cbn [popped flags set_rx_buf_tail] in IH.
        specialize (IH Hbl Hrdy2). unfold bind, ret.
        change (set_rx_buf_tail (advance (rx_buf_tail (fd_usb w))) (fd_usb w))
          with (popped (fd_usb w)) in IH.
        destruct (fifo_run bl ops (contents (popped (fd_usb w)))) as [out|];
          cbn [option_map].
        -- destruct IH as [w' [Hrun' Hr']]. rewrite Hrun'. now exists w'.
        -- now rewrite IH.
Qed.

End UsbDevice.

Section FifoOrder.
Context {cfg : xio_config}.

Lemma fifo_push_length (c : Z) (q : list Z) :
  (length (fifo_push c q) <= S (length q))%nat.
Proof.
  unfold fifo_push.
  destruct (Z.of_nat (length q) <? USART_RX_BUFSIZE - 2);
    [rewrite length_app; simpl|]; lia.
Qed.

(** With fewer than USART_RX_BUFSIZE pushes in all, only the last push
    can be refused, so what the queue hands out is a prefix of what was
    pushed.  [n] counts the pushes made before the run. *)
Lemma fifo_run_prefix (bl : bool) (ops : list op) :
  forall (q : list Z) (n : nat) (out : list Z),
    (length q <= n)%nat ->
    Z.of_nat n + Z.of_nat (length (rx_data ops)) < USART_RX_BUFSIZE ->
    fifo_run bl ops q = Some out ->
    out `prefix_of` q ++ rx_data ops.
Proof.
  induction ops as [|[d|] ops IH]; intros q n out Hq Hn Hrun.
  - simpl in Hrun. inversion Hrun. apply prefix_nil.
  - cbn [fifo_run rx_data] in *. cbn [length] in Hn.
    pose proof (fifo_push_length (s8 d) q) as Hlen.
    specialize (IH (fifo_push (s8 d) q) (S n) out).
    assert (Hpre : out `prefix_of` fifo_push (s8 d) q ++ rx_data ops)
      by (apply IH; [lia|lia|exact Hrun]).
    unfold fifo_push in Hpre.
    destruct (Z.ltb_spec (Z.of_nat (length q)) (USART_RX_BUFSIZE - 2)).
    + now rewrite <- app_assoc in Hpre.
    + assert (Hnil : rx_data ops = [])
        by (destruct (rx_data ops); [reflexivity|simpl in Hn; lia]).
      rewrite Hnil, app_nil_r in Hpre.
      etransitivity; [exact Hpre|]. now apply prefix_app_r.
  - cbn [fifo_run rx_data] in *. destruct q as [|c q]; cbn [fifo_pop] in Hrun.
    + destruct bl; [discriminate|]. now apply (IH [] n).
    + destruct (fifo_run bl ops q) as [out'|] eqn:Hrun'; [|discriminate].
      cbn [option_map] in Hrun. inversion Hrun; subst out.
      change ((c :: q) ++ rx_data ops) with (c :: (q ++ rx_data ops)).
      apply prefix_cons. apply (IH q n); [simpl in Hq; lia|lia|exact Hrun'].
Qed.

Lemma fifo_run_nonblocking (ops : list op) :
  forall q : list Z, exists out, fifo_run false ops q = Some out.
Proof.
  induction ops as [|[d|] ops IH]; intros q; cbn [fifo_run].
  - now exists [].
  - apply IH.
  - destruct q as [|c q]; cbn [fifo_pop]; [apply IH|].
    destruct (IH q) as [out Hout]. rewrite Hout. now eexists.
Qed.

(** FIFO order on the USB device.  From an empty ring, a run of fewer
    than USART_RX_BUFSIZE receive interrupts interleaved with xio_getc()
    calls hands out a prefix of the bytes pushed: the bytes in the order
    of their arrival.  A run on a non-blocking device always returns. *)
Theorem usb_fifo_order (ops : list op) (w : world) :
  cfg_ok cfg -> usb_ready w -> ring_empty (fd_usb w) ->
  Z.of_nat (length (rx_data ops)) < USART_RX_BUFSIZE ->
  (forall out w', run_usb ops w = Ret out w' -> out `prefix_of` rx_data ops) /\
  (BLOCKING_ENABLED (flags (fd_usb w)) = false ->
   exists out w', run_usb ops w = Ret out w').
Proof.
  intros Hcfg Hrdy He Hn.
  pose proof (usb_ring_simulates_fifo ops w Hcfg Hrdy) as Hsim.
  pose proof (proj1 (empty_contents _ (usb_ring _ Hrdy)) He) as Hc.
  rewrite Hc in Hsim. split.
  - intros out w' Hrun.
    destruct (fifo_run (BLOCKING_ENABLED (flags (fd_usb w))) ops [])
      as [out0|] eqn:Hf.
    + destruct Hsim as [w0 [Hrun0 _]]. rewrite Hrun0 in Hrun.
      inversion Hrun; subst.
      eapply (fifo_run_prefix _ ops [] 0%nat out); [simpl; lia|simpl; lia|exact Hf].
    + rewrite Hsim in Hrun. discriminate.
  - intros Hnb. rewrite Hnb in Hsim.
    destruct (fifo_run_nonblocking ops []) as [out Hout].
    rewrite Hout in Hsim. destruct Hsim as [w' [Hrun _]]. now exists out, w'.
Qed.

End FifoOrder.

Section IndexInvariant.
Context {cfg : xio_config}.

(** A receive interrupt keeps the indices of its ring in range and does
    not touch the other ring. *)
Lemma rx_isr_keeps_ring (p : fd_ref) (data : Z) (w w' : world) :
  cfg_ok cfg -> ring_ok (deref p w) ->
  rx_isr p data w = Ret tt w' ->
  ring_ok (deref p w') /\
  (forall q, q <> p -> deref q w' = deref q w) /\
  pending w' = pending w.
Proof.
  intros Hcfg Hok Hrun.
  assert (Hw' : w' = assign p (pushed (s8 data) (deref p w)) w).
  { destruct (usart (deref p w)) eqn:Hu.
    - rewrite rx_isr_pushed in Hrun by (auto; congruence). congruence.
    - rewrite rx_isr_step in Hrun by (auto; apply Hok). cbv zeta in Hrun.
      unfold pushed. cbv zeta.
      destruct (advance (rx_buf_head (deref p w)) =? rx_buf_tail (deref p w)).
      + rewrite assign_deref. congruence.
      + rewrite Hu in Hrun. discriminate. }
  subst w'. rewrite deref_assign. split; [|split].
  - apply pushed_ring_ok; [apply Hcfg|exact Hok].
  - intros q Hq. destruct p, q; try congruence; reflexivity.
  - now destruct p.
Qed.

Lemma serve_keeps_rings (q : irq) (w w' : world) :
  cfg_ok cfg -> ring_ok (fd_usb w) -> ring_ok (fd_rs485 w) ->
  serve q w = Ret tt w' ->
  ring_ok (fd_usb w') /\ ring_ok (fd_rs485 w') /\ pending w' = pending w.
Proof.
  intros Hcfg Hu Hr Hrun. destruct q as [d|d]; cbn [serve] in Hrun.
  - destruct (rx_isr_keeps_ring ref_usb d w w' Hcfg Hu Hrun) as [H1 [H2 H3]].
    split; [exact H1|]. split; [|exact H3].
    change (fd_rs485 w') with (deref ref_rs485 w').
    rewrite H2 by discriminate. exact Hr.
  - destruct (rx_isr_keeps_ring ref_rs485 d w w' Hcfg Hr Hrun) as [H1 [H2 H3]].
    split; [|split; [exact H1|exact H3]].
    change (fd_usb w') with (deref ref_usb w').
    rewrite H2 by discriminate. exact Hu.
Qed.

(** The wait loop, with whatever interrupts it sleeps through, keeps both
    rings valid; it is left only with a byte waiting. *)
Lemma rx_wait_keeps_rings (p : fd_ref) (irqs : list irq) :
  forall (w w' : world) (b : bool),
    cfg_ok cfg -> ring_ok (fd_usb w) -> ring_ok (fd_rs485 w) ->
    rx_wait p irqs w = Ret b w' ->
    ring_ok (fd_usb w') /\ ring_ok (fd_rs485 w') /\
    (b = true -> rx_buf_head (deref p w') <> rx_buf_tail (deref p w')).
Proof.
  induction irqs as [|q irqs IH]; intros w w' b Hcfg Hu Hr Hrun;
    cbn [rx_wait] in Hrun;
    destruct (Z.eqb_spec (rx_buf_head (deref p w)) (rx_buf_tail (deref p w)))
      as [He|Hne].
  - destruct (BLOCKING_ENABLED (flags (deref p w))); cbn [negb] in Hrun;
      [discriminate|].
    inversion Hrun; subst.
    split; [exact Hu|split; [exact Hr|discriminate]].
  - inversion Hrun; subst. split; [exact Hu|split; [exact Hr|now intros _]].
  - destruct (BLOCKING_ENABLED (flags (deref p w))); cbn [negb] in Hrun.
    + destruct (serve q (set_pending irqs (set_sleeps (S (sleeps w)) w)))
        as [[] w1| | |] eqn:Hs; try discriminate.
      destruct (serve_keeps_rings q
                  (set_pending irqs (set_sleeps (S (sleeps w)) w)) w1
                  Hcfg Hu Hr Hs) as [Hu1 [Hr1 _]].
      now apply (IH w1 w' b).
    + inversion Hrun; subst.
      split; [exact Hu|split; [exact Hr|discriminate]].
  - inversion Hrun; subst. split; [exact Hu|split; [exact Hr|now intros _]].
Qed.

(** A foreground read on the USB device keeps the indices of both rings
    in range. *)
Lemma read_char_usb_keeps_rings (w w' : world) (c : Z) :
  cfg_ok cfg -> ring_ok (fd_usb w) -> ring_ok (fd_rs485 w) ->
  _read_char_USART ref_usb w = Ret c w' ->
  ring_ok (fd_usb w') /\ ring_ok (fd_rs485 w').
Proof.
  intros Hcfg Hu Hr Hrun. unfold _read_char_USART in Hrun.
  destruct (rx_wait ref_usb (pending w) w) as [b w1| | |] eqn:Hw;
    try discriminate.
  destruct (rx_wait_keeps_rings _ _ _ _ _ Hcfg Hu Hr Hw) as [Hu1 [Hr1 _]].
  destruct b; [|inversion Hrun; subst; now split].
  destruct (rx_take_usb w1 Hcfg Hu1) as [c1 [_ Ht]].
  rewrite Ht in Hrun. cbv zeta in Hrun.
  set (w2 := set_fd_usb (popped (fd_usb w1)) w1) in *.
  assert (Hu2 : ring_ok (fd_usb w2)) by (apply popped_ring_ok; [apply Hcfg|exact Hu1]).
  destruct (ECHO_ENABLED (flags (fd_usb w1))).
  - destruct (usart (fd_usb w2)) as [u|] eqn:Hb.
    + destruct (echo_bound c1 w2 u Hb) as [w3 [Hrun3 [Hf [Hg _]]]].
      rewrite Hrun3 in Hrun. inversion Hrun; subst. rewrite Hf, Hg. now split.
    + unfold _echo_to_console, _write_char_USART, bind in Hrun.
      cbn [deref] in Hrun. rewrite Hb in Hrun. discriminate.
  - inversion Hrun; subst. now split.
Qed.

(** The slip in the wrap, which no run of the program reaches (no caller
    passes the RS-485 struct): _read_char_USART() on the RS-485 control
    block with its tail at slot 1 would leave that tail at 0 and move the
    tail of the USB ring instead. *)
Lemma read_char_rs485_wrap (w w' : world) (c : Z) :
  cfg_ok cfg ->
  rx_buf_tail (fd_rs485 w) = 1 -> rx_buf_head (fd_rs485 w) <> 1 ->
  _read_char_USART ref_rs485 w = Ret c w' ->
  rx_buf_tail (fd_rs485 w') = 0 /\
  rx_buf_tail (fd_usb w') = USART_RX_BUFSIZE - 1 /\
  array_get (rx_buf (fd_rs485 w)) 0 = Some c.
Proof.
  intros Hcfg Ht Hh Hrun. unfold _read_char_USART in Hrun.
  rewrite rx_wait_nonempty in Hrun by (cbn [deref]; congruence).
  unfold rx_take in Hrun. cbv zeta in Hrun. cbn [deref assign] in Hrun.
  rewrite Ht in Hrun. change (u8 (1 - 1) =? 0) with true in Hrun.
  change (u8 (1 - 1)) with 0 in Hrun.
  cbn [fd_rs485 fd_usb set_fd_usb set_fd_rs485 rx_buf rx_buf_tail flags
       set_rx_buf_tail] in Hrun.
  destruct Hcfg as [Hlo Hhi _].
  rewrite (u8_small (USART_RX_BUFSIZE - 1)) in Hrun by lia.
  destruct (array_get (rx_buf (fd_rs485 w)) 0) as [c0|]; [|discriminate].
  destruct (ECHO_ENABLED (flags (fd_rs485 w))).
  - unfold _echo_to_console, _write_char_USART, bind, ret in Hrun.
    cbn [deref fd_usb set_fd_usb set_fd_rs485 usart set_rx_buf_tail] in Hrun.
    destruct (usart (fd_usb w)) as [[|]|]; inversion Hrun; subst;
      repeat split.
  - inversion Hrun; subst. repeat split.
Qed.

End IndexInvariant.

Section ProgramRuns.
Context {cfg : xio_config}.

Lemma xio_getc_other (fdn : Z) (w : world) :
  fdn <> FD_USB -> xio_getc fdn w = Ret ERR_EOF (set_errno EBADF w).
Proof.
  intros Hf. unfold xio_getc. now rewrite (proj2 (Z.eqb_neq _ _) Hf).
Qed.

(** One call of xio_getc(FD_USB) against one pop of the queue. *)
Lemma getc_usb_step (w : world) :
  cfg_ok cfg -> usb_ready w ->
  match fifo_pop (contents (fd_usb w)) with
  | Some (c, q') =>
      exists w1,
        xio_getc FD_USB w = Ret c w1 /\ usb_ready w1 /\
        contents (fd_usb w1) = q' /\
        flags (fd_usb w1) = flags (fd_usb w) /\
        rx_buf_tail (fd_usb w1) <> rx_buf_tail (fd_usb w) /\
        fd_rs485 w1 = fd_rs485 w
  | None =>
      if BLOCKING_ENABLED (flags (fd_usb w))
      then xio_getc FD_USB w = Blocked
      else xio_getc FD_USB w = Ret (-1) (set_errno EAGAIN w)
  end.
Proof.
  intros Hcfg Hrdy. pose proof (bufsize_lo _ Hcfg) as HC.
  pose proof Hrdy as [Hok Hu Hp Hq]. rewrite xio_getc_usb by exact Hp.
  destruct (Z.eq_dec (rx_buf_head (fd_usb w)) (rx_buf_tail (fd_usb w)))
    as [He|Hne].
  - rewrite (proj1 (empty_contents _ Hok) He). cbn [fifo_pop].
    unfold _read_char_USART. rewrite Hq.
    destruct (BLOCKING_ENABLED (flags (fd_usb w))) eqn:Hbl.
    + now rewrite rx_wait_sleeps_forever.
    + now rewrite rx_wait_would_block.
  - rewrite (popped_contents _ Hok Hne). cbn [fifo_pop].
    destruct (read_char_usb_pop w Hcfg Hok Hne) as [c [Hc Hrd]].
    rewrite Hc. cbn [default]. rewrite Hrd. cbv zeta.
    set (w1 := set_fd_usb (popped (fd_usb w)) w).
    assert (Hrdy1 : usb_ready w1).
    { split; [now apply popped_ring_ok|exact Hu|exact Hp|exact Hq]. }
    assert (Hstep : exists w2,
      (if ECHO_ENABLED (flags (fd_usb w))
       then (_echo_to_console c ;;; ret c) w1 else Ret c w1) = Ret c w2 /\
      fd_usb w2 = popped (fd_usb w) /\ fd_rs485 w2 = fd_rs485 w /\
      usb_ready w2).
    { destruct (ECHO_ENABLED (flags (fd_usb w))).
      - destruct (usart (fd_usb w1)) as [u|] eqn:Hu1;
          [|exfalso; now apply Hu].
        destruct (echo_bound c w1 u Hu1)
          as [w2 [Hrun [Hfu [Hfr [Hfp [Hpe _]]]]]].
        exists w2. split; [exact Hrun|]. split; [now rewrite Hfu|].
        split; [now rewrite Hfr|].
        destruct Hrdy1 as [Ho1 Hu1' Hp1 Hq1].
        split; rewrite ?Hfu, ?Hfp, ?Hpe; auto.
      - exists w1. split; [reflexivity|]. split; [reflexivity|].
        split; [reflexivity|exact Hrdy1]. }
    destruct Hstep as [w2 [Hrun [Hf2 [Hr2 Hrdy2]]]].
    exists w2. split; [exact Hrun|]. split; [exact Hrdy2|].
    rewrite Hf2. split; [reflexivity|]. split; [reflexivity|].
    split; [|exact Hr2].
    cbn [popped rx_buf_tail set_rx_buf_tail].
    destruct Hok as [Hh Ht _]. exact (advance_moves _ _ Hh Ht Hne).
Qed.

(** The rings under a run of the program are the bounded queue of the USB
    device: a run returns, with the descriptor FD_USB, what the run of
    its USB part on the queue returns, and stops for ever exactly when
    the queue run does. *)
Lemma run_calls_simulates_fifo (cs : list call) :
  forall w : world,
    cfg_ok cfg -> usb_ready w ->
    match fifo_run (BLOCKING_ENABLED (flags (fd_usb w))) (usb_ops cs)
                   (contents (fd_usb w)) with
    | Some out =>
        exists w', run_calls cs w = Ret (map (pair FD_USB) out) w' /\
                   usb_ready w'
    | None => run_calls cs w = Blocked
    end.
Proof.
  induction cs as [|[d|fdn] cs IH]; intros w Hcfg Hrdy.
  - simpl. exists w. now split.
  - (* a receive interrupt *)
    pose proof (bufsize_lo _ Hcfg) as HC.
    pose proof Hrdy as [Hok Hu Hp Hq].
    cbn [run_calls usb_ops fifo_run]. unfold bind, ISR_USB_RX.
    rewrite rx_isr_pushed by assumption. cbn [deref assign].
    rewrite <- pushed_contents by assumption.
    set (w1 := set_fd_usb (pushed (s8 d) (fd_usb w)) w).
    assert (Hf1 : fd_usb w1 = pushed (s8 d) (fd_usb w)) by reflexivity.
    assert (Hfl : flags (fd_usb w1) = flags (fd_usb w)).
    { rewrite Hf1. unfold pushed. cbv zeta.
      now destruct (advance (rx_buf_head (fd_usb w)) =? rx_buf_tail (fd_usb w)). }
    assert (Hrdy1 : usb_ready w1).
    { split.
      - rewrite Hf1. now apply pushed_ring_ok.
      - rewrite Hf1. unfold pushed. cbv zeta.
        now destruct (advance (rx_buf_head (fd_usb w)) =? rx_buf_tail (fd_usb w)).
      - exact Hp.
      - exact Hq. }
    rewrite <- Hf1, <- Hfl. now apply IH.
  - (* a call of xio_getc *)
    cbn [run_calls usb_ops].
    destruct (Z.eqb_spec fdn FD_USB) as [->|Hother].
    + cbn [fifo_run]. pose proof (getc_usb_step w Hcfg Hrdy) as Hstep.
      destruct (fifo_pop (contents (fd_usb w))) as [[c q']|].
      * destruct Hstep as (w1 & Hget & Hrdy1 & Hc1 & Hf1 & Hmv & Hr1).
        rewrite Hget.
        assert (Hmoved :
          negb (rx_buf_tail (fd_usb w1) =? rx_buf_tail (fd_usb w))
          || negb (rx_buf_tail (fd_rs485 w1) =? rx_buf_tail (fd_rs485 w))
          = true).
        { destruct (Z.eqb_spec (rx_buf_tail (fd_usb w1))
                               (rx_buf_tail (fd_usb w))); [contradiction|].
          reflexivity. }
        cbv zeta. rewrite Hmoved.
        specialize (IH w1 Hcfg Hrdy1). rewrite Hf1, Hc1 in IH.
        unfold bind, ret.
        destruct (fifo_run (BLOCKING_ENABLED (flags (fd_usb w))) (usb_ops cs)
                           q') as [out|]; cbn [option_map].
        -- destruct IH as [w' [Hrun Hr']]. rewrite Hrun. now exists w'.
        -- now rewrite IH.
      * destruct (BLOCKING_ENABLED (flags (fd_usb w))) eqn:Hbl;
          [now rewrite Hstep|].
        rewrite Hstep. cbv zeta. cbn [fd_usb fd_rs485 set_errno].
        rewrite !Z.eqb_refl. cbn [negb orb].
        assert (Hrdy1 : usb_ready (set_errno EAGAIN w))
          by (destruct Hrdy; now split).
        specialize (IH (set_errno EAGAIN w) Hcfg Hrdy1).
        cbn [fd_usb set_errno] in IH. rewrite Hbl in IH.
        unfold bind, ret.
        destruct (fifo_run false (usb_ops cs) (contents (fd_usb w)))
          as [out|].
        -- destruct IH as [w' [Hrun Hr']]. rewrite Hrun. now exists w'.
        -- now rewrite IH.
    + rewrite xio_getc_other by exact Hother.
      cbv zeta. cbn [fd_usb fd_rs485 set_errno].
      rewrite !Z.eqb_refl. cbn [negb orb].
      assert (Hrdy1 : usb_ready (set_errno EBADF w))
        by (destruct Hrdy; now split).
      specialize (IH (set_errno EBADF w) Hcfg Hrdy1).
      cbn [fd_usb set_errno] in IH. unfold bind, ret.
      destruct (fifo_run (BLOCKING_ENABLED (flags (fd_usb w))) (usb_ops cs)
                         (contents (fd_usb w))) as [out|].
      * destruct IH as [w' [Hrun Hr']]. rewrite Hrun. now exists w'.
      * now rewrite IH.
Qed.

Lemma map_snd_pair (fdn : Z) (out : list Z) :
  map snd (map (pair fdn) out) = out /\
  Forall (fun x : Z * Z => fst x = fdn) (map (pair fdn) out).
Proof.
  induction out as [|c out [IH1 IH2]]; [now split|].
  cbn [map snd]. rewrite IH1. split; [reflexivity|].
  constructor; [reflexivity|exact IH2].
Qed.

(** C2. FIFO order on every descriptor.  After xio_init() and
    open(DEV_USB) (a ready USB device with an empty ring), take any run
    of fewer than USART_RX_BUFSIZE receive interrupts interleaved with
    xio_getc() calls on any descriptor.  Every byte a call takes out of a
    ring comes from the USB ring, through FD_USB; the bytes taken are
    what the same run takes out of the abstract bounded queue, and they
    are a prefix of the bytes pushed: the bytes in the order of their
    arrival.  On a non-blocking device the run always returns.  (The
    tail wrap of _read_char_USART() names fd_usb; no run reaches it with
    another struct, because xio_getc() refuses every descriptor but
    FD_USB.) *)
Theorem ring_pops_in_push_order (cs : list call) (w : world) :
  cfg_ok cfg -> usb_ready w -> ring_empty (fd_usb w) ->
  Z.of_nat (length (rx_data (usb_ops cs))) < USART_RX_BUFSIZE ->
  (forall out w',
      run_calls cs w = Ret out w' ->
      Forall (fun x => fst x = FD_USB) out /\
      fifo_run (BLOCKING_ENABLED (flags (fd_usb w))) (usb_ops cs) []
      = Some (map snd out) /\
      map snd out `prefix_of` rx_data (usb_ops cs)) /\
  (BLOCKING_ENABLED (flags (fd_usb w)) = false ->
   exists out w', run_calls cs w = Ret out w').
Proof.
  intros Hcfg Hrdy He Hn.
  pose proof (run_calls_simulates_fifo cs w Hcfg Hrdy) as Hsim.
  pose proof (proj1 (empty_contents _ (usb_ring _ Hrdy)) He) as Hc.
  rewrite Hc in Hsim. split.
  - intros out w' Hrun.
    destruct (fifo_run (BLOCKING_ENABLED (flags (fd_usb w))) (usb_ops cs) [])
      as [out0|] eqn:Hf.
    + destruct Hsim as [w0 [Hrun0 _]]. rewrite Hrun0 in Hrun.
      inversion Hrun; subst.
      destruct (map_snd_pair FD_USB out0) as [Hs Hall].
      rewrite Hs. split; [exact Hall|]. split; [reflexivity|].
      eapply (fifo_run_prefix _ (usb_ops cs) [] 0%nat out0);
        [simpl; lia|simpl; lia|exact Hf].
    + rewrite Hsim in Hrun. discriminate.
  - intros Hnb. rewrite Hnb in Hsim.
    destruct (fifo_run_nonblocking (usb_ops cs) []) as [out Hout].
    rewrite Hout in Hsim. destruct Hsim as [w' [Hrun _]].
    exists (map (pair FD_USB) out), w'. exact Hrun.
Qed.







End ProgramRuns.

Section BulkRead.
Context {cfg : xio_config}.

Lemma s16_small (x : Z) : -32768 <= x <= 32767 -> s16 x = x.
Proof. intros H. unfold s16. rewrite Z.mod_small by lia. lia. Qed.

Lemma array_set_Some (b b' : list Z) (i v : Z) :
  array_set b i v = Some b' ->
  0 <= i < Z.of_nat (length b) /\ b' = <[Z.to_nat i := v]> b.
Proof.
  unfold array_set. intros H.
  destruct (Z.leb_spec 0 i); [|discriminate].
  destruct (Z.ltb_spec i (Z.of_nat (length b))); [|discriminate].
  inversion H. split; [lia|reflexivity].
Qed.

Lemma array_get_insert_other (b : list Z) (i j v : Z) :
  0 <= i -> i <> j ->
  array_get (<[Z.to_nat i := v]> b) j = array_get b j.
Proof.
  intros Hi Hne. destruct (Z.ltb_spec j 0) as [Hj|Hj].
  - unfold array_get. destruct (Z.ltb_spec j 0); [reflexivity|lia].
  - now apply array_get_insert_ne.
Qed.

(** The char -1 is the byte 0xFF. *)
Lemma sentinel_is_0xFF : u8 (-1) = 255 /\ s8 255 = -1.
Proof. split; reflexivity. Qed.

(** A read on an empty ring of a non-blocking device. *)
Lemma read_char_would_block (p : fd_ref) (w : world) :
  BLOCKING_ENABLED (flags (deref p w)) = false ->
  ring_empty (deref p w) ->
  _read_char_USART p w = Ret (-1) (set_errno EAGAIN w).
Proof.
  intros Hnb He. unfold _read_char_USART.
  now rewrite rx_wait_would_block.
Qed.

(** The first pass of each read loop when the byte read is -1. *)
Lemma read_size_loop_abort (fuel : nat) (p : fd_ref) (buf : list Z)
      (i size : Z) (w w1 : world) :
  _read_char_USART p w = Ret (-1) w1 ->
  read_size_loop (S fuel) p buf i size w =
    match array_set buf i (-1) with
    | Some b => Ret (-1, b) w1
    | None => Fault
    end.
Proof.
  intros Hrd. cbn [read_size_loop]. unfold bind at 1. rewrite Hrd.
  unfold bind, lift_opt. destruct (array_set buf i (-1)); reflexivity.
Qed.

Lemma read_line_loop_abort (fuel : nat) (p : fd_ref) (buf : list Z)
      (i size : Z) (w w1 : world) :
  _read_char_USART p w = Ret (-1) w1 ->
  read_line_loop (S fuel) p buf i size w = Ret (-1, buf) w1.
Proof.
  intros Hrd. cbn [read_line_loop]. unfold bind at 1. now rewrite Hrd.
Qed.

Lemma read_str_loop_abort (fuel : nat) (p : fd_ref) (buf : list Z)
      (i size : Z) (w w1 : world) :
  _read_char_USART p w = Ret (-1) w1 ->
  read_str_loop (S fuel) p buf i size w = Ret (-1, buf) w1.
Proof.
  intros Hrd. cbn [read_str_loop]. unfold bind at 1. now rewrite Hrd.
Qed.

(** The dispatch of _read_usb() for a request that selects a mode. *)
Lemma read_usb_dispatch (fuel : nat) (p : fd_ref) (buf : list Z) (size : Z)
      (w : world) :
  size <> 0 -> STR_MODE <= size <= rx_size_max (deref p w) ->
  _read_usb fuel p buf size w =
    if size >? 0 then read_size_loop fuel p buf 0 size w
    else if size =? LINE_MODE
         then read_line_loop fuel p buf 0 (rx_size_max (deref p w)) w
         else read_str_loop fuel p buf 0 (rx_size_max (deref p w)) w.
Proof.
  intros Hnz [Hlo Hhi]. unfold _read_usb, STR_MODE, LINE_MODE, SIZE_MODE in *.
  destruct (Z.eqb_spec size 0); [contradiction|].
  destruct (Z.gtb_spec size (rx_size_max (deref p w))); [lia|].
  destruct (Z.ltb_spec size (-2)); [lia|].
  destruct (Z.gtb_spec size 0); [reflexivity|].
  assert (Hs : size = -1 \/ size = -2) by lia.
  destruct Hs as [-> | ->]; reflexivity.
Qed.

(** xio_read() and xio_getc() on the USB handle are the two functions
    the next theorem is about. *)
Lemma usb_dispatch (fuel : nat) (buf : list Z) (size : Z) (w : world) :
  xio_read fuel FD_USB buf size w = _read_usb fuel ref_usb buf size w /\
  (fd_ptrs w !! 1%nat = Some (Some ref_usb) ->
   xio_getc FD_USB w = _read_char_USART ref_usb w).
Proof. split; [reflexivity|apply xio_getc_usb]. Qed.

(** C8. On a device with blocking reads disabled and an empty receive
    ring, the single-character read returns -1 with EAGAIN and changes
    nothing else; a bulk read never sleeps whatever the request, and for
    a request that selects a transfer (not 0, not below -2, within the
    read limit) it returns -1 with EAGAIN at once. *)
Theorem nonblocking_empty_read_would_block (p : fd_ref) (w : world) :
  BLOCKING_ENABLED (flags (deref p w)) = false ->
  ring_empty (deref p w) ->
  _read_char_USART p w = Ret (-1) (set_errno EAGAIN w) /\
  sleeps (set_errno EAGAIN w) = sleeps w /\
  (forall (fuel : nat) (buf : list Z) (size : Z),
      _read_usb fuel p buf size w <> Blocked /\
      forall r w', _read_usb fuel p buf size w = Ret r w' ->
                   sleeps w' = sleeps w) /\
  (forall (fuel : nat) (buf : list Z) (size : Z),
      fuel <> O -> buf <> [] -> size <> 0 ->
      STR_MODE <= size <= rx_size_max (deref p w) ->
      exists buf', _read_usb fuel p buf size w
                   = Ret (-1, buf') (set_errno EAGAIN w)).
Proof.
  intros Hnb He.
  pose proof (read_char_would_block p w Hnb He) as Hrd.
  split; [exact Hrd|]. split; [reflexivity|]. split.
  - intros fuel buf size.
    destruct (Z.eq_dec size 0) as [->|Hnz].
    { unfold _read_usb. cbn. split; [discriminate|].
      intros r w' Hx; inversion Hx; reflexivity. }
    destruct (Z_lt_le_dec (rx_size_max (deref p w)) size) as [Hbig|Hle].
    { unfold _read_usb. destruct (Z.eqb_spec size 0); [contradiction|].
      destruct (Z.gtb_spec size (rx_size_max (deref p w))); [|lia].
      split; [discriminate|]. intros r w' Hx; inversion Hx; reflexivity. }
    destruct (Z_lt_le_dec size STR_MODE) as [Hneg|Hge].
    { unfold _read_usb. destruct (Z.eqb_spec size 0); [contradiction|].
      destruct (Z.gtb_spec size (rx_size_max (deref p w))); [lia|].
      destruct (Z.ltb_spec size STR_MODE); [|lia].
      split; [discriminate|]. intros r w' Hx; inversion Hx; reflexivity. }
    rewrite read_usb_dispatch by auto.
    destruct fuel as [|fuel].
    { destruct (size >? 0); [|destruct (size =? LINE_MODE)];
        (split; [discriminate|intros r w' Hx; discriminate]). }
    rewrite (read_size_loop_abort _ _ _ _ _ _ _ Hrd).
    rewrite (read_line_loop_abort _ _ _ _ _ _ _ Hrd).
    rewrite (read_str_loop_abort _ _ _ _ _ _ _ Hrd).
    destruct (size >? 0); [destruct (array_set buf 0 (-1))|
                           destruct (size =? LINE_MODE)];
      (split; [discriminate|intros r w' Hx; inversion Hx; reflexivity]).
  - intros fuel buf size Hfuel Hbuf Hnz Hrange.
    rewrite read_usb_dispatch by auto.
    destruct fuel as [|fuel]; [contradiction|].
    rewrite (read_size_loop_abort _ _ _ _ _ _ _ Hrd).
    rewrite (read_line_loop_abort _ _ _ _ _ _ _ Hrd).
    rewrite (read_str_loop_abort _ _ _ _ _ _ _ Hrd).
    destruct (size >? 0).
    + rewrite array_set_in_range; [now eexists|].
      destruct buf; [contradiction|]. cbn [length]. lia.
    + destruct (size =? LINE_MODE); now eexists.
Qed.

(** Where an exact-count loop that ends in -1 has put the -1: at the
    output position [k] it had reached; the slots before hold the bytes
    read so far and the slots after are untouched. *)
Lemma read_size_loop_abort_stores (fuel : nat) (p : fd_ref) :
  forall (buf : list Z) (i size : Z) (w : world) (buf' : list Z) (w' : world),
    0 <= i -> 1 <= size <= 32767 ->
    read_size_loop fuel p buf i size w = Ret (-1, buf') w' ->
    exists k,
      i <= k < i + size /\
      array_get buf' k = Some (-1) /\
      (forall j, i <= j < k ->
                 exists c, array_get buf' j = Some c /\ c <> -1) /\
      (forall j, j < i \/ k < j -> array_get buf' j = array_get buf j).
Proof.
  induction fuel as [|fuel IH]; intros buf i size w buf' w' Hi Hsz Hrun;
    [discriminate|].
  cbn [read_size_loop] in Hrun. unfold bind at 1 in Hrun.
  destruct (_read_char_USART p w) as [c w1| | |]; try discriminate.
  unfold bind at 1 in Hrun. unfold lift_opt in Hrun.
  destruct (array_set buf i c) as [buf1|] eqn:Hset; [|discriminate].
  cbn [ret] in Hrun. unfold ret at 1 in Hrun.
  apply array_set_Some in Hset. destruct Hset as [Hin ->].
  destruct (Z.eqb_spec c (-1)) as [->|Hc].
  - inversion Hrun; subst. exists i. split; [lia|].
    split; [now apply array_get_insert_eq|]. split.
    + intros j Hj. lia.
    + intros j Hj. apply array_get_insert_other; lia.
  - rewrite s16_small in Hrun by lia.
    destruct (Z.eqb_spec (size - 1) 0).
    + inversion Hrun. lia.
    + apply IH in Hrun; [|lia|lia].
      destruct Hrun as [k [Hk [Hk1 [Hbefore Hafter]]]].
      exists k. split; [lia|]. split; [exact Hk1|]. split.
      * intros j Hj. destruct (Z.eq_dec j i) as [->|Hji].
        -- exists c. split; [|exact Hc].
           rewrite Hafter by lia. now apply array_get_insert_eq.
        -- apply Hbefore. lia.
      * intros j Hj. rewrite Hafter by lia.
        apply array_get_insert_other; lia.
Qed.

(** C9. An exact-count read (0 < size, within the limit) that returns
    -1 has stored the -1 it got from the single-byte read in the caller's
    buffer, at the output position [k] reached; the [k] bytes read before
    are in front of it.  On a non-blocking device with an empty ring this
    is slot 0: the buffer comes back with -1 (the byte 0xFF) in its first
    slot and the error is EAGAIN. *)
Theorem failed_exact_read_stores_sentinel
        (fuel : nat) (p : fd_ref) (buf : list Z) (size : Z) (w : world) :
  0 < size <= rx_size_max (deref p w) ->
  size <= 32767 ->
  (forall buf' w',
      _read_usb fuel p buf size w = Ret (-1, buf') w' ->
      exists k,
        0 <= k < size /\
        array_get buf' k = Some (-1) /\
        (forall j, 0 <= j < k ->
                   exists c, array_get buf' j = Some c /\ c <> -1) /\
        (forall j, k < j -> array_get buf' j = array_get buf j)) /\
  (BLOCKING_ENABLED (flags (deref p w)) = false ->
   ring_empty (deref p w) -> fuel <> O -> buf <> [] ->
   _read_usb fuel p buf size w
   = Ret (-1, <[O := -1]> buf) (set_errno EAGAIN w)).
Proof.
  intros Hsz Hmax.
  assert (Hd : _read_usb fuel p buf size w = read_size_loop fuel p buf 0 size w).
  { rewrite read_usb_dispatch by (unfold STR_MODE; lia).
    destruct (Z.gtb_spec size 0); [reflexivity|lia]. }
  rewrite Hd. split.
  - intros buf' w' Hrun.
    apply read_size_loop_abort_stores in Hrun; [|lia|lia].
    destruct Hrun as [k [Hk [Hk1 [Hbefore Hafter]]]].
    exists k. split; [lia|]. split; [exact Hk1|]. split.
    + exact Hbefore.
    + intros j Hj. apply Hafter. now right.
  - intros Hnb He Hfuel Hbuf.
    destruct fuel as [|fuel]; [contradiction|].
    rewrite (read_size_loop_abort _ _ _ _ _ _ _
               (read_char_would_block p w Hnb He)).
    rewrite array_set_in_range; [reflexivity|].
    destruct buf; [contradiction|]. cbn [length]. lia.
Qed.

End BulkRead.

Section BulkWrite.
Context {cfg : xio_config}.

(** The size check of the two engines: both compare the request with
    rx_size_max; tx_size_max is not read. *)
Lemma exact_count_limit_checks (fuel : nat) (p : fd_ref) (buf : list Z)
      (size : Z) (w : world) :
  0 < size ->
  (rx_size_max (deref p w) < size ->
   _read_usb fuel p buf size w = Ret (-1, buf) (set_errno EFBIG w) /\
   _write_usb fuel p buf size w = Ret (-1) (set_errno EFBIG w)) /\
  (size <= rx_size_max (deref p w) ->
   _read_usb fuel p buf size w = read_size_loop fuel p buf 0 size w /\
   _write_usb fuel p buf size w = write_size_loop fuel p buf 0 size w).
Proof.
  intros Hpos. unfold _read_usb, _write_usb, STR_MODE, PSTR_MODE, SIZE_MODE.
  destruct (Z.eqb_spec size 0); [lia|].
  destruct (Z.gtb_spec size (rx_size_max (deref p w)));
    (split; [intros Hb|intros Hs]); try lia.
  - now split.
  - destruct (Z.ltb_spec size (-2)); [lia|].
    destruct (Z.ltb_spec size (-3)); [lia|].
    destruct (Z.gtb_spec size 0); [|lia]. now split.
Qed.

Lemma write_char_bound (p : fd_ref) (c : Z) (w : world) (u : USART_id) :
  usart (deref p w) = Some u ->
  exists w', _write_char_USART p c w = Ret c w' /\
             DATA_tx (get_usart u w') = DATA_tx (get_usart u w) ++ [u8 c] /\
             deref p w' = deref p w /\ errno w' = errno w.
Proof.
  intros Hu. unfold _write_char_USART. rewrite Hu. eexists.
  split; [reflexivity|]. destruct u, p; repeat split.
Qed.

(** The exact-count write loop started with size n+1 sends n bytes and
    returns n more than its start index: one byte short of the request.
    (None of the bytes sent is -1, which the loop takes for an error of
    the byte writer.) *)
Lemma write_size_loop_sends (p : fd_ref) (buf : list Z) (u : USART_id) :
  forall (n fuel : nat) (i : Z) (w : world),
    (n < fuel)%nat -> 0 <= i -> Z.of_nat n + 1 <= 32767 ->
    usart (deref p w) = Some u ->
    (forall j, i <= j < i + Z.of_nat n ->
               exists c, array_get buf j = Some c /\ c <> -1) ->
    exists w',
      write_size_loop fuel p buf i (Z.of_nat n + 1) w
      = Ret (i + Z.of_nat n) w' /\
      DATA_tx (get_usart u w')
      = DATA_tx (get_usart u w) ++ map u8 (take n (drop (Z.to_nat i) buf)) /\
      errno w' = errno w.
Proof.
  induction n as [|n IH]; intros fuel i w Hfuel Hi Hmax Hu Hbuf;
    (destruct fuel as [|fuel]; [lia|]); cbn [write_size_loop].
  - change (s16 (Z.of_nat 0 + 1 - 1) =? 0) with true. cbn iota.
    exists w. unfold ret. rewrite Z.add_0_r, take_0, app_nil_r. now split.
  - replace (Z.of_nat (S n) + 1 - 1) with (Z.of_nat n + 1) by lia.
    rewrite s16_small by lia.
    destruct (Z.eqb_spec (Z.of_nat n + 1) 0); [lia|].
    destruct (Hbuf i) as [c [Hc Hc1]]; [lia|].
    unfold bind at 1. rewrite Hc. cbn [lift_opt]. unfold ret at 1.
    destruct (write_char_bound p c w u Hu) as [w1 [Hw [Htx [Hf He]]]].
    unfold bind at 1. rewrite Hw.
    destruct (Z.eqb_spec c (-1)); [contradiction|].
    destruct (IH fuel (i + 1) w1) as [w' [Hrun [Htx' He']]];
      [lia|lia|lia|now rewrite Hf| |].
    { intros j Hj. apply Hbuf. lia. }
    exists w'. split; [|split].
    + rewrite Hrun. f_equal. lia.
    + rewrite Htx', Htx, <- app_assoc. f_equal.
      unfold array_get in Hc. destruct (Z.ltb_spec i 0); [lia|].
      rewrite (drop_S _ _ _ Hc). cbn [take map].
      replace (Z.to_nat (i + 1)) with (S (Z.to_nat i)) by lia.
      reflexivity.
    + congruence.
Qed.

End BulkWrite.

Section Frames.
Context {cfg : xio_config}.

Lemma bind_Ret {A B} (m : M A) (k : A -> M B) (w w' : world) (b : B) :
  bind m k w = Ret b w' ->
  exists a w1, m w = Ret a w1 /\ k a w1 = Ret b w'.
Proof.
  unfold bind. destruct (m w) as [a w1| | |]; try discriminate.
  intros H. now exists a, w1.
Qed.

Lemma keeps_bind {A B X} (proj : world -> X) (m : M A) (k : A -> M B) :
  keeps proj m -> (forall a, keeps proj (k a)) -> keeps proj (bind m k).
Proof.
  intros Hm Hk w b w' H. apply bind_Ret in H.
  destruct H as [a [w1 [H1 H2]]].
  rewrite (Hk a _ _ _ H2). exact (Hm _ _ _ H1).
Qed.

Lemma keeps_ret {A X} (proj : world -> X) (a : A) : keeps proj (ret a).
Proof. intros w b w' H. now inversion H. Qed.

Lemma keeps_lift_opt {A X} (proj : world -> X) (o : option A) :
  keeps proj (lift_opt o).
Proof. destruct o; intros w b w' H; now inversion H. Qed.

Lemma keeps_if {A X} (proj : world -> X) (c : bool) (m1 m2 : M A) :
  keeps proj m1 -> keeps proj m2 -> keeps proj (if c then m1 else m2).
Proof. now destruct c. Qed.

Lemma keeps_modify {X} (proj : world -> X) (g : world -> world) :
  (forall w, proj (g w) = proj w) -> keeps proj (modify g).
Proof. intros Hg w b w' H. inversion H; subst. apply Hg. Qed.

Lemma keeps_upd {X} (proj : world -> X) (p : fd_ref)
      (g : fdUSART -> fdUSART) :
  (forall w, proj (assign p (g (deref p w)) w) = proj w) ->
  keeps proj (upd p g).
Proof. intros Hg. now apply keeps_modify. Qed.

Lemma keeps_fd_ptr {X} (proj : world -> X) (fdn : Z) :
  keeps proj (fd_ptr fdn).
Proof.
  intros w b w' H. unfold fd_ptr in H.
  destruct (if fdn <? 0 then None else fd_ptrs w !! Z.to_nat fdn)
    as [[q|]|]; now inversion H.
Qed.

Lemma keeps_usart_write {X} (proj : world -> X) (p : fd_ref)
      (g : USART_t -> USART_t) :
  hw_blind proj -> keeps proj (usart_write p g).
Proof.
  intros [Hu _] w b w' H. unfold usart_write in H.
  destruct (usart (deref p w)); inversion H. apply Hu.
Qed.

Lemma keeps_port_write {X} (proj : world -> X) (p : fd_ref)
      (g : PORT_t -> PORT_t) :
  hw_blind proj -> keeps proj (port_write p g).
Proof.
  intros [_ Hp] w b w' H. unfold port_write in H.
  destruct (port (deref p w)) as [[]|]; inversion H. apply Hp.
Qed.

Lemma keeps_set_baud_regs {X} (proj : world -> X) (p : fd_ref) :
  hw_blind proj -> keeps proj (set_baud_regs p).
Proof.
  intros Hb w b w' H. unfold set_baud_regs in H. revert H.
  apply keeps_bind; [apply keeps_lift_opt|]. intros a.
  apply keeps_bind; [now apply keeps_usart_write|]. intros _.
  apply keeps_bind; [apply keeps_lift_opt|]. intros s.
  now apply keeps_usart_write.
Qed.

Lemma keeps_write_char {X} (proj : world -> X) (p : fd_ref) (c : Z) :
  hw_blind proj -> keeps proj (_write_char_USART p c).
Proof.
  intros [Hu _] w b w' H. unfold _write_char_USART in H.
  destruct (usart (deref p w)); inversion H. apply Hu.
Qed.

Lemma keeps_fd_field {X} (proj : world -> X) (p : fd_ref) :
  keeps proj (fun w => Ret (s8 (fd (deref p w))) w).
Proof. intros w b w' H. now inversion H. Qed.

Lemma hw_blind_usb_flags : hw_blind usb_flags.
Proof. split; [intros [|] r w|intros r w]; reflexivity. Qed.

Lemma hw_blind_fd_ptrs : hw_blind fd_ptrs.
Proof. split; [intros [|] r w|intros r w]; reflexivity. Qed.

Lemma hw_blind_errno : hw_blind errno.
Proof. split; [intros [|] r w|intros r w]; reflexivity. Qed.

End Frames.

(** Solves [keeps proj m] for a computation built from the primitives
    above. *)
Ltac keeps_tac :=
  repeat first
    [ apply keeps_bind; [|intros ?]
    | apply keeps_if
    | apply keeps_ret
    | apply keeps_lift_opt
    | apply keeps_fd_ptr
    | apply keeps_fd_field
    | apply keeps_set_baud_regs
    | apply keeps_usart_write
    | apply keeps_port_write
    | apply keeps_write_char
    | apply hw_blind_usb_flags
    | apply hw_blind_fd_ptrs
    | apply hw_blind_errno
    | apply keeps_upd;
      let w := fresh "w" in intros w;
      match goal with |- context [assign ?p _ _] => destruct p end;
      reflexivity
    | apply keeps_modify; let w := fresh "w" in intros w; reflexivity ].

Section OpenFlags.
Context {cfg : xio_config}.

Lemma upd_usb_flags (g : fdUSART -> fdUSART) (w w' : world) :
  upd ref_usb g w = Ret tt w' -> usb_flags w' = flags (g (fd_usb w)).
Proof. intros H. inversion H. reflexivity. Qed.

Lemma clear_flag_flags (bm : Z) (f : fdUSART) :
  flags (clear_flag bm f) = Z.land (flags f) (Z.lnot bm).
Proof. reflexivity. Qed.

Lemma open_USART_keeps_fd_ptrs (dev control : Z) :
  keeps fd_ptrs (_open_USART dev control).
Proof. unfold _open_USART. keeps_tac. Qed.

(** The flags a successful _open_USART(DEV_USARTC0, control) leaves in
    the USB control block. *)
Lemma open_USART_flags (control : Z) (w w' : world) (r : Z) :
  fd_ptrs w !! 1%nat = Some (Some ref_usb) ->
  _open_USART DEV_USARTC0 control w = Ret r w' ->
  r <> -1 ->
  flags (fd_usb w') = open_flags control.
Proof.
  intros Hp Hrun Hr. unfold _open_USART in Hrun.
  apply bind_Ret in Hrun. destruct Hrun as [fdn [w1 [H1 Hrun]]].
  cbn in H1. inversion H1; subst fdn w1. clear H1.
  apply bind_Ret in Hrun. destruct Hrun as [p [w1 [H1 Hrun]]].
  unfold fd_ptr in H1. change (1 <? 0) with false in H1. cbv iota in H1.
  change (Z.to_nat 1) with 1%nat in H1. rewrite Hp in H1.
  inversion H1; subst p w1. clear H1.
  do 7 (apply bind_Ret in Hrun; destruct Hrun as [[] [? [_ Hrun]]]).
  destruct (Z.land control (Z.lor IO_RDONLY IO_WRONLY)
            =? Z.lor IO_RDONLY IO_WRONLY).
  { apply bind_Ret in Hrun. destruct Hrun as [[] [? [_ Hrun]]].
    inversion Hrun. congruence. }
  apply bind_Ret in Hrun. destruct Hrun as [[] [w1 [H1 Hrun]]].
  apply bind_Ret in Hrun. destruct Hrun as [[] [w2 [H2 Hrun]]].
  apply bind_Ret in Hrun. destruct Hrun as [[] [w3 [H3 Hrun]]].
  apply bind_Ret in Hrun. destruct Hrun as [[] [w4 [H4 Hrun]]].
  assert (Hfl : usb_flags w4 = open_flags control).
  { unfold open_flags. cbv zeta.
    assert (F1 : usb_flags w1 = IO_FLAG_DEFAULT_gm)
      by (now apply upd_usb_flags in H1).
    assert (F2 : usb_flags w2 =
                 if c_true (Z.land control IO_RDONLY)
                 then Z.land IO_FLAG_DEFAULT_gm (Z.lnot IO_FLAG_WR_bm)
                 else if c_true control && c_true IO_RDONLY
                      then Z.land IO_FLAG_DEFAULT_gm (Z.lnot IO_FLAG_RD_bm)
                      else IO_FLAG_DEFAULT_gm).
    { unfold usb_flags in F1.
      destruct (c_true (Z.land control IO_RDONLY));
        [|destruct (c_true control && c_true IO_RDONLY)].
      - apply upd_usb_flags in H2. now rewrite H2, clear_flag_flags, F1.
      - apply upd_usb_flags in H2. now rewrite H2, clear_flag_flags, F1.
      - inversion H2; subst. exact F1. }
    assert (F3 : usb_flags w3 =
                 if c_true (Z.land control IO_NOECHO)
                 then Z.land (usb_flags w2) (Z.lnot IO_FLAG_ECHO_CHAR_bm)
                 else usb_flags w2).
    { destruct (c_true (Z.land control IO_NOECHO)).
      - apply upd_usb_flags in H3. now rewrite H3, clear_flag_flags.
      - inversion H3; subst. reflexivity. }
    destruct (c_true (Z.land control IO_RDNONBLOCK)).
    - apply upd_usb_flags in H4.
      rewrite H4, clear_flag_flags. fold (usb_flags w3). now rewrite F3, F2.
    - inversion H4; subst. now rewrite F3, F2. }
  rewrite <- Hfl.
  match type of Hrun with
  | ?m _ = _ => assert (Hk : keeps usb_flags m) by keeps_tac
  end.
  exact (Hk _ _ _ Hrun).
Qed.

(** Every open(DEV_USB, control) that returns, after xio_init(), leaves
    the flags [open_flags control] in the USB control block. *)
Lemma xio_open_usb_flags (control : Z) (w w' : world) (r : Z) :
  fd_ptrs w = [None; Some ref_usb; Some ref_rs485] ->
  xio_open DEV_USB control w = Ret r w' ->
  flags (fd_usb w') = open_flags control.
Proof.
  intros Hp Hrun. change (_open_usb DEV_USB control w = Ret r w') in Hrun.
  unfold _open_usb in Hrun.
  apply bind_Ret in Hrun. destruct Hrun as [r0 [w1 [H1 Hrun]]].
  pose proof (open_USART_keeps_fd_ptrs _ _ _ _ _ H1) as Hp1.
  rewrite Hp in Hp1.
  assert (Hr0 : r0 <> -1).
  { intros ->. change (u8 (-1)) with 255 in Hrun.
    change (255 =? -1) with false in Hrun. cbv iota in Hrun.
    apply bind_Ret in Hrun. destruct Hrun as [p [w2 [H2 _]]].
    unfold fd_ptr in H2. rewrite Hp1 in H2. discriminate. }
  assert (Hfl : flags (fd_usb w1) = open_flags control).
  { apply (open_USART_flags control w w1 r0); [now rewrite Hp|exact H1|exact Hr0]. }
  rewrite <- Hfl.
  destruct (u8 r0 =? -1); [now inversion Hrun|].
  match type of Hrun with
  | ?m _ = _ => assert (Hk : keeps usb_flags m) by keeps_tac
  end.
  exact (Hk _ _ _ Hrun).
Qed.

(** A control word that is not zero and has the IO_RDONLY bit clear
    makes open_flags clear the read flag; the write flag stays. *)
Lemma open_flags_read_cleared (control : Z) :
  control <> 0 -> Z.land control IO_RDONLY = 0 ->
  READ_ENABLED (open_flags control) = false /\
  WRITE_ENABLED (open_flags control) = true.
Proof.
  intros Hnz Hrd. unfold open_flags. cbv zeta. rewrite Hrd.
  assert (Hc : c_true control = true)
    by (unfold c_true; destruct (Z.eqb_spec control 0); [contradiction|reflexivity]).
  rewrite Hc.
  destruct (c_true (Z.land control IO_NOECHO)),
           (c_true (Z.land control IO_RDNONBLOCK)); split; reflexivity.
Qed.

(** open(DEV_USB, control) with a control word that is not zero and does
    not ask for read-only: whenever the call returns, the read flag of the
    device is clear and the write flag set. *)
Lemma open_clears_read_flag (control : Z) (w w' : world) (r : Z) :
  fd_ptrs w = [None; Some ref_usb; Some ref_rs485] ->
  control <> 0 -> Z.land control IO_RDONLY = 0 ->
  xio_open DEV_USB control w = Ret r w' ->
  READ_ENABLED (flags (fd_usb w')) = false /\
  WRITE_ENABLED (flags (fd_usb w')) = true.
Proof.
  intros Hp Hnz Hrd Hrun.
  rewrite (xio_open_usb_flags control w w' r Hp Hrun).
  now apply open_flags_read_cleared.
Qed.

Lemma open_flags_zero :
  open_flags 0 = IO_FLAG_DEFAULT_gm /\
  READ_ENABLED (open_flags 0) = true /\ WRITE_ENABLED (open_flags 0) = true.
Proof. repeat split. Qed.

End OpenFlags.

Section ReadErrors.
Context {cfg : xio_config}.

Lemma rx_isr_keeps_errno (p : fd_ref) (data : Z) : keeps errno (rx_isr p data).
Proof.
  intros w [] w' H. unfold rx_isr in H. cbv zeta in H.
  repeat match type of H with
         | context [if ?c then _ else _] => destruct c
         | context [match ?o with Some _ => _ | None => _ end] => destruct o
         end;
    inversion H; now destruct p.
Qed.

Lemma serve_keeps_errno (q : irq) : keeps errno (serve q).
Proof. destruct q; apply rx_isr_keeps_errno. Qed.

(** The wait loop changes errno only when it gives up, and then to
    EAGAIN. *)
Lemma rx_wait_errno (p : fd_ref) (irqs : list irq) :
  forall (w w' : world) (b : bool),
    rx_wait p irqs w = Ret b w' ->
    (b = true /\ errno w' = errno w) \/ (b = false /\ errno w' = EAGAIN).
Proof.
  induction irqs as [|q irqs IH]; intros w w' b Hrun; cbn [rx_wait] in Hrun;
    destruct (rx_buf_head (deref p w) =? rx_buf_tail (deref p w));
    try (inversion Hrun; subst; now left);
    destruct (BLOCKING_ENABLED (flags (deref p w))); cbn [negb] in Hrun;
    try discriminate;
    try (inversion Hrun; subst; now right).
  destruct (serve q (set_pending irqs (set_sleeps (S (sleeps w)) w)))
    as [[] w1| | |] eqn:Hs; try discriminate.
  apply serve_keeps_errno in Hs. cbn in Hs.
  destruct (IH _ _ _ Hrun) as [[-> He]|[-> He]]; [left|right];
    (split; [reflexivity|congruence]).
Qed.

Lemma rx_take_keeps_errno (p : fd_ref) : keeps errno (rx_take p).
Proof.
  intros w c w' H. unfold rx_take in H. cbv zeta in H.
  match type of H with
  | context [match ?o with Some _ => _ | None => _ end] =>
      destruct o as [c0|]; [|discriminate]
  end.
  match type of H with
  | context [if ECHO_ENABLED ?f then _ else _] => destruct (ECHO_ENABLED f)
  end.
  - apply bind_Ret in H. destruct H as [[] [w1 [H1 H2]]].
    inversion H2; subst.
    unfold _echo_to_console in H1.
    apply bind_Ret in H1. destruct H1 as [r [w2 [H1 H3]]].
    inversion H3; subst.
    apply (keeps_write_char errno _ _ hw_blind_errno) in H1. rewrite H1.
    destruct (u8 (rx_buf_tail (deref p w) - 1) =? 0); now destruct p.
  - inversion H; subst.
    destruct (u8 (rx_buf_tail (deref p w) - 1) =? 0); now destruct p.
Qed.

Lemma read_char_errno (p : fd_ref) (w w' : world) (c : Z) :
  _read_char_USART p w = Ret c w' ->
  errno w' = errno w \/ errno w' = EAGAIN.
Proof.
  unfold _read_char_USART. intros H.
  destruct (rx_wait p (pending w) w) as [b w1| | |] eqn:Hw; try discriminate.
  apply rx_wait_errno in Hw. destruct b.
  - apply rx_take_keeps_errno in H.
    destruct Hw as [[_ He]|[Hb _]]; [left; congruence|discriminate].
  - inversion H; subst.
    destruct Hw as [[Hb _]|[_ He]]; [discriminate|now right].
Qed.

Lemma read_size_loop_errno (fuel : nat) (p : fd_ref) :
  forall (buf : list Z) (i size : Z) (w : world) (r : Z * list Z) (w' : world),
    read_size_loop fuel p buf i size w = Ret r w' ->
    errno w' = errno w \/ errno w' = EAGAIN.
Proof.
  induction fuel as [|fuel IH]; intros buf i size w r w' H; [discriminate|].
  cbn [read_size_loop] in H.
  apply bind_Ret in H. destruct H as [c [w1 [H1 H]]].
  apply read_char_errno in H1.
  apply bind_Ret in H. destruct H as [buf1 [w2 [H2 H]]].
  apply (keeps_lift_opt errno) in H2.
  assert (Hw2 : errno w2 = errno w \/ errno w2 = EAGAIN)
    by (destruct H1; [left|right]; congruence).
  destruct (c =? -1); [inversion H; subst; exact Hw2|].
  destruct (s16 (size - 1) =? 0); [inversion H; subst; exact Hw2|].
  apply IH in H. destruct H as [H|H]; [|now right].
  destruct Hw2; [left|right]; congruence.
Qed.

(** The read half of the size check: an exact-count read that finds
    errno different from EFBIG leaves it EFBIG exactly when the request
    exceeds rx_size_max, and then it has returned -1 with the caller's
    buffer and the rest of the world untouched. *)
Lemma exact_read_too_big_iff (fuel : nat) (p : fd_ref) (buf : list Z)
      (size : Z) (w w' : world) (r : Z * list Z) :
  0 < size -> errno w <> EFBIG ->
  _read_usb fuel p buf size w = Ret r w' ->
  (errno w' = EFBIG <-> rx_size_max (deref p w) < size) /\
  (rx_size_max (deref p w) < size ->
   r = (-1, buf) /\ w' = set_errno EFBIG w).
Proof.
  intros Hpos Hstale Hrun.
  destruct (exact_count_limit_checks fuel p buf size w Hpos) as [Hbig Hok].
  destruct (Z_lt_le_dec (rx_size_max (deref p w)) size) as [Hlt|Hle].
  - destruct (Hbig Hlt) as [Hr _]. rewrite Hr in Hrun.
    inversion Hrun; subst. repeat split; auto.
  - destruct (Hok Hle) as [Hr _]. rewrite Hr in Hrun.
    apply read_size_loop_errno in Hrun. split; [|lia].
    split; [|lia]. intros He.
    destruct Hrun as [H|H]; rewrite H in He; [contradiction|discriminate].
Qed.

(** The string loop never sets EMSGSIZE: the only error codes it can
    leave are the one it found, EAGAIN from the byte reader, and EFBIG at
    the limit. *)
Lemma read_str_loop_errno (fuel : nat) (p : fd_ref) :
  forall (buf : list Z) (i size : Z) (w : world) (r : Z * list Z) (w' : world),
    read_str_loop fuel p buf i size w = Ret r w' ->
    errno w' = errno w \/ errno w' = EAGAIN \/ errno w' = EFBIG.
Proof.
  induction fuel as [|fuel IH]; intros buf i size w r w' H; [discriminate|].
  cbn [read_str_loop] in H.
  apply bind_Ret in H. destruct H as [c [w1 [H1 H]]].
  apply read_char_errno in H1.
  assert (Hw1 : errno w1 = errno w \/ errno w1 = EAGAIN \/ errno w1 = EFBIG)
    by (destruct H1; auto).
  destruct (c =? -1); [inversion H; subst; exact Hw1|].
  apply bind_Ret in H. destruct H as [buf1 [w2 [H2 H]]].
  apply (keeps_lift_opt errno) in H2. rewrite <- H2 in Hw1.
  destruct (count_down size) as [size' full]. destruct full.
  - apply bind_Ret in H. destruct H as [buf2 [w3 [_ H]]].
    apply bind_Ret in H. destruct H as [[] [w4 [H4 H]]].
    inversion H4; subst. inversion H; subst. right. right. reflexivity.
  - destruct (c =? NUL); [inversion H; subst; exact Hw1|].
    apply IH in H. destruct H as [H|[H|H]]; auto.
    rewrite H. exact Hw1.
Qed.

(** A string-mode read that finds errno different from EMSGSIZE does not
    leave EMSGSIZE, whatever arrives and whatever the limit. *)
Lemma string_read_never_EMSGSIZE (fuel : nat) (p : fd_ref) (buf : list Z)
      (w w' : world) (r : Z * list Z) :
  errno w <> EMSGSIZE ->
  _read_usb fuel p buf STR_MODE w = Ret r w' ->
  errno w' <> EMSGSIZE.
Proof.
  intros Hstale Hrun. unfold _read_usb in Hrun.
  change (STR_MODE =? 0) with false in Hrun. cbv iota in Hrun.
  destruct (STR_MODE >? rx_size_max (deref p w)).
  { inversion Hrun; subst. discriminate. }
  change (STR_MODE <? STR_MODE) with false in Hrun.
  change (STR_MODE >? 0) with false in Hrun. cbv iota zeta in Hrun.
  change (s8 STR_MODE =? SIZE_MODE) with false in Hrun.
  change (s8 STR_MODE =? LINE_MODE) with false in Hrun.
  change (s8 STR_MODE =? STR_MODE) with true in Hrun. cbv iota in Hrun.
  apply read_str_loop_errno in Hrun.
  destruct Hrun as [H|[H|H]]; rewrite H; [exact Hstale|discriminate..].
Qed.

End ReadErrors.

(** * The foreground reader on the USB device *)

Section UsbReader.
Context {cfg : xio_config}.

Lemma usb_took_nil (w : world) : usb_open w -> usb_took [] w w.
Proof.
  intros Ho. split; try reflexivity; try assumption.
  destruct (ECHO_ENABLED (flags (fd_usb w))); cbn; now rewrite app_nil_r.
Qed.

Lemma usb_took_trans (k1 k2 : list Z) (w w1 w2 : world) :
  usb_took k1 w w1 -> usb_took k2 w1 w2 -> usb_took (k1 ++ k2) w w2.
Proof.
  intros [] []. split; try congruence.
  - rewrite <- app_assoc. congruence.
  - rewrite took_echo1, took_echo0, took_flags0, <- app_assoc. f_equal.
    destruct (ECHO_ENABLED (flags (fd_usb w))); [now rewrite map_app|reflexivity].
Qed.

(** One call of the byte reader on a ring that holds [c] first. *)
Lemma getc_takes (w : world) (c : Z) (q : list Z) :
  cfg_ok cfg -> usb_open w -> contents (fd_usb w) = c :: q ->
  exists w', _read_char_USART ref_usb w = Ret c w' /\ usb_took [c] w w'.
Proof.
  intros Hcfg [Hok Hu] Hc.
  assert (Hne : rx_buf_head (fd_usb w) <> rx_buf_tail (fd_usb w)).
  { intros He. apply (empty_contents _ Hok) in He. congruence. }
  destruct (read_char_usb_pop w Hcfg Hok Hne) as [c0 [Hget Hrd]].
  pose proof (popped_contents _ Hok Hne) as Hpop.
  rewrite Hget in Hpop. cbn [default] in Hpop. rewrite Hc in Hpop.
  inversion Hpop; subst c0. clear Hpop.
  rewrite Hrd. cbv zeta.
  assert (Hok' : ring_ok (popped (fd_usb w)))
    by (apply popped_ring_ok; [apply Hcfg|exact Hok]).
  destruct (ECHO_ENABLED (flags (fd_usb w))) eqn:He.
  - unfold _echo_to_console, _write_char_USART, bind, ret.
    cbn [deref fd_usb set_fd_usb popped usart set_rx_buf_tail].
    rewrite Hu. eexists. split; [reflexivity|].
    split; cbn; try reflexivity; try (now rewrite ?He);
      try congruence; now split.
  - eexists. split; [reflexivity|].
    split; cbn; try reflexivity; try (now rewrite ?He, ?app_nil_r);
      try congruence; now split.
Qed.

Lemma store_step (buf k' : list Z) (c : Z) (i n : nat) :
  (i < length buf)%nat ->
  take (S i) (<[i:=c]> buf) ++ k' ++ drop (S i + n) (<[i:=c]> buf)
  = take i buf ++ (c :: k') ++ drop (i + S n) buf.
Proof.
  intros Hi.
  rewrite (take_S_r _ i c) by (now apply list_lookup_insert_eq).
  rewrite take_insert_ge by lia. rewrite drop_insert_lt by lia.
  replace (S i + n)%nat with (i + S n)%nat by lia.
  rewrite <- app_assoc. reflexivity.
Qed.

Lemma array_set_nat (buf : list Z) (i : nat) (c : Z) :
  (i < length buf)%nat ->
  array_set buf (Z.of_nat i) c = Some (<[i:=c]> buf).
Proof.
  intros Hi. rewrite array_set_in_range by lia. now rewrite Nat2Z.id.
Qed.

(** The exact-count loop on a ring that holds the bytes it wants. *)
Lemma read_size_loop_takes (k : list Z) :
  forall (fuel : nat) (buf : list Z) (i : nat) (w : world) (rest : list Z),
    cfg_ok cfg -> usb_open w ->
    contents (fd_usb w) = k ++ rest ->
    k <> [] -> Forall plain k ->
    (length k <= fuel)%nat -> (i + length k <= length buf)%nat ->
    Z.of_nat (length k) <= 32767 ->
    exists w',
      read_size_loop fuel ref_usb buf (Z.of_nat i) (Z.of_nat (length k)) w
      = Ret (Z.of_nat (i + length k),
             take i buf ++ k ++ drop (i + length k) buf) w' /\
      usb_took k w w'.
Proof.
  induction k as [|c k IH]; intros fuel buf i w rest Hcfg Ho Hc Hne Hpl Hfuel
                                   Hbuf Hmax; [contradiction|].
  destruct fuel as [|fuel]; [cbn in Hfuel; lia|].
  inversion Hpl as [|? ? Hc1 Hpl']; subst.
  destruct (getc_takes w c (k ++ rest) Hcfg Ho Hc) as [w1 [Hrd Ht1]].
  cbn [read_size_loop]. unfold bind at 1. rewrite Hrd.
  unfold bind at 1. cbn [length] in Hbuf.
  rewrite array_set_nat by lia. cbn [lift_opt]. unfold ret at 1.
  unfold plain in Hc1. destruct (Z.eqb_spec c (-1)); [contradiction|].
  cbn [length] in *. rewrite s16_small by lia.
  destruct k as [|c' k'].
  - cbn [length]. change (Z.of_nat 1 - 1 =? 0) with true. cbv iota.
    exists w1. split; [|exact Ht1].
    unfold ret. f_equal. f_equal; [lia|].
    rewrite (insert_take_drop buf i c) by lia. cbn. do 2 f_equal. f_equal. lia.
  - destruct (Z.eqb_spec (Z.of_nat (S (length (c' :: k'))) - 1) 0);
      [cbn [length] in *; lia|].
    assert (Hc' : contents (fd_usb w1) = (c' :: k') ++ rest).
    { pose proof (took_contents _ _ _ Ht1) as H1. rewrite Hc in H1.
      cbn in H1. now inversion H1. }
    destruct (IH fuel (<[i:=c]> buf) (S i) w1 rest Hcfg
                 (took_open _ _ _ Ht1) Hc')
      as [w' [Hrun Ht2]];
      [discriminate|exact Hpl'|lia|rewrite length_insert; lia|lia|].
    exists w'. split.
    + replace (Z.of_nat i + 1) with (Z.of_nat (S i)) by lia.
      replace (Z.of_nat (S (length (c' :: k'))) - 1)
        with (Z.of_nat (length (c' :: k'))) by lia.
      rewrite Hrun. f_equal. f_equal; [lia|].
      apply store_step. lia.
    + exact (usb_took_trans [c] (c' :: k') w w1 w' Ht1 Ht2).
Qed.



Lemma count_down_reached :
  cfg_ok cfg -> count_down 1 = (0, true).
Proof.
  intros Hcfg. pose proof (no_limit_range _ Hcfg) as Hr. unfold count_down.
  destruct (Z.eqb_spec 1 NO_LIMIT); [lia|]. reflexivity.
Qed.

Lemma count_down_above_one (size : Z) :
  cfg_ok cfg -> 1 < size <= 32767 ->
  count_down size = (size - 1, false).
Proof.
  intros Hcfg Hs. pose proof (no_limit_range _ Hcfg) as Hr. unfold count_down.
  destruct (Z.eqb_spec size NO_LIMIT); [lia|]. cbn [negb].
  rewrite s16_small by lia.
  destruct (Z.eqb_spec (size - 1) 0); [lia|]. reflexivity.
Qed.


(** One pass of the line loop over a char that is stored. *)
Lemma read_line_loop_pass (fuel : nat) (buf : list Z) (i : nat) (size : Z)
      (w w1 : world) (c : Z) :
  _read_char_USART ref_usb w = Ret c w1 -> c <> -1 ->
  (i < length buf)%nat ->
  read_line_loop (S fuel) ref_usb buf (Z.of_nat i) size w =
    let buf1 := <[i:=c]> buf in
    let '(size', full) := count_down size in
    if full then
      (buf2 <- lift_opt (array_set buf1 (Z.of_nat i + 1) NUL) ;;
       modify (set_errno EMSGSIZE) ;;; ret (-1, buf2)) w1
    else if is_delimiter c then
      (buf2 <- lift_opt (array_set buf1 (Z.of_nat i + 1) NUL) ;;
       ret (Z.of_nat i + 1, buf2)) w1
    else if c =? NUL then Ret (Z.of_nat i + 1, buf1) w1
    else read_line_loop fuel ref_usb buf1 (Z.of_nat i + 1) size' w1.
Proof.
  intros Hrd Hc Hi. cbn [read_line_loop]. unfold bind at 1. rewrite Hrd.
  destruct (Z.eqb_spec c (-1)); [contradiction|].
  unfold bind at 1. rewrite array_set_nat by exact Hi. cbn [lift_opt].
  unfold ret at 1. cbv zeta.
  destruct (count_down size) as [size' full].
  destruct full; [reflexivity|].
  destruct (is_delimiter c); [reflexivity|].
  destruct (c =? NUL); reflexivity.
Qed.


Lemma store_two (buf : list Z) (c : Z) (i : nat) :
  (S i < length buf)%nat ->
  <[S i := NUL]> (<[i:=c]> buf)
  = take i buf ++ [c; NUL] ++ drop (i + 2) buf.
Proof.
  intros Hi.
  rewrite (insert_take_drop (<[i:=c]> buf) (S i) NUL)
    by (rewrite length_insert; lia).
  rewrite (take_S_r _ i c) by (apply list_lookup_insert_eq; lia).
  rewrite take_insert_ge by lia. rewrite drop_insert_lt by lia.
  rewrite <- app_assoc. cbn. replace (i + 2)%nat with (S (S i)) by lia.
  reflexivity.
Qed.



Lemma store_last (buf k : list Z) (c : Z) (i : nat) :
  (i < length buf)%nat ->
  <[i:=c]> buf = take i buf ++ [c] ++ drop (i + 0 + 1) buf.
Proof.
  intros Hi. rewrite (insert_take_drop buf i c) by lia.
  replace (i + 0 + 1)%nat with (S i) by lia. reflexivity.
Qed.



(** The line loop that meets its limit: with a limit of [length k] it
    takes the bytes [k], stores them and a NUL, and returns -1 with
    EMSGSIZE, whatever the last byte is. *)
Lemma read_line_loop_limit (s : list Z) :
  forall (fuel : nat) (buf : list Z) (i : nat) (w : world)
         (c : Z) (rest : list Z),
    cfg_ok cfg -> usb_open w ->
    contents (fd_usb w) = s ++ c :: rest ->
    Forall in_line s -> c <> -1 ->
    Z.of_nat (S (length s)) <= 32767 ->
    (length s < fuel)%nat -> (i + length s + 2 <= length buf)%nat ->
    exists w',
      read_line_loop fuel ref_usb buf (Z.of_nat i)
                     (Z.of_nat (S (length s))) w
      = Ret (-1, take i buf ++ (s ++ [c; NUL])
                      ++ drop (i + length s + 2) buf)
            (set_errno EMSGSIZE w') /\
      usb_took (s ++ [c]) w w'.
Proof.
  induction s as [|c0 s IH]; intros fuel buf i w c rest Hcfg Ho Hc Hin Hpl
                                    Hmax Hfuel Hbuf;
    (destruct fuel as [|fuel]; [cbn in Hfuel; lia|]); cbn [length] in *.
  - destruct (getc_takes w c rest Hcfg Ho Hc) as [w1 [Hrd Ht1]].
    rewrite (read_line_loop_pass _ _ _ _ _ _ _ Hrd Hpl) by lia. cbv zeta.
    change (Z.of_nat 1) with 1. rewrite (count_down_reached Hcfg).
    unfold bind at 1.
    replace (Z.of_nat i + 1) with (Z.of_nat (S i)) by lia.
    rewrite array_set_nat by (rewrite length_insert; lia).
    cbn [lift_opt]. unfold ret, bind, modify. exists w1. split; [|exact Ht1].
    f_equal. f_equal.
    replace (i + 0 + 2)%nat with (i + 2)%nat by lia.
    apply store_two. lia.
  - inversion Hin as [|? ? [Hc1 [Hc2 Hc3]] Hin']; subst.
    destruct (getc_takes w c0 (s ++ c :: rest) Hcfg Ho Hc) as [w1 [Hrd Ht1]].
    rewrite (read_line_loop_pass _ _ _ _ _ _ _ Hrd Hc1) by lia. cbv zeta.
    rewrite count_down_above_one by (auto; lia).
    rewrite Hc3. destruct (Z.eqb_spec c0 NUL); [contradiction|].
    assert (Hc' : contents (fd_usb w1) = s ++ c :: rest).
    { pose proof (took_contents _ _ _ Ht1) as H1. rewrite Hc in H1.
      cbn in H1. now inversion H1. }
    replace (Z.of_nat i + 1) with (Z.of_nat (S i)) by lia.
    replace (Z.of_nat (S (S (length s))) - 1)
      with (Z.of_nat (S (length s))) by lia.
    destruct (IH fuel (<[i:=c0]> buf) (S i) w1 c rest Hcfg
                 (took_open _ _ _ Ht1) Hc' Hin' Hpl)
      as [w' [Hrun Ht2]]; [lia|lia|rewrite length_insert; lia|].
    exists w'. split.
    + rewrite Hrun. f_equal. f_equal.
      replace (S i + length s + 2)%nat with (S i + (length s + 2))%nat by lia.
      replace (i + S (length s) + 2)%nat with (i + S (length s + 2))%nat by lia.
      replace (length s + 2)%nat with (length (s ++ [c; NUL]))
        by (rewrite length_app; cbn; lia).
      apply store_step. lia.
    + exact (usb_took_trans [c0] (s ++ [c]) w w1 w' Ht1 Ht2).
Qed.

(** The exact-count loop that meets the byte 0xFF: the byte is taken,
    stored as -1, and the loop returns -1 with errno as it was. *)
Lemma read_size_loop_0xFF (s : list Z) :
  forall (fuel : nat) (buf : list Z) (i : nat) (size : Z) (w : world)
         (rest : list Z),
    cfg_ok cfg -> usb_open w ->
    contents (fd_usb w) = s ++ (-1) :: rest ->
    Forall plain s ->
    Z.of_nat (length s) < size <= 32767 ->
    (length s < fuel)%nat -> (i + length s + 1 <= length buf)%nat ->
    exists w',
      read_size_loop fuel ref_usb buf (Z.of_nat i) size w
      = Ret (-1, take i buf ++ (s ++ [-1])
                      ++ drop (i + length s + 1) buf) w' /\
      usb_took (s ++ [-1]) w w'.
Proof.
  induction s as [|c s IH]; intros fuel buf i size w rest Hcfg Ho Hc Hpl
                                   Hsz Hfuel Hbuf;
    (destruct fuel as [|fuel]; [cbn in Hfuel; lia|]); cbn [length] in *.
  - destruct (getc_takes w (-1) rest Hcfg Ho Hc) as [w1 [Hrd Ht1]].
    cbn [read_size_loop]. unfold bind at 1. rewrite Hrd.
    unfold bind at 1. rewrite array_set_nat by lia. cbn [lift_opt].
    unfold ret. change (-1 =? -1) with true. cbv iota.
    exists w1. split; [|exact Ht1].
    f_equal. f_equal. apply (store_last buf []). lia.
  - inversion Hpl as [|? ? Hc1 Hpl']; subst.
    destruct (getc_takes w c (s ++ (-1) :: rest) Hcfg Ho Hc) as [w1 [Hrd Ht1]].
    cbn [read_size_loop]. unfold bind at 1. rewrite Hrd.
    unfold bind at 1. rewrite array_set_nat by lia. cbn [lift_opt].
    unfold ret at 1. unfold plain in Hc1.
    destruct (Z.eqb_spec c (-1)); [contradiction|].
    rewrite s16_small by lia.
    destruct (Z.eqb_spec (size - 1) 0); [lia|].
    assert (Hc' : contents (fd_usb w1) = s ++ (-1) :: rest).
    { pose proof (took_contents _ _ _ Ht1) as H1. rewrite Hc in H1.
      cbn in H1. now inversion H1. }
    replace (Z.of_nat i + 1) with (Z.of_nat (S i)) by lia.
    destruct (IH fuel (<[i:=c]> buf) (S i) (size - 1) w1 rest Hcfg
                 (took_open _ _ _ Ht1) Hc' Hpl')
      as [w' [Hrun Ht2]]; [lia|lia|rewrite length_insert; lia|].
    exists w'. split.
    + rewrite Hrun. f_equal. f_equal.
      replace (S i + length s + 1)%nat with (S i + (length s + 1))%nat by lia.
      replace (i + S (length s) + 1)%nat with (i + S (length s + 1))%nat by lia.
      replace (length s + 1)%nat with (length (s ++ [-1]))
        by (rewrite length_app; cbn; lia).
      apply store_step. lia.
    + exact (usb_took_trans [c] (s ++ [-1]) w w1 w' Ht1 Ht2).
Qed.

End UsbReader.

Section BulkReadResults.
Context {cfg : xio_config}.

(** X1. An exact-count read on the opened USB device whose ring holds at
    least the requested number of bytes, none of them 0xFF (the char -1),
    returns the request, puts the oldest bytes in arrival order at the
    front of the caller's buffer and leaves the remaining bytes in the
    ring; with the echo flag set the bytes read go out on USARTC0. *)
Theorem exact_read_returns_oldest_bytes
        (fuel : nat) (buf k rest : list Z) (w : world) :
  cfg_ok cfg -> usb_open w ->
  contents (fd_usb w) = k ++ rest ->
  k <> [] -> Forall plain k ->
  Z.of_nat (length k) <= rx_size_max (fd_usb w) ->
  Z.of_nat (length k) <= 32767 ->
  (length k <= fuel)%nat -> (length k <= length buf)%nat ->
  exists w',
    xio_read fuel FD_USB buf (Z.of_nat (length k)) w
    = Ret (Z.of_nat (length k), k ++ drop (length k) buf) w' /\
    usb_took k w w'.
Proof.
  intros Hcfg Ho Hc Hne Hpl Hlim Hmax Hfuel Hbuf.
  change (xio_read fuel FD_USB buf (Z.of_nat (length k)) w)
    with (_read_usb fuel ref_usb buf (Z.of_nat (length k)) w).
  assert (Hpos : 0 < Z.of_nat (length k)) by (destruct k; [contradiction|cbn; lia]).
  destruct (exact_count_limit_checks fuel ref_usb buf _ w Hpos) as [_ Hin].
  rewrite (proj1 (Hin Hlim)).
  destruct (read_size_loop_takes k fuel buf 0%nat w rest Hcfg Ho Hc Hne Hpl)
    as [w' [Hrun Ht]]; [lia..|].
  exists w'. split; [|exact Ht]. exact Hrun.
Qed.



(** X4. A line-mode read whose limit is reached returns -1 with EMSGSIZE
    after it has taken exactly [rx_size_max] bytes out of the ring and
    stored them with a NUL behind them.  The limit is tested before the
    delimiter: a complete line whose delimiter is the byte that reaches
    the limit is reported as too long all the same. *)
Theorem line_read_at_limit
        (fuel : nat) (buf s rest : list Z) (c : Z) (w : world) :
  cfg_ok cfg -> usb_open w ->
  contents (fd_usb w) = s ++ c :: rest ->
  Forall in_line s -> c <> -1 ->
  rx_size_max (fd_usb w) = Z.of_nat (S (length s)) ->
  Z.of_nat (S (length s)) <= 32767 ->
  (length s < fuel)%nat -> (length s + 2 <= length buf)%nat ->
  exists w',
    xio_read fuel FD_USB buf LINE_MODE w
    = Ret (-1, (s ++ [c; NUL]) ++ drop (length s + 2) buf)
          (set_errno EMSGSIZE w') /\
    usb_took (s ++ [c]) w w'.
Proof.
  intros Hcfg Ho Hc Hin Hpl Hlim Hmax Hfuel Hbuf.
  change (xio_read fuel FD_USB buf LINE_MODE w)
    with (_read_usb fuel ref_usb buf LINE_MODE w).
  rewrite read_usb_dispatch
    by (unfold LINE_MODE, STR_MODE in *; cbn [deref]; lia).
  change (LINE_MODE >? 0) with false. change (LINE_MODE =? LINE_MODE) with true.
  cbv iota. cbn [deref]. rewrite Hlim.
  destruct (read_line_loop_limit s fuel buf 0%nat w c rest Hcfg Ho Hc Hin Hpl
              Hmax) as [w' [Hrun Hk]]; [lia..|].
  exists w'. split; [|exact Hk]. exact Hrun.
Qed.

(** X5. The byte 0xFF cannot be read: an exact-count read that meets it
    takes it out of the ring, stores it, and returns -1 without touching
    errno, although more bytes were asked for and wait in the ring. *)
Theorem exact_read_stops_at_0xFF
        (fuel : nat) (buf s rest : list Z) (size : Z) (w : world) :
  cfg_ok cfg -> usb_open w ->
  contents (fd_usb w) = s ++ (-1) :: rest ->
  Forall plain s ->
  Z.of_nat (length s) < size -> size <= rx_size_max (fd_usb w) ->
  size <= 32767 ->
  (length s < fuel)%nat -> (length s + 1 <= length buf)%nat ->
  exists w',
    xio_read fuel FD_USB buf size w
    = Ret (-1, (s ++ [-1]) ++ drop (length s + 1) buf) w' /\
    usb_took (s ++ [-1]) w w' /\
    errno w' = errno w /\ contents (fd_usb w') = rest.
Proof.
  intros Hcfg Ho Hc Hpl Hsz Hlim Hmax Hfuel Hbuf.
  change (xio_read fuel FD_USB buf size w)
    with (_read_usb fuel ref_usb buf size w).
  assert (Hpos : 0 < size) by lia.
  destruct (exact_count_limit_checks fuel ref_usb buf _ w Hpos) as [_ Hin].
  rewrite (proj1 (Hin Hlim)).
  destruct (read_size_loop_0xFF s fuel buf 0%nat size w rest Hcfg Ho Hc Hpl)
    as [w' [Hrun Hk]]; [lia..|].
  exists w'. split; [exact Hrun|]. split; [exact Hk|].
  split; [exact (took_errno _ _ _ Hk)|].
  pose proof (took_contents _ _ _ Hk) as H1. rewrite Hc in H1.
  rewrite <- app_assoc in H1. cbn in H1.
  apply app_inv_head in H1. now inversion H1.
Qed.

End BulkReadResults.

Section Blocking.
Context {cfg : xio_config}.

Lemma read_char_nonempty (p : fd_ref) (w : world) :
  rx_buf_head (deref p w) <> rx_buf_tail (deref p w) ->
  _read_char_USART p w = rx_take p w.
Proof.
  intros Hne. unfold _read_char_USART. now rewrite rx_wait_nonempty.
Qed.

(** The wait loop of a blocking reader whose ring is empty: the USB
    receive interrupt ends it after one sleep, with that byte alone in
    the ring. *)
Lemma rx_wait_wakes (w : world) (d : Z) (rest : list irq) :
  cfg_ok cfg -> 3 <= USART_RX_BUFSIZE ->
  usb_open w -> ring_empty (fd_usb w) ->
  BLOCKING_ENABLED (flags (fd_usb w)) = true ->
  exists w1,
    rx_wait ref_usb (USARTC0_RXC d :: rest) w = Ret true w1 /\
    usb_open w1 /\ contents (fd_usb w1) = [s8 d] /\
    flags (fd_usb w1) = flags (fd_usb w) /\
    sleeps w1 = S (sleeps w) /\
    pending w1 = rest /\ errno w1 = errno w /\
    usartc0 w1 = usartc0 w.
Proof.
  intros Hcfg HC [Hok Hu] He Hb.
  cbn [rx_wait deref]; unfold ring_empty in He;
    rewrite He, Z.eqb_refl, Hb; cbn [negb serve].
  unfold ISR_USB_RX.
  rewrite rx_isr_pushed;
    [|exact Hcfg|exact Hok|cbn; rewrite Hu; discriminate].
  cbn [deref assign fd_usb set_pending set_sleeps set_fd_usb].
  set (w1 := set_fd_usb _ _).
  assert (Hc1 : contents (fd_usb w1) = [s8 d]).
  { subst w1. cbn [fd_usb set_fd_usb].
    rewrite pushed_contents by (auto; apply Hcfg).
    rewrite (proj1 (empty_contents _ Hok) He). unfold fifo_push.
    cbn [length]. destruct (Z.ltb_spec (Z.of_nat 0) (USART_RX_BUFSIZE - 2));
      [reflexivity|lia]. }
  assert (Hok1 : ring_ok (fd_usb w1))
    by (apply pushed_ring_ok; [apply Hcfg|exact Hok]).
  assert (Hne : rx_buf_head (deref ref_usb w1) <> rx_buf_tail (deref ref_usb w1)).
  { intros Hx. apply (empty_contents _ Hok1) in Hx. cbn [deref] in Hx.
    congruence. }
  rewrite rx_wait_nonempty by exact Hne.
  exists w1. split; [reflexivity|]. split.
  { split; [exact Hok1|]. subst w1. cbn. unfold pushed. cbv zeta.
    now destruct (advance (rx_buf_head (fd_usb w)) =? rx_buf_tail (fd_usb w)). }
  split; [exact Hc1|]. split.
  { subst w1. cbn. unfold pushed. cbv zeta.
    now destruct (advance (rx_buf_head (fd_usb w)) =? rx_buf_tail (fd_usb w)). }
  subst w1. cbn. repeat split.
Qed.

(** X6. A blocking single-character read on an empty ring sleeps until a
    byte arrives for it.  With the USB receive interrupt next it sleeps
    once and returns the byte of that interrupt; the ring is empty again,
    errno is untouched and the later interrupts are still to come.  There
    is no timeout: with no interrupt to come the call never returns. *)
Theorem blocking_getc_sleeps_until_its_byte (w : world) :
  cfg_ok cfg -> 3 <= USART_RX_BUFSIZE ->
  usb_open w -> ring_empty (fd_usb w) ->
  BLOCKING_ENABLED (flags (fd_usb w)) = true ->
  (pending w = [] -> _read_char_USART ref_usb w = Blocked) /\
  (forall d rest,
      pending w = USARTC0_RXC d :: rest ->
      exists w',
        _read_char_USART ref_usb w = Ret (s8 d) w' /\
        sleeps w' = S (sleeps w) /\
        pending w' = rest /\
        ring_empty (fd_usb w') /\
        errno w' = errno w).
Proof.
  intros Hcfg HC Ho He Hb. split.
  - intros Hp. unfold _read_char_USART. rewrite Hp.
    now rewrite rx_wait_sleeps_forever.
  - intros d rest Hp.
    destruct (rx_wait_wakes w d rest Hcfg HC Ho He Hb)
      as [w1 [Hrun [Ho1 [Hc1 [Hf1 [Hs1 [Hp1 [He1 Hx1]]]]]]]].
    destruct (getc_takes w1 (s8 d) [] Hcfg Ho1 Hc1) as [w' [Hrd Ht]].
    assert (Hne : rx_buf_head (deref ref_usb w1)
                  <> rx_buf_tail (deref ref_usb w1)).
    { intros Hx. apply (empty_contents _ (open_ring _ Ho1)) in Hx.
      cbn [deref] in Hx. congruence. }
    rewrite (read_char_nonempty ref_usb w1 Hne) in Hrd.
    exists w'. split.
    + unfold _read_char_USART. rewrite Hp, Hrun. exact Hrd.
    + pose proof (took_contents _ _ _ Ht) as Hc. rewrite Hc1 in Hc.
      split; [rewrite (took_sleeps _ _ _ Ht); exact Hs1|].
      split; [rewrite (took_pending _ _ _ Ht); exact Hp1|].
      split; [|rewrite (took_errno _ _ _ Ht); exact He1].
      apply (empty_contents _ (open_ring _ (took_open _ _ _ Ht))).
      destruct (contents (fd_usb w')); [reflexivity|discriminate].
Qed.

End Blocking.

Section Capacity.
Context {cfg : xio_config}.

Lemma take_take_app (n : nat) (a b : list Z) :
  take n (take n a ++ b) = take n (a ++ b).
Proof.
  destruct (Nat.le_gt_cases (length a) n) as [Hle|Hgt].
  - now rewrite (take_ge a n) by exact Hle.
  - rewrite take_app_le by (rewrite length_take; lia).
    rewrite take_take, Nat.min_id.
    now rewrite (take_app_le a b n) by lia.
Qed.

Lemma fifo_push_take (c : Z) (q : list Z) :
  (length q <= Z.to_nat (USART_RX_BUFSIZE - 2))%nat ->
  fifo_push c q = take (Z.to_nat (USART_RX_BUFSIZE - 2)) (q ++ [c]).
Proof.
  intros Hq. unfold fifo_push.
  destruct (Z.ltb_spec (Z.of_nat (length q)) (USART_RX_BUFSIZE - 2)).
  - rewrite take_ge; [reflexivity|]. rewrite length_app. cbn. lia.
  - rewrite take_app_le by lia. rewrite take_ge by lia. reflexivity.
Qed.

Lemma contents_bounded (f : fdUSART) :
  ring_ok f -> (length (contents f) <= Z.to_nat (USART_RX_BUFSIZE - 2))%nat.
Proof.
  intros Hok. pose proof (contents_length f Hok) as Hl.
  pose proof (gap_range _ _ (head_ok _ Hok) (tail_ok _ Hok)) as Hr.
  unfold occupancy in Hl. lia.
Qed.

(** The ring after the USB receive interrupt has run for each of [bs]. *)
Lemma usb_receive_contents (bs : list Z) :
  forall w : world,
    cfg_ok cfg -> usb_open w ->
    exists w',
      run_usb (map Rx bs) w = Ret [] w' /\
      contents (fd_usb w')
      = take (Z.to_nat (USART_RX_BUFSIZE - 2))
             (contents (fd_usb w) ++ map s8 bs) /\
      usb_open w' /\
      rx_buf_tail (fd_usb w') = rx_buf_tail (fd_usb w) /\
      flags (fd_usb w') = flags (fd_usb w) /\
      rx_size_max (fd_usb w') = rx_size_max (fd_usb w) /\
      errno w' = errno w /\ sleeps w' = sleeps w.
Proof.
  induction bs as [|b bs IH]; intros w Hcfg [Hok Hu].
  - exists w. split; [reflexivity|]. rewrite app_nil_r.
    rewrite take_ge by (now apply contents_bounded).
    split; [reflexivity|]. split; [now split|]. repeat split.
  - cbn [map run_usb]. unfold bind at 1, ISR_USB_RX.
    rewrite rx_isr_pushed; [|exact Hcfg|exact Hok|cbn; rewrite Hu; discriminate].
    cbn [deref assign].
    set (w1 := set_fd_usb (pushed (s8 b) (fd_usb w)) w).
    assert (Hkeep : usart (fd_usb w1) = usart (fd_usb w) /\
                    rx_buf_tail (fd_usb w1) = rx_buf_tail (fd_usb w) /\
                    flags (fd_usb w1) = flags (fd_usb w) /\
                    rx_size_max (fd_usb w1) = rx_size_max (fd_usb w)).
    { subst w1. cbn [fd_usb set_fd_usb]. unfold pushed. cbv zeta.
      destruct (advance (rx_buf_head (fd_usb w)) =? rx_buf_tail (fd_usb w));
        repeat split. }
    destruct Hkeep as [K1 [K2 [K3 K4]]].
    assert (K5 : errno w1 = errno w) by reflexivity.
    assert (K6 : sleeps w1 = sleeps w) by reflexivity.
    assert (Ho1 : usb_open w1).
    { split; [apply pushed_ring_ok; [apply Hcfg|exact Hok]|congruence]. }
    destruct (IH w1 Hcfg Ho1) as [w' [Hrun [Hc [Ho' [Ht [Hf [Hm [He Hs]]]]]]]].
    exists w'. split; [exact Hrun|]. split.
    + rewrite Hc. subst w1. cbn [fd_usb set_fd_usb].
      rewrite pushed_contents by (auto; apply Hcfg).
      rewrite fifo_push_take by (now apply contents_bounded).
      rewrite take_take_app, <- app_assoc. reflexivity.
    + split; [exact Ho'|]. repeat split; congruence.
Qed.

(** X7. The ring holds USART_RX_BUFSIZE-2 bytes and no more.  After the
    USB receive interrupt has run for the bytes [bs], the ring holds what
    it held before followed by the new bytes, cut off after
    USART_RX_BUFSIZE-2 bytes: the bytes that found the ring full are lost,
    and none of those interrupts has moved the tail or set errno. *)
Theorem ring_keeps_the_first_bytes (bs : list Z) (w : world) :
  cfg_ok cfg -> usb_open w ->
  exists w',
    run_usb (map Rx bs) w = Ret [] w' /\
    contents (fd_usb w')
    = take (Z.to_nat (USART_RX_BUFSIZE - 2))
           (contents (fd_usb w) ++ map s8 bs) /\
    usb_open w' /\
    rx_buf_tail (fd_usb w') = rx_buf_tail (fd_usb w) /\
    flags (fd_usb w') = flags (fd_usb w) /\
    rx_size_max (fd_usb w') = rx_size_max (fd_usb w) /\
    errno w' = errno w /\ sleeps w' = sleeps w.
Proof. apply usb_receive_contents. Qed.

(** X8. Receive, then read: from an empty ring, bytes that arrive (at
    most USART_RX_BUFSIZE-2 of them, none 0xFF) and are then asked for by
    an exact-count read come back in the caller's buffer in the order of
    their arrival, and the ring is empty again. *)
Theorem received_bytes_are_read_back
        (fuel : nat) (buf bs : list Z) (w : world) :
  cfg_ok cfg -> usb_open w -> ring_empty (fd_usb w) ->
  bs <> [] -> Forall plain (map s8 bs) ->
  Z.of_nat (length bs) <= USART_RX_BUFSIZE - 2 ->
  Z.of_nat (length bs) <= rx_size_max (fd_usb w) ->
  (length bs <= fuel)%nat -> (length bs <= length buf)%nat ->
  exists w',
    (run_usb (map Rx bs) ;;;
     xio_read fuel FD_USB buf (Z.of_nat (length bs))) w
    = Ret (Z.of_nat (length bs), map s8 bs ++ drop (length bs) buf) w' /\
    ring_empty (fd_usb w') /\ errno w' = errno w.
Proof.
  intros Hcfg Ho He Hne Hpl Hcap Hlim Hfuel Hbuf.
  destruct (usb_receive_contents bs w Hcfg Ho)
    as [w1 [Hrun [Hc [Ho1 [Ht [Hf [Hm [He1 Hs]]]]]]]].
  rewrite (proj1 (empty_contents _ (open_ring _ Ho)) He) in Hc.
  cbn [app] in Hc. rewrite take_ge in Hc by (rewrite length_map; lia).
  pose proof (bufsize_hi _ Hcfg) as Hhi.
  destruct (read_size_loop_takes (map s8 bs) fuel buf 0%nat w1 [] Hcfg Ho1)
    as [w' [Hrd Hk]];
    rewrite ?length_map; try lia; try assumption.
  - now rewrite app_nil_r.
  - destruct bs; [contradiction|discriminate].
  - unfold bind. rewrite Hrun. rewrite length_map in Hrd.
    change (xio_read fuel FD_USB buf (Z.of_nat (length bs)) w1)
      with (_read_usb fuel ref_usb buf (Z.of_nat (length bs)) w1).
    assert (Hpos : 0 < Z.of_nat (length bs))
      by (destruct bs; [contradiction|cbn; lia]).
    destruct (exact_count_limit_checks fuel ref_usb buf _ w1 Hpos) as [_ Hin].
    rewrite (proj1 (Hin ltac:(cbn [deref]; lia))).
    exists w'. split; [exact Hrd|]. split.
    + apply (empty_contents _ (open_ring _ (took_open _ _ _ Hk))).
      pose proof (took_contents _ _ _ Hk) as H1. rewrite Hc in H1.
      rewrite <- (app_nil_r (map s8 bs)) in H1 at 1.
      apply app_inv_head in H1. congruence.
    + rewrite (took_errno _ _ _ Hk). exact He1.
Qed.

End Capacity.

Section Discipline.
Context {cfg : xio_config}.

(** X9. The producer side of the single-producer/single-consumer
    discipline: a receive interrupt that returns has moved no tail, has
    left the other device's control block, the flags and limits of its
    own, errno, the sleep count and the transmit side as they were. *)
Theorem interrupt_never_moves_a_tail (q : irq) (w w' : world) :
  serve q w = Ret tt w' ->
  rx_buf_tail (fd_usb w') = rx_buf_tail (fd_usb w) /\
  rx_buf_tail (fd_rs485 w') = rx_buf_tail (fd_rs485 w) /\
  flags (fd_usb w') = flags (fd_usb w) /\
  flags (fd_rs485 w') = flags (fd_rs485 w) /\
  rx_size_max (fd_usb w') = rx_size_max (fd_usb w) /\
  match q with
  | USARTC0_RXC _ => fd_rs485 w' = fd_rs485 w
  | USARTC1_RXC _ => fd_usb w' = fd_usb w
  end /\
  errno w' = errno w /\ sleeps w' = sleeps w /\ pending w' = pending w /\
  usartc0 w' = usartc0 w /\ usartc1 w' = usartc1 w /\ portc w' = portc w.
Proof.
  intros H. destruct q as [d|d]; cbn [serve] in H;
    unfold ISR_USB_RX, ISR_USARTC1_RXC, rx_isr in H; cbv zeta in H;
    cbn [deref assign] in H;
    repeat match type of H with
           | context [if ?c then _ else _] => destruct c
           | context [match ?o with Some _ => _ | None => _ end] => destruct o
           end;
    inversion H; repeat split.
Qed.

(** X10. The consumer side: a single-character read that returns without
    an interrupt in between (none is pending) has moved no head and has
    changed no byte of either ring, no flag and no limit, and has not
    slept. *)
Theorem reader_never_moves_a_head (p : fd_ref) (w w' : world) (c : Z) :
  pending w = [] ->
  _read_char_USART p w = Ret c w' ->
  rx_buf_head (fd_usb w') = rx_buf_head (fd_usb w) /\
  rx_buf_head (fd_rs485 w') = rx_buf_head (fd_rs485 w) /\
  rx_buf (fd_usb w') = rx_buf (fd_usb w) /\
  rx_buf (fd_rs485 w') = rx_buf (fd_rs485 w) /\
  flags (fd_usb w') = flags (fd_usb w) /\
  flags (fd_rs485 w') = flags (fd_rs485 w) /\
  rx_size_max (fd_usb w') = rx_size_max (fd_usb w) /\
  sleeps w' = sleeps w /\ pending w' = [].
Proof.
  intros Hp H. unfold _read_char_USART in H. rewrite Hp in H.
  cbn [rx_wait] in H.
  destruct (rx_buf_head (deref p w) =? rx_buf_tail (deref p w)).
  - destruct (BLOCKING_ENABLED (flags (deref p w))); cbn [negb] in H;
      [discriminate|].
    inversion H; subst. cbn. repeat split. exact Hp.
  - unfold rx_take in H. cbv zeta in H.
    match type of H with
    | context [match ?o with Some _ => _ | None => _ end] =>
        destruct o as [c0|]; [|discriminate]
    end.
    match type of H with
    | context [if ECHO_ENABLED ?f then _ else _] => destruct (ECHO_ENABLED f)
    end.
    + unfold _echo_to_console, _write_char_USART, bind, ret in H.
      match type of H with
      | context [match usart ?f with Some _ => _ | None => _ end] =>
          destruct (usart f) as [[|]|]; [| |discriminate]
      end;
        inversion H; subst;
        destruct (u8 (rx_buf_tail (deref p w) - 1) =? 0); destruct p; cbn;
        repeat split; exact Hp.
    + inversion H; subst.
      destruct (u8 (rx_buf_tail (deref p w) - 1) =? 0); destruct p; cbn;
        repeat split; exact Hp.
Qed.

End Discipline.

(** * The writer on the USB device *)

Section UsbWriter.
Context {cfg : xio_config}.

Lemma usb_sent_nil (w : world) : usb_sent [] w w.
Proof. split; try reflexivity. cbn. now rewrite app_nil_r. Qed.

Lemma usb_sent_trans (k1 k2 : list Z) (w w1 w2 : world) :
  usb_sent k1 w w1 -> usb_sent k2 w1 w2 -> usb_sent (k1 ++ k2) w w2.
Proof.
  intros [] []. split; try congruence.
  rewrite sent_tx1, sent_tx0, map_app, app_assoc. reflexivity.
Qed.

Lemma usb_sent_errno (e : errno_t) (k : list Z) (w w' : world) :
  usb_sent k w w' ->
  DATA_tx (usartc0 (set_errno e w')) = DATA_tx (usartc0 w) ++ map u8 k /\
  fd_usb (set_errno e w') = fd_usb w /\ errno (set_errno e w') = e.
Proof. intros []. cbn. repeat split; assumption. Qed.

(** One call of the byte writer. *)
Lemma putc_sends (w : world) (c : Z) :
  usart (fd_usb w) = Some USARTC0 ->
  exists w', _write_char_USART ref_usb c w = Ret c w' /\ usb_sent [c] w w'.
Proof.
  intros Hu. unfold _write_char_USART. cbn [deref]. rewrite Hu.
  eexists. split; [reflexivity|]. split; reflexivity.
Qed.

Lemma array_get_middle (pre post : list Z) (c : Z) :
  array_get (pre ++ c :: post) (Z.of_nat (length pre)) = Some c.
Proof.
  unfold array_get. destruct (Z.ltb_spec (Z.of_nat (length pre)) 0); [lia|].
  rewrite Nat2Z.id. now apply list_lookup_middle.
Qed.

Lemma snoc_middle (pre s post : list Z) (c : Z) :
  pre ++ (c :: s) ++ post = (pre ++ [c]) ++ s ++ post.
Proof. now rewrite <- app_assoc. Qed.

(** One pass of the string loop of the writer over a char that is sent. *)
Lemma write_str_loop_pass (fuel : nat) (pre post : list Z) (c size size' : Z)
      (w w1 : world) :
  count_down size = (size', false) ->
  c <> NUL -> c <> -1 ->
  _write_char_USART ref_usb c w = Ret c w1 ->
  write_str_loop (S fuel) ref_usb (pre ++ c :: post)
                 (Z.of_nat (length pre)) size w
  = write_str_loop fuel ref_usb (pre ++ c :: post)
                   (Z.of_nat (length (pre ++ [c]))) size' w1.
Proof.
  intros Hcd Hn Hm Hw. cbn [write_str_loop]. rewrite Hcd.
  unfold bind at 1. rewrite array_get_middle. cbn [lift_opt]. unfold ret at 1.
  destruct (Z.eqb_spec c NUL); [contradiction|].
  unfold bind at 1. rewrite Hw.
  destruct (Z.eqb_spec c (-1)); [contradiction|].
  rewrite length_app. cbn [length].
  replace (Z.of_nat (length pre) + 1) with (Z.of_nat (length pre + 1)) by lia.
  reflexivity.
Qed.

Lemma write_line_loop_pass (fuel : nat) (pre post : list Z) (c size size' : Z)
      (w w1 : world) :
  count_down size = (size', false) ->
  c <> NUL -> c <> -1 -> is_delimiter c = false ->
  _write_char_USART ref_usb c w = Ret c w1 ->
  write_line_loop (S fuel) ref_usb (pre ++ c :: post)
                  (Z.of_nat (length pre)) size w
  = write_line_loop fuel ref_usb (pre ++ c :: post)
                    (Z.of_nat (length (pre ++ [c]))) size' w1.
Proof.
  intros Hcd Hn Hm Hd Hw. cbn [write_line_loop]. rewrite Hcd.
  unfold bind at 1. rewrite array_get_middle. cbn [lift_opt]. unfold ret at 1.
  destruct (Z.eqb_spec c NUL); [contradiction|].
  unfold bind at 1. rewrite Hw.
  destruct (Z.eqb_spec c (-1)); [contradiction|]. rewrite Hd.
  rewrite length_app. cbn [length].
  replace (Z.of_nat (length pre) + 1) with (Z.of_nat (length pre + 1)) by lia.
  reflexivity.
Qed.


(** The string loop that meets its limit: with a limit of [length s + 1]
    it sends [s] and returns -1 with EMSGSIZE. *)
Lemma write_str_loop_limit (s : list Z) :
  forall (fuel : nat) (pre post : list Z) (w : world),
    cfg_ok cfg -> usart (fd_usb w) = Some USARTC0 ->
    Forall in_string s ->
    Z.of_nat (S (length s)) <= 32767 ->
    (length s < fuel)%nat ->
    exists w',
      write_str_loop fuel ref_usb (pre ++ s ++ post)
                     (Z.of_nat (length pre)) (Z.of_nat (S (length s))) w
      = Ret (-1) (set_errno EMSGSIZE w') /\
      usb_sent s w w'.
Proof.
  induction s as [|c s IH]; intros fuel pre post w Hcfg Hu Hin Hmax Hfuel;
    (destruct fuel as [|fuel]; [cbn in Hfuel; lia|]); cbn [length] in *.
  - cbn [write_str_loop]. change (Z.of_nat 1) with 1.
    rewrite (count_down_reached Hcfg). unfold bind, modify, ret.
    exists w. split; [reflexivity|apply usb_sent_nil].
  - inversion Hin as [|? ? [Hc1 Hc2] Hin']; subst.
    destruct (putc_sends w c Hu) as [w1 [Hw Hs1]].
    cbn [app].
    assert (Hcd : count_down (Z.of_nat (S (S (length s))))
                  = (Z.of_nat (S (length s)), false)).
    { rewrite count_down_above_one by (auto; lia). f_equal. lia. }
    rewrite (write_str_loop_pass _ _ _ _ _ _ _ _ Hcd Hc2 Hc1 Hw).
    change (pre ++ c :: s ++ post) with (pre ++ (c :: s) ++ post).
    rewrite snoc_middle.
    destruct (IH fuel (pre ++ [c]) post w1 Hcfg) as [w' [Hrun Hs2]];
      [rewrite (sent_fd_usb _ _ _ Hs1); exact Hu|exact Hin'|lia|lia|].
    exists w'. split; [exact Hrun|].
    exact (usb_sent_trans [c] s w w1 w' Hs1 Hs2).
Qed.


(** The dispatch of _write_usb() for the three modes with a sentinel. *)
Lemma write_usb_dispatch (fuel : nat) (buf : list Z) (size : Z) (w : world) :
  PSTR_MODE <= size < 0 -> size <= rx_size_max (fd_usb w) ->
  _write_usb fuel ref_usb buf size w =
    if size =? LINE_MODE
    then write_line_loop fuel ref_usb buf 0 (rx_size_max (fd_usb w)) w
    else write_str_loop fuel ref_usb buf 0 (rx_size_max (fd_usb w)) w.
Proof.
  intros Hs Hlim. unfold _write_usb, PSTR_MODE in *. cbn [deref].
  destruct (Z.eqb_spec size 0); [lia|].
  destruct (Z.gtb_spec size (rx_size_max (fd_usb w))); [lia|].
  destruct (Z.ltb_spec size (-3)); [lia|].
  destruct (Z.gtb_spec size 0); [lia|].
  assert (Hc : size = -1 \/ size = -2 \/ size = -3) by lia.
  destruct Hc as [-> | [-> | ->]]; reflexivity.
Qed.

Lemma xio_write_usb (fuel : nat) (buf : list Z) (size : Z) (w : world) :
  fd_ptrs w !! 1%nat = Some (Some ref_usb) ->
  xio_write fuel FD_USB buf size w = _write_usb fuel ref_usb buf size w.
Proof.
  intros Hp. unfold xio_write, bind, fd_ptr.
  change (FD_USB =? FD_USB) with true. change (FD_USB <? 0) with false.
  cbv iota beta. change (Z.to_nat FD_USB) with 1%nat. rewrite Hp. reflexivity.
Qed.



Lemma write_line_loop_limit (s : list Z) :
  forall (fuel : nat) (pre post : list Z) (w : world),
    cfg_ok cfg -> usart (fd_usb w) = Some USARTC0 ->
    Forall in_line s ->
    Z.of_nat (S (length s)) <= 32767 ->
    (length s < fuel)%nat ->
    exists w',
      write_line_loop fuel ref_usb (pre ++ s ++ post)
                      (Z.of_nat (length pre)) (Z.of_nat (S (length s))) w
      = Ret (-1) (set_errno EMSGSIZE w') /\
      usb_sent s w w'.
Proof.
  induction s as [|c s IH]; intros fuel pre post w Hcfg Hu Hin Hmax Hfuel;
    (destruct fuel as [|fuel]; [cbn in Hfuel; lia|]); cbn [length] in *.
  - cbn [write_line_loop]. change (Z.of_nat 1) with 1.
    rewrite (count_down_reached Hcfg). unfold bind, modify, ret.
    exists w. split; [reflexivity|apply usb_sent_nil].
  - inversion Hin as [|? ? [Hc1 [Hc2 Hc3]] Hin']; subst.
    destruct (putc_sends w c Hu) as [w1 [Hw Hs1]].
    cbn [app].
    assert (Hcd : count_down (Z.of_nat (S (S (length s))))
                  = (Z.of_nat (S (length s)), false)).
    { rewrite count_down_above_one by (auto; lia). f_equal. lia. }
    rewrite (write_line_loop_pass _ _ _ _ _ _ _ _ Hcd Hc2 Hc1 Hc3 Hw).
    change (pre ++ c :: s ++ post) with (pre ++ (c :: s) ++ post).
    rewrite snoc_middle.
    destruct (IH fuel (pre ++ [c]) post w1 Hcfg) as [w' [Hrun Hs2]];
      [rewrite (sent_fd_usb _ _ _ Hs1); exact Hu|exact Hin'|lia|lia|].
    exists w'. split; [exact Hrun|].
    exact (usb_sent_trans [c] s w w1 w' Hs1 Hs2).
Qed.




(** X13. The limit of a line- or string-mode write is rx_size_max, and
    it is tested before each char is fetched: with a limit of n+1 and a
    source that starts with n ordinary chars the write sends those n
    chars and returns -1 with EMSGSIZE, whatever follows them, even when
    the next char is the NUL or the delimiter that would have ended the
    write. *)
Theorem sentinel_write_at_limit
        (fuel : nat) (s post : list Z) (w : world) :
  cfg_ok cfg ->
  fd_ptrs w !! 1%nat = Some (Some ref_usb) ->
  usart (fd_usb w) = Some USARTC0 ->
  rx_size_max (fd_usb w) = Z.of_nat (S (length s)) ->
  Z.of_nat (S (length s)) <= 32767 ->
  (length s < fuel)%nat ->
  (Forall in_string s ->
   forall mode, mode = STR_MODE \/ mode = PSTR_MODE ->
     exists w',
       xio_write fuel FD_USB (s ++ post) mode w
       = Ret (-1) (set_errno EMSGSIZE w') /\
       usb_sent s w w') /\
  (Forall in_line s ->
   exists w',
     xio_write fuel FD_USB (s ++ post) LINE_MODE w
     = Ret (-1) (set_errno EMSGSIZE w') /\
     usb_sent s w w').
Proof.
  intros Hcfg Hp Hu Hlim Hmax Hfuel. split.
  - intros Hin mode Hmode. rewrite xio_write_usb by exact Hp.
    rewrite write_usb_dispatch
      by (unfold LINE_MODE, STR_MODE, PSTR_MODE in *; destruct Hmode; lia).
    assert (Hm : (mode =? LINE_MODE) = false)
      by (destruct Hmode; subst; reflexivity).
    rewrite Hm, Hlim.
    destruct (write_str_loop_limit s fuel [] post w Hcfg Hu Hin Hmax Hfuel)
      as [w' [Hrun Hs]].
    exists w'. split; [exact Hrun|exact Hs].
  - intros Hin. rewrite xio_write_usb by exact Hp.
    rewrite write_usb_dispatch
      by (unfold LINE_MODE, STR_MODE, PSTR_MODE in *; lia).
    change (LINE_MODE =? LINE_MODE) with true. cbv iota. rewrite Hlim.
    destruct (write_line_loop_limit s fuel [] post w Hcfg Hu Hin Hmax Hfuel)
      as [w' [Hrun Hs]].
    exists w'. split; [exact Hrun|exact Hs].
Qed.

(** X14. An exact-count write sends one byte fewer than it is asked for:
    a request of n+1 (within rx_size_max, the limit the code tests) sends
    the first n bytes of the source and returns n.  None of the n bytes
    may be 0xFF. *)
Theorem exact_write_sends_one_byte_less
        (fuel : nat) (k post : list Z) (w : world) :
  fd_ptrs w !! 1%nat = Some (Some ref_usb) ->
  usart (fd_usb w) = Some USARTC0 ->
  Forall plain k ->
  Z.of_nat (length k) + 1 <= rx_size_max (fd_usb w) ->
  Z.of_nat (length k) + 1 <= 32767 ->
  (length k < fuel)%nat ->
  exists w',
    xio_write fuel FD_USB (k ++ post) (Z.of_nat (length k) + 1) w
    = Ret (Z.of_nat (length k)) w' /\
    DATA_tx (usartc0 w') = DATA_tx (usartc0 w) ++ map u8 k /\
    errno w' = errno w.
Proof.
  intros Hp Hu Hpl Hlim Hmax Hfuel. rewrite xio_write_usb by exact Hp.
  destruct (exact_count_limit_checks fuel ref_usb (k ++ post)
              (Z.of_nat (length k) + 1) w ltac:(lia)) as [_ Hin].
  rewrite (proj2 (Hin Hlim)).
  destruct (write_size_loop_sends ref_usb (k ++ post) USARTC0 (length k) fuel 0 w)
    as [w' [Hrun [Htx He]]]; [lia|lia|lia|exact Hu| |].
  - intros j Hj. unfold array_get.
    destruct (Z.ltb_spec j 0); [lia|].
    destruct (lookup_lt_is_Some_2 k (Z.to_nat j)) as [c Hc]; [lia|].
    exists c. split.
    + now rewrite lookup_app_l by lia.
    + exact (Forall_lookup_1 _ _ _ _ Hpl Hc).
  - exists w'. split; [exact Hrun|]. split; [|exact He].
    cbn [get_usart] in Htx. rewrite Htx. change (Z.to_nat 0) with 0%nat.
    unfold drop. now rewrite take_app_length.
Qed.


End UsbWriter.

Section OpenDevice.
Context {cfg : xio_config}.

Lemma baud_tables (b : Z) :
  0 <= b <= 10 ->
  exists a s, array_get bsel b = Some a /\ array_get bscale b = Some s.
Proof.
  intros Hb.
  assert (H : b = 0 \/ b = 1 \/ b = 2 \/ b = 3 \/ b = 4 \/ b = 5 \/ b = 6 \/
              b = 7 \/ b = 8 \/ b = 9 \/ b = 10) by lia.
  repeat (destruct H as [-> | H]; [do 2 eexists; split; reflexivity|]).
  subst. do 2 eexists; split; reflexivity.
Qed.

Lemma open_usb_returns (control : Z) (w : world) :
  fd_ptrs w = [None; Some ref_usb; Some ref_rs485] ->
  Z.land control (Z.lor IO_RDONLY IO_WRONLY) <> Z.lor IO_RDONLY IO_WRONLY ->
  Z.land control IO_BAUD_gm <= 10 ->
  exists w',
    xio_open DEV_USB control w = Ret FD_USB w' /\
    rx_buf_head (fd_usb w') = 1 /\ rx_buf_tail (fd_usb w') = 1 /\
    rx_buf (fd_usb w') = rx_buf (fd_usb w) /\
    usart (fd_usb w') = Some USARTC0 /\
    port (fd_usb w') = Some PORTC /\
    rx_size_max (fd_usb w') = s16 (READ_BUFFER_SIZE - 1) /\
    tx_size_max (fd_usb w') = NO_LIMIT /\
    baud (fd_usb w') = (if Z.land control IO_BAUD_gm =? IO_BAUD_UNSPECIFIED
                        then IO_BAUD_DEFAULT else Z.land control IO_BAUD_gm) /\
    array_get bsel (baud (fd_usb w')) = Some (BAUDCTRLA (usartc0 w')) /\
    array_get bscale (baud (fd_usb w')) = Some (BAUDCTRLB (usartc0 w')) /\
    CTRLB (usartc0 w') = Z.lor USART_TXEN_bm USART_RXEN_bm /\
    CTRLA (usartc0 w') = USART_RXCINTLVL_MED_gc /\
    DATA_tx (usartc0 w') = DATA_tx (usartc0 w) /\
    errno w' = errno w /\ fd_ptrs w' = fd_ptrs w /\
    fd_rs485 w' = fd_rs485 w /\ usartc1 w' = usartc1 w /\
    sleeps w' = sleeps w /\ pending w' = pending w.
Proof.
  intros Hp Hboth Hbaud.
  destruct w as [e ptrs fu fr u0 u1 pc sl pe]. cbn in Hp. subst ptrs.
  assert (Hlo : 0 <= Z.land control IO_BAUD_gm)
    by (apply Z.land_nonneg; right; unfold IO_BAUD_gm; lia).
  assert (Hu8 : u8 (Z.land control IO_BAUD_gm) = Z.land control IO_BAUD_gm)
    by (unfold u8; apply Z.mod_small; lia).
  unfold xio_open. change (DEV_USB =? DEV_USARTC0) with false.
  change (DEV_USB =? DEV_USARTC1) with false.
  change (DEV_USB =? DEV_USB) with true. cbv iota.
  unfold _open_usb, _open_USART.
  rewrite (proj2 (Z.eqb_neq _ _) Hboth), Hu8.
  set (b := Z.land control IO_BAUD_gm) in *.
  set (b1 := c_true (Z.land control IO_RDONLY)).
  set (b2 := c_true control && c_true IO_RDONLY).
  set (b3 := c_true (Z.land control IO_NOECHO)).
  set (b4 := c_true (Z.land control IO_RDNONBLOCK)).
  set (rmax := s16 (READ_BUFFER_SIZE - 1)). set (nl := NO_LIMIT).
  clearbody b1 b2 b3 b4 rmax nl.
  assert (H : b = 0 \/ b = 1 \/ b = 2 \/ b = 3 \/ b = 4 \/ b = 5 \/ b = 6 \/
              b = 7 \/ b = 8 \/ b = 9 \/ b = 10) by lia.
  clearbody b. clear Hu8 Hlo Hbaud Hboth.
  destruct fu, u0, pc.
  repeat (destruct H as [-> | H];
          [destruct b1, b2, b3, b4;
           (eexists; split; [lazy; reflexivity|];
            lazy; repeat split)|]).
  subst b.
  destruct b1, b2, b3, b4;
    (eexists; split; [lazy; reflexivity|]; lazy; repeat split).
Qed.

(** X16. After xio_init(), open(DEV_USB, control) with a baud selector
    of the table (0..10) and not both of IO_RDONLY and IO_WRONLY returns
    the descriptor FD_USB and leaves the device ready: the receive ring is
    valid and empty with both indices at 1, the struct is bound to USARTC0
    on PORTC, the flags are those of [open_flags], the read limit is
    READ_BUFFER_SIZE-1, the baud registers hold the table entries of the
    selected rate (of the default rate for selector 0), receiver,
    transmitter and the receive interrupt are enabled; errno, the RS-485
    struct and what was transmitted so far are as they were. *)
Theorem open_usb_makes_device_ready (control : Z) (w : world) :
  cfg_ok cfg ->
  fd_ptrs w = [None; Some ref_usb; Some ref_rs485] ->
  Z.of_nat (length (rx_buf (fd_usb w))) = USART_RX_BUFSIZE ->
  Z.land control (Z.lor IO_RDONLY IO_WRONLY) <> Z.lor IO_RDONLY IO_WRONLY ->
  Z.land control IO_BAUD_gm <= 10 ->
  exists w',
    xio_open DEV_USB control w = Ret FD_USB w' /\
    usb_open w' /\ contents (fd_usb w') = [] /\
    rx_buf_head (fd_usb w') = 1 /\ rx_buf_tail (fd_usb w') = 1 /\
    flags (fd_usb w') = open_flags control /\
    rx_size_max (fd_usb w') = s16 (READ_BUFFER_SIZE - 1) /\
    baud (fd_usb w') = (if Z.land control IO_BAUD_gm =? IO_BAUD_UNSPECIFIED
                        then IO_BAUD_DEFAULT else Z.land control IO_BAUD_gm) /\
    array_get bsel (baud (fd_usb w')) = Some (BAUDCTRLA (usartc0 w')) /\
    array_get bscale (baud (fd_usb w')) = Some (BAUDCTRLB (usartc0 w')) /\
    CTRLB (usartc0 w') = Z.lor USART_TXEN_bm USART_RXEN_bm /\
    CTRLA (usartc0 w') = USART_RXCINTLVL_MED_gc /\
    DATA_tx (usartc0 w') = DATA_tx (usartc0 w) /\
    errno w' = errno w /\ fd_ptrs w' = fd_ptrs w /\
    fd_rs485 w' = fd_rs485 w.
Proof.
  intros Hcfg Hp Hlen Hboth Hbaud.
  destruct (open_usb_returns control w Hp Hboth Hbaud)
    as (w' & Hrun & Hh & Ht & Hb & Hu & Hpo & Hrx & Htx & Hbd & Ha & Hs &
        Hcb & Hca & Hd & He & Hpt & Hr & _).
  assert (Hok : ring_ok (fd_usb w')).
  { destruct Hcfg. split; unfold index_ok; [rewrite Hh; lia|rewrite Ht; lia|].
    now rewrite Hb. }
  exists w'. split; [exact Hrun|]. split; [now split|].
  split.
  { apply (empty_contents _ Hok). now rewrite Hh, Ht. }
  split; [exact Hh|]. split; [exact Ht|].
  split; [exact (xio_open_usb_flags control w w' FD_USB Hp Hrun)|].
  repeat (split; [assumption|]). assumption.
Qed.

(** The error return of _open_USART(): the indices are reset, then the
    call leaves with -1 and EINVAL before it touches the flags. *)
Lemma open_USART_both_flags (control : Z) (w : world) :
  fd_ptrs w = [None; Some ref_usb; Some ref_rs485] ->
  Z.land control (Z.lor IO_RDONLY IO_WRONLY) = Z.lor IO_RDONLY IO_WRONLY ->
  _open_USART DEV_USARTC0 control w
  = Ret (-1)
        (set_errno EINVAL
           (set_fd_usb
              (set_tx_size_max NO_LIMIT
                 (set_rx_size_max (s16 (READ_BUFFER_SIZE - 1))
                    (set_tx_buf_tail 1
                       (set_tx_buf_head 1
                          (set_rx_buf_tail 1
                             (set_rx_buf_head 1
                                (set_fd 1 (fd_usb w)))))))) w)).
Proof.
  intros Hp Hboth. unfold _open_USART. rewrite Hboth, Z.eqb_refl.
  destruct w as [e ptrs [] fr u0 u1 pc sl pe]. cbn in Hp. subst ptrs.
  reflexivity.
Qed.

(** X17. open(DEV_USB, control) with both IO_RDONLY and IO_WRONLY never
    delivers its error.  _open_USART() returns -1 with EINVAL, but
    _open_usb() keeps the result in a uint8_t, where it is 255 and not
    equal to -1, and goes on to read fd_ptrs[255], outside the array of
    three. *)
Theorem open_read_only_write_only_faults (control : Z) (w : world) :
  fd_ptrs w = [None; Some ref_usb; Some ref_rs485] ->
  Z.land control (Z.lor IO_RDONLY IO_WRONLY) = Z.lor IO_RDONLY IO_WRONLY ->
  (exists w1, _open_USART DEV_USARTC0 control w = Ret (-1) w1 /\
              errno w1 = EINVAL /\
              flags (fd_usb w1) = flags (fd_usb w) /\
              rx_buf_head (fd_usb w1) = 1 /\ rx_buf_tail (fd_usb w1) = 1) /\
  xio_open DEV_USB control w = Fault.
Proof.
  intros Hp Hboth. split.
  - eexists. split; [apply (open_USART_both_flags control w Hp Hboth)|].
    repeat split.
  - change (xio_open DEV_USB control w) with (_open_usb DEV_USB control w).
    unfold _open_usb, bind.
    rewrite (open_USART_both_flags control w Hp Hboth).
    change (u8 (-1) =? -1) with false. cbv iota.
    unfold fd_ptr. change (u8 (-1) <? 0) with false. cbv iota.
    cbn [fd_ptrs set_errno set_fd_usb]. rewrite Hp. reflexivity.
Qed.

(** X18. Only the USB device is served.  open() of any other device
    (DEV_RS485 and the two USARTs with it) and control() of any other
    descriptor fail with ENODEV; read(), write(), getc() and putc() on
    any other descriptor (FD_RS485 with them) fail with EBADF, the
    buffer of a read is as it was, and in each case nothing but errno
    changes. *)
Theorem only_usb_is_served (fuel : nat) (dev fdn control arg size c : Z)
        (buf : list Z) (w : world) :
  dev <> DEV_USB -> fdn <> FD_USB ->
  xio_open dev control w = Ret (-1) (set_errno ENODEV w) /\
  xio_control fdn control arg w = Ret (-1) (set_errno ENODEV w) /\
  xio_read fuel fdn buf size w = Ret (-1, buf) (set_errno EBADF w) /\
  xio_write fuel fdn buf size w = Ret (-1) (set_errno EBADF w) /\
  xio_getc fdn w = Ret ERR_EOF (set_errno EBADF w) /\
  xio_putc fdn c w = Ret ERR_EOF (set_errno EBADF w).
Proof.
  intros Hd Hf.
  unfold xio_open, xio_control, xio_read, xio_write, xio_getc, xio_putc.
  rewrite (proj2 (Z.eqb_neq _ _) Hd), (proj2 (Z.eqb_neq _ _) Hf).
  destruct (dev =? DEV_USARTC0), (dev =? DEV_USARTC1); repeat split.
Qed.

End OpenDevice.

Section Control.
Context {cfg : xio_config}.

Lemma bind_step {A B} (m : M A) (k : A -> M B) (w w1 : world) (a : A) :
  m w = Ret a w1 -> bind m k w = k a w1.
Proof. intros H. unfold bind. now rewrite H. Qed.

(** "if (control & bit) f->flags |= bm" and "... &= ~bm" as one update
    of the flags. *)
Lemma cond_set_flag (b : bool) (bm : Z) (w : world) :
  (if b then upd ref_usb (set_flag bm) else ret tt) w
  = Ret tt (set_fd_usb
              (set_flags (if b then Z.lor (flags (fd_usb w)) bm
                          else flags (fd_usb w)) (fd_usb w)) w).
Proof. destruct w as [? ? [] ? ? ? ? ? ?], b; reflexivity. Qed.

Lemma cond_clear_flag (b : bool) (bm : Z) (w : world) :
  (if b then upd ref_usb (clear_flag bm) else ret tt) w
  = Ret tt (set_fd_usb
              (set_flags (if b then Z.land (flags (fd_usb w)) (Z.lnot bm)
                          else flags (fd_usb w)) (fd_usb w)) w).
Proof. destruct w as [? ? [] ? ? ? ? ? ?], b; reflexivity. Qed.

(** Flag algebra: setting or clearing one mask leaves the bits of a
    disjoint mask alone; a set mask reads back whole, a cleared mask as
    zero. *)
Lemma land_lor_other (x a b : Z) :
  Z.land a b = 0 -> Z.land (Z.lor x a) b = Z.land x b.
Proof. intros H. now rewrite Z.land_lor_distr_l, H, Z.lor_0_r. Qed.

Lemma land_clear_other (x a b : Z) :
  Z.land a b = 0 -> Z.land (Z.land x (Z.lnot a)) b = Z.land x b.
Proof.
  intros H. apply Z.bits_inj'. intros n Hn.
  rewrite !Z.land_spec, Z.lnot_spec by exact Hn.
  assert (Hab : Z.testbit a n && Z.testbit b n = false)
    by (now rewrite <- Z.land_spec, H, Z.bits_0).
  destruct (Z.testbit x n), (Z.testbit a n), (Z.testbit b n);
    try reflexivity; discriminate.
Qed.

Lemma land_lor_same (x a : Z) : Z.land (Z.lor x a) a = a.
Proof.
  apply Z.bits_inj'. intros n Hn. rewrite Z.land_spec, Z.lor_spec.
  destruct (Z.testbit x n), (Z.testbit a n); reflexivity.
Qed.

Lemma land_clear_same (x a : Z) : Z.land (Z.land x (Z.lnot a)) a = 0.
Proof.
  apply Z.bits_inj'. intros n Hn.
  rewrite !Z.land_spec, Z.lnot_spec, Z.bits_0 by exact Hn.
  destruct (Z.testbit x n), (Z.testbit a n); reflexivity.
Qed.

(** The baud step of _control_USART(). *)
Lemma control_baud_step (control : Z) (w : world) :
  usart (fd_usb w) = Some USARTC0 ->
  Z.land control IO_BAUD_gm <= 10 ->
  exists w1,
    (if negb (Z.land control IO_BAUD_gm =? IO_BAUD_UNSPECIFIED)
     then upd ref_usb (set_baud (u8 (Z.land control IO_BAUD_gm))) ;;;
          set_baud_regs ref_usb
     else ret tt) w = Ret tt w1 /\
    fd_usb w1 = (if Z.land control IO_BAUD_gm =? IO_BAUD_UNSPECIFIED
                 then fd_usb w
                 else set_baud (Z.land control IO_BAUD_gm) (fd_usb w)) /\
    (Z.land control IO_BAUD_gm <> IO_BAUD_UNSPECIFIED ->
     array_get bsel (Z.land control IO_BAUD_gm)
     = Some (BAUDCTRLA (usartc0 w1)) /\
     array_get bscale (Z.land control IO_BAUD_gm)
     = Some (BAUDCTRLB (usartc0 w1))) /\
    (Z.land control IO_BAUD_gm = IO_BAUD_UNSPECIFIED ->
     usartc0 w1 = usartc0 w) /\
    CTRLA (usartc0 w1) = CTRLA (usartc0 w) /\
    CTRLB (usartc0 w1) = CTRLB (usartc0 w) /\
    DATA_tx (usartc0 w1) = DATA_tx (usartc0 w) /\
    errno w1 = errno w /\ fd_ptrs w1 = fd_ptrs w /\
    fd_rs485 w1 = fd_rs485 w /\ usartc1 w1 = usartc1 w /\
    portc w1 = portc w /\ sleeps w1 = sleeps w /\ pending w1 = pending w.
Proof.
  intros Hu Hbaud.
  assert (Hlo : 0 <= Z.land control IO_BAUD_gm)
    by (apply Z.land_nonneg; right; unfold IO_BAUD_gm; lia).
  assert (Hu8 : u8 (Z.land control IO_BAUD_gm) = Z.land control IO_BAUD_gm)
    by (unfold u8; apply Z.mod_small; lia).
  rewrite Hu8. set (b := Z.land control IO_BAUD_gm) in *.
  destruct (Z.eqb_spec b IO_BAUD_UNSPECIFIED) as [E|E]; cbn [negb].
  - exists w. split; [reflexivity|]. repeat split; try reflexivity.
    all: intros; contradiction.
  - destruct (baud_tables b ltac:(lia)) as [a [s [Ha Hs]]].
    destruct w as [e ptrs fu fr u0 u1 pc sl pe]. cbn [fd_usb] in Hu.
    destruct fu. cbn [usart] in Hu. subst.
    unfold bind, upd, modify, set_baud_regs.
    cbn [assign deref set_fd_usb fd_usb set_baud baud errno fd_ptrs fd_rs485
         usartc0 usartc1 portc sleeps pending fd flags rx_buf_tail
         rx_buf_head tx_buf_tail tx_buf_head rx_buf rx_size_max tx_size_max
         usart port].
    unfold bind. rewrite Ha. cbn [lift_opt]. unfold ret at 1.
    unfold usart_write at 1.
    cbn [deref fd_usb usart put_usart get_usart set_usartc0 usartc0 errno
         fd_ptrs fd_rs485 usartc1 portc sleeps pending].
    rewrite Hs. cbn [lift_opt]. unfold ret at 1. unfold usart_write.
    cbn [deref fd_usb usart put_usart get_usart set_usartc0 usartc0 errno
         fd_ptrs fd_rs485 usartc1 portc sleeps pending].
    eexists. split; [reflexivity|]. destruct u0. repeat split.
    intros; contradiction.
Qed.

(** xio_control(FD_USB, ...) on a bound device, in closed form. *)
Lemma control_usb_runs (control arg : Z) (w : world) :
  fd_ptrs w !! 1%nat = Some (Some ref_usb) ->
  usart (fd_usb w) = Some USARTC0 ->
  Z.land control IO_BAUD_gm <= 10 ->
  exists w',
    xio_control FD_USB control arg w = Ret 0 w' /\
    flags (fd_usb w') = control_flags control (flags (fd_usb w)) /\
    rx_size_max (fd_usb w') =
      (if c_true (Z.land control IO_RD_SIZE_MAX) then arg
       else rx_size_max (fd_usb w)) /\
    tx_size_max (fd_usb w') =
      (if c_true (Z.land control IO_RD_SIZE_MAX) then tx_size_max (fd_usb w)
       else if c_true (Z.land control IO_WR_SIZE_MAX) then arg
            else tx_size_max (fd_usb w)) /\
    baud (fd_usb w') =
      (if Z.land control IO_BAUD_gm =? IO_BAUD_UNSPECIFIED
       then baud (fd_usb w) else Z.land control IO_BAUD_gm) /\
    (Z.land control IO_BAUD_gm <> IO_BAUD_UNSPECIFIED ->
     array_get bsel (Z.land control IO_BAUD_gm)
     = Some (BAUDCTRLA (usartc0 w')) /\
     array_get bscale (Z.land control IO_BAUD_gm)
     = Some (BAUDCTRLB (usartc0 w'))) /\
    (Z.land control IO_BAUD_gm = IO_BAUD_UNSPECIFIED ->
     usartc0 w' = usartc0 w) /\
    rx_buf_head (fd_usb w') = rx_buf_head (fd_usb w) /\
    rx_buf_tail (fd_usb w') = rx_buf_tail (fd_usb w) /\
    rx_buf (fd_usb w') = rx_buf (fd_usb w) /\
    usart (fd_usb w') = usart (fd_usb w) /\
    port (fd_usb w') = port (fd_usb w) /\
    fd (fd_usb w') = fd (fd_usb w) /\
    DATA_tx (usartc0 w') = DATA_tx (usartc0 w) /\
    errno w' = errno w /\ fd_ptrs w' = fd_ptrs w /\
    fd_rs485 w' = fd_rs485 w /\ portc w' = portc w /\
    sleeps w' = sleeps w /\ pending w' = pending w.
Proof.
  intros Hp Hu Hbaud.
  destruct (control_baud_step control w Hu Hbaud)
    as (w1 & H1 & Hf & Hregs & Hsame & Hca & Hcb & Hd & He & Hpt & Hr & Hu1 &
        Hpc & Hsl & Hpe).
  unfold xio_control. change (FD_USB =? FD_USB) with true. cbv iota.
  unfold bind at 1, fd_ptr. change (FD_USB <? 0) with false. cbv iota.
  change (Z.to_nat FD_USB) with 1%nat. rewrite Hp.
  unfold _control_usb, _control_USART.
  rewrite (bind_step _ _ _ _ _ H1).
  rewrite (bind_step _ _ _ _ _ (cond_set_flag _ _ _)).
  rewrite (bind_step _ _ _ _ _ (cond_clear_flag _ _ _)).
  rewrite (bind_step _ _ _ _ _ (cond_set_flag _ _ _)).
  rewrite (bind_step _ _ _ _ _ (cond_clear_flag _ _ _)).
  rewrite (bind_step _ _ _ _ _ (cond_set_flag _ _ _)).
  rewrite (bind_step _ _ _ _ _ (cond_clear_flag _ _ _)).
  cbn [fd_usb set_fd_usb flags set_flags].
  assert (Hfl : flags (fd_usb w1) = flags (fd_usb w)
                /\ rx_size_max (fd_usb w1) = rx_size_max (fd_usb w)
                /\ tx_size_max (fd_usb w1) = tx_size_max (fd_usb w)
                /\ rx_buf_head (fd_usb w1) = rx_buf_head (fd_usb w)
                /\ rx_buf_tail (fd_usb w1) = rx_buf_tail (fd_usb w)
                /\ rx_buf (fd_usb w1) = rx_buf (fd_usb w)
                /\ usart (fd_usb w1) = usart (fd_usb w)
                /\ port (fd_usb w1) = port (fd_usb w)
                /\ fd (fd_usb w1) = fd (fd_usb w)
                /\ baud (fd_usb w1) =
                   (if Z.land control IO_BAUD_gm =? IO_BAUD_UNSPECIFIED
                    then baud (fd_usb w) else Z.land control IO_BAUD_gm)).
  { rewrite Hf. destruct (Z.land control IO_BAUD_gm =? IO_BAUD_UNSPECIFIED);
      repeat split. }
  destruct Hfl as (F1 & F2 & F3 & F4 & F5 & F6 & F7 & F8 & F9 & F10).
  destruct (c_true (Z.land control IO_RD_SIZE_MAX));
    [|destruct (c_true (Z.land control IO_WR_SIZE_MAX))];
    (eexists; split; [reflexivity|]);
    cbn; unfold control_flags; cbv zeta; rewrite ?F1; auto 30.
Qed.


Ltac flag_algebra :=
  repeat first
    [ rewrite land_lor_same | rewrite land_clear_same
    | rewrite land_lor_other by reflexivity
    | rewrite land_clear_other by reflexivity ];
  reflexivity.

Lemma control_flags_bits (control fl : Z) :
  ECHO_ENABLED (control_flags control fl) =
    (if c_true (Z.land control IO_NOECHO) then false
     else if c_true (Z.land control IO_ECHO) then true
          else ECHO_ENABLED fl) /\
  BLOCKING_ENABLED (control_flags control fl) =
    (if c_true (Z.land control IO_RDNONBLOCK) then false
     else if c_true (Z.land control IO_RDBLOCK) then true
          else BLOCKING_ENABLED fl) /\
  READ_ENABLED (control_flags control fl) = READ_ENABLED fl /\
  WRITE_ENABLED (control_flags control fl) = WRITE_ENABLED fl.
Proof.
  unfold control_flags, ECHO_ENABLED, BLOCKING_ENABLED, READ_ENABLED,
    WRITE_ENABLED. cbv zeta.
  destruct (c_true (Z.land control IO_ECHO)),
           (c_true (Z.land control IO_NOECHO)),
           (c_true (Z.land control IO_RDBLOCK)),
           (c_true (Z.land control IO_RDNONBLOCK)),
           (c_true (Z.land control IO_WRBLOCK)),
           (c_true (Z.land control IO_WRNONBLOCK));
    (split; [|split; [|split]]); flag_algebra.
Qed.

(** X19. control(FD_USB, control, arg) on the opened device, with a baud
    selector of the table, returns 0.  Where a control word asks both to
    set and to clear a flag the clear wins, because it is tested second:
    IO_NOECHO over IO_ECHO, IO_RDNONBLOCK over IO_RDBLOCK; with neither
    bit the flag stays.  The call never changes whether the device is
    open for reading or for writing, never touches the receive ring or
    the bytes waiting in it, nor errno, and with selector 0 it leaves the
    USART registers alone. *)
Theorem control_clear_wins_over_set (control arg : Z) (w : world) :
  fd_ptrs w !! 1%nat = Some (Some ref_usb) ->
  usart (fd_usb w) = Some USARTC0 ->
  Z.land control IO_BAUD_gm <= 10 ->
  exists w',
    xio_control FD_USB control arg w = Ret 0 w' /\
    ECHO_ENABLED (flags (fd_usb w')) =
      (if c_true (Z.land control IO_NOECHO) then false
       else if c_true (Z.land control IO_ECHO) then true
            else ECHO_ENABLED (flags (fd_usb w))) /\
    BLOCKING_ENABLED (flags (fd_usb w')) =
      (if c_true (Z.land control IO_RDNONBLOCK) then false
       else if c_true (Z.land control IO_RDBLOCK) then true
            else BLOCKING_ENABLED (flags (fd_usb w))) /\
    READ_ENABLED (flags (fd_usb w')) = READ_ENABLED (flags (fd_usb w)) /\
    WRITE_ENABLED (flags (fd_usb w')) = WRITE_ENABLED (flags (fd_usb w)) /\
    rx_buf_head (fd_usb w') = rx_buf_head (fd_usb w) /\
    rx_buf_tail (fd_usb w') = rx_buf_tail (fd_usb w) /\
    contents (fd_usb w') = contents (fd_usb w) /\
    usart (fd_usb w') = usart (fd_usb w) /\
    errno w' = errno w /\
    DATA_tx (usartc0 w') = DATA_tx (usartc0 w) /\
    (Z.land control IO_BAUD_gm = IO_BAUD_UNSPECIFIED ->
     usartc0 w' = usartc0 w /\ baud (fd_usb w') = baud (fd_usb w)).
Proof.
  intros Hp Hu Hbaud.
  destruct (control_usb_runs control arg w Hp Hu Hbaud)
    as (w' & Hrun & Hfl & _ & _ & Hbd & _ & Hsame & Hh & Ht & Hb & Hus & _ &
        _ & Hd & He & _).
  destruct (control_flags_bits control (flags (fd_usb w)))
    as (B1 & B2 & B3 & B4).
  exists w'. split; [exact Hrun|]. rewrite Hfl.
  repeat (split; [assumption|]).
  split; [unfold contents, occupancy; now rewrite Hh, Ht, Hb|].
  repeat (split; [assumption|]).
  intros E. split; [now apply Hsame|]. rewrite Hbd.
  now rewrite (proj2 (Z.eqb_eq _ _) E).
Qed.

(** X20. The two size-limit commands of control() are tested in turn and
    the first returns: a control word with the IO_RD_SIZE_MAX bit stores
    arg as the read limit and leaves the write limit as it was, also when
    the word carries the IO_WR_SIZE_MAX bit as well; with the read bit
    clear and the write bit set arg becomes the write limit.  The stored
    read limit takes effect at once: an exact-count read or write of more
    than arg then returns -1 with EFBIG and transfers nothing. *)
Theorem control_read_limit_first
        (fuel : nat) (control arg size : Z) (buf : list Z) (w : world) :
  fd_ptrs w !! 1%nat = Some (Some ref_usb) ->
  usart (fd_usb w) = Some USARTC0 ->
  Z.land control IO_BAUD_gm <= 10 ->
  exists w',
    xio_control FD_USB control arg w = Ret 0 w' /\
    (c_true (Z.land control IO_RD_SIZE_MAX) = true ->
     rx_size_max (fd_usb w') = arg /\
     tx_size_max (fd_usb w') = tx_size_max (fd_usb w) /\
     (0 < size -> arg < size ->
      xio_read fuel FD_USB buf size w'
      = Ret (-1, buf) (set_errno EFBIG w') /\
      xio_write fuel FD_USB buf size w' = Ret (-1) (set_errno EFBIG w'))) /\
    (c_true (Z.land control IO_RD_SIZE_MAX) = false ->
     c_true (Z.land control IO_WR_SIZE_MAX) = true ->
     tx_size_max (fd_usb w') = arg /\
     rx_size_max (fd_usb w') = rx_size_max (fd_usb w)) /\
    (c_true (Z.land control IO_RD_SIZE_MAX) = false ->
     c_true (Z.land control IO_WR_SIZE_MAX) = false ->
     tx_size_max (fd_usb w') = tx_size_max (fd_usb w) /\
     rx_size_max (fd_usb w') = rx_size_max (fd_usb w)).
Proof.
  intros Hp Hu Hbaud.
  destruct (control_usb_runs control arg w Hp Hu Hbaud)
    as (w' & Hrun & _ & Hrx & Htx & _ & _ & _ & _ & _ & _ & _ & _ & _ & _ &
        _ & Hpt & _).
  exists w'. split; [exact Hrun|]. split; [|split].
  - intros Hrd. rewrite Hrd in Hrx, Htx. split; [exact Hrx|].
    split; [exact Htx|]. intros Hpos Hbig.
    destruct (exact_count_limit_checks fuel ref_usb buf size w' Hpos)
      as [Hover _].
    cbn [deref] in Hover. rewrite Hrx in Hover.
    destruct (Hover Hbig) as [Hr Hw]. split; [exact Hr|].
    rewrite xio_write_usb by (now rewrite Hpt). exact Hw.
  - intros Hrd Hwr. rewrite Hrd in Hrx, Htx. rewrite Hwr in Htx. now split.
  - intros Hrd Hwr. rewrite Hrd in Hrx, Htx. rewrite Hwr in Htx. now split.
Qed.

End Control.

Section Print.

Lemma digit_loop_spec (base : Z) :
  2 <= base <= 256 ->
  forall (k fuel : nat) (n : Z) (buf : list Z) (i : nat),
    0 <= n < 2 ^ Z.of_nat k -> (k < fuel)%nat -> (i + k <= 32)%nat ->
    length buf = 32%nat ->
    exists ds,
      digit_loop fuel n base buf (Z.of_nat i)
      = Done (take i buf ++ ds ++ drop (i + length ds) buf,
              Z.of_nat (i + length ds)) /\
      (length ds <= k)%nat /\
      Forall (fun d => 0 <= d < base) ds /\
      lsf base ds = n /\
      (0 < n -> exists ds' d, ds = ds' ++ [d] /\ d <> 0).
Proof.
  intros Hb. induction k as [|k IH]; intros fuel n buf i Hn Hfuel Hi Hlen;
    (destruct fuel as [|fuel]; [lia|]); cbn [digit_loop].
  - assert (n = 0) by (change (2 ^ Z.of_nat 0) with 1 in Hn; lia). subst n.
    change (0 >? 0) with false. cbv iota. exists [].
    cbn [app length]. rewrite Nat.add_0_r, take_drop.
    repeat split; [lia|constructor|lia].
  - destruct (Z.gtb_spec n 0) as [Hpos|Hz].
    + destruct (Z.eqb_spec base 0); [lia|].
      assert (Hd : 0 <= n mod base < base) by (apply Z.mod_pos_bound; lia).
      assert (Hu8 : u8 (n mod base) = n mod base)
        by (unfold u8; apply Z.mod_small; lia).
      rewrite Hu8. unfold array_set.
      destruct (Z.leb_spec 0 (Z.of_nat i)); [|lia].
      destruct (Z.ltb_spec (Z.of_nat i) (Z.of_nat (length buf))); [|lia].
      cbn [andb]. rewrite Nat2Z.id.
      assert (Hi1 : u32 (Z.of_nat i + 1) = Z.of_nat (S i))
        by (unfold u32; rewrite Z.mod_small; lia).
      rewrite Hi1.
      assert (Hq : 0 <= n / base < 2 ^ Z.of_nat k).
      { split; [apply Z.div_pos; lia|].
        apply Z.div_lt_upper_bound; [lia|].
        rewrite Nat2Z.inj_succ, Z.pow_succ_r in Hn by lia. nia. }
      destruct (IH fuel (n / base) (<[i := n mod base]> buf) (S i) Hq)
        as (ds & Hrun & Hl & Hall & Hval & Hlast);
        [lia|lia|now rewrite length_insert|].
      exists (n mod base :: ds). split; [|split; [|split; [|split]]].
      * rewrite Hrun. f_equal. f_equal.
        -- rewrite (take_S_r _ _ (n mod base))
             by (apply list_lookup_insert_eq; lia).
           rewrite take_insert_ge by lia.
           rewrite drop_insert_lt by lia.
           rewrite <- app_assoc. cbn [app length].
           now replace (i + S (length ds))%nat with (S i + length ds)%nat
             by lia.
        -- f_equal. cbn [length]. lia.
      * cbn [length]. lia.
      * constructor; assumption.
      * cbn [lsf fold_right]. fold (lsf base ds). rewrite Hval.
        rewrite (Z.div_mod n base) at 3 by lia. lia.
      * intros _. destruct (Z.eq_dec (n / base) 0) as [E|E].
        -- rewrite E in Hval. exists [], (n mod base).
           assert (ds = []).
           { destruct ds as [|d ds]; [reflexivity|].
             destruct (Z.gtb_spec (n / base) 0); [lia|].
             destruct fuel; [lia|]. cbn [digit_loop] in Hrun.
             rewrite E in Hrun. change (0 >? 0) with false in Hrun.
             cbv iota in Hrun. inversion Hrun as [[Hx Hy]]. cbn in Hy. lia. }
           subst ds. split; [reflexivity|].
           rewrite (Z.div_mod n base) in Hpos by lia. lia.
        -- destruct Hlast as (ds' & d & -> & Hd0); [lia|].
           exists (n mod base :: ds'), d. now split.
    + assert (n = 0) by lia. subst n. exists [].
      cbn [app length]. rewrite Nat.add_0_r, take_drop.
      repeat split; [lia|constructor|lia].
Qed.


Lemma print_loop_spec (ds : list Z) :
  forall (fuel : nat) (post out : list Z),
    (length ds < fuel)%nat ->
    print_loop fuel (ds ++ post) (Z.of_nat (length ds)) out
    = Done (out ++ map digit_char (rev ds)).
Proof.
  induction ds as [|d ds IH] using rev_ind; intros fuel post out Hfuel;
    (destruct fuel as [|fuel]; [lia|]); cbn [print_loop].
  - change (Z.of_nat (length []) >? 0) with false. cbv iota.
    now rewrite app_nil_r.
  - rewrite length_app in *. cbn [length] in *.
    destruct (Z.gtb_spec (Z.of_nat (length ds + 1)) 0); [|lia].
    replace (Z.of_nat (length ds + 1) - 1) with (Z.of_nat (length ds)) by lia.
    rewrite <- app_assoc. cbn [app]. rewrite array_get_middle.
    rewrite IH by lia. rewrite rev_app_distr. cbn [rev app map].
    now rewrite <- app_assoc.
Qed.

Lemma digit_char_value (d : Z) :
  0 <= d < 36 ->
  digit_value (digit_char d) = d /\ is_digit_char (digit_char d) /\
  (digit_char d = 48 <-> d = 0).
Proof.
  intros Hd. unfold digit_value, digit_char, is_digit_char.
  destruct (Z.ltb_spec d 10).
  - destruct (Z.ltb_spec (48 + d) 65); lia.
  - destruct (Z.ltb_spec (65 + d - 10) 65); lia.
Qed.

Lemma number_of_digits (base : Z) (ds : list Z) :
  Forall (fun d => 0 <= d < 36) ds ->
  number base (map digit_char (rev ds)) = lsf base ds.
Proof.
  induction 1 as [|d ds Hd Hall IH]; [reflexivity|].
  cbn [rev lsf fold_right]. fold (lsf base ds).
  unfold number in *. rewrite map_app, fold_left_app, IH. cbn [map fold_left].
  destruct (digit_char_value d Hd) as [-> _]. lia.
Qed.

(** printIntegerInBase() for a base of 2..36 and a number that is not
    zero. *)
Lemma print_in_base_spec (fuel : nat) (buf out : list Z) (n base : Z) :
  2 <= base <= 36 -> 0 < n < 2 ^ 32 ->
  length buf = 32%nat -> (32 < fuel)%nat ->
  exists cs,
    printIntegerInBase fuel buf n base out = Done (out ++ cs) /\
    number base cs = n /\
    Forall is_digit_char cs /\
    Forall (fun c => 0 <= digit_value c < base) cs /\
    (length cs <= 32)%nat /\
    hd 0 cs <> 48.
Proof.
  intros Hb Hn Hlen Hfuel. unfold printIntegerInBase.
  destruct (Z.eqb_spec n 0); [lia|].
  destruct (digit_loop_spec base ltac:(lia) 32 fuel n buf 0)
    as (ds & Hrun & Hl & Hall & Hval & Hlast);
    [change (Z.of_nat 32) with 32; lia|lia|lia|exact Hlen|].
  change (Z.of_nat 0) with 0 in Hrun. rewrite Hrun.
  rewrite take_0. change (0 + length ds)%nat with (length ds).
  cbn [app]. rewrite print_loop_spec by lia.
  assert (Hall36 : Forall (fun d => 0 <= d < 36) ds).
  { eapply Forall_impl; [exact Hall|]. cbn. intros; lia. }
  exists (map digit_char (rev ds)). split; [reflexivity|].
  split; [now rewrite number_of_digits|].
  split.
  { apply Forall_map, Forall_rev.
    eapply Forall_impl; [exact Hall36|]. intros d Hd.
    now apply digit_char_value. }
  split.
  { apply Forall_map, Forall_rev.
    rewrite Forall_forall in Hall, Hall36. apply Forall_forall.
    intros d Hd. cbn.
    destruct (digit_char_value d (Hall36 d Hd)) as [-> _]. exact (Hall d Hd). }
  split; [now rewrite length_map, length_rev|].
  destruct (Hlast ltac:(lia)) as (ds' & d & -> & Hd0).
  rewrite rev_app_distr. cbn [rev app map hd].
  rewrite Forall_app in Hall36. destruct Hall36 as [_ Hd].
  inversion Hd as [|? ? Hd1 _]; subst.
  intros E. now apply (digit_char_value d Hd1) in E.
Qed.

(** X21. printIntegerInBase(n, base) with a base of 2..36 prints n, most
    significant digit first, in the digits 0-9 and A-Z: reading the
    printed chars back in the base gives n.  Every digit is below the
    base, at most 32 chars are printed (the digit buffer is never
    overrun) and a number that is not zero has no leading zero; zero
    prints as the one char '0'. *)
Theorem print_in_base_reads_back
        (fuel : nat) (buf out : list Z) (n base : Z) :
  2 <= base <= 36 -> 0 <= n < 2 ^ 32 ->
  length buf = 32%nat -> (32 < fuel)%nat ->
  exists cs,
    printIntegerInBase fuel buf n base out = Done (out ++ cs) /\
    number base cs = n /\
    Forall is_digit_char cs /\
    Forall (fun c => 0 <= digit_value c < base) cs /\
    (1 <= length cs <= 32)%nat /\
    (n = 0 -> cs = [48]) /\
    (0 < n -> hd 0 cs <> 48).
Proof.
  intros Hb Hn Hlen Hfuel.
  destruct (Z.eq_dec n 0) as [->|Hnz].
  - exists [48]. split; [reflexivity|]. split; [reflexivity|].
    split; [constructor; [unfold is_digit_char; lia|constructor]|].
    split; [constructor;
            [change (digit_value 48) with 0; lia|constructor]|].
    split; [cbn [length]; lia|]. split; [reflexivity|lia].
  - destruct (print_in_base_spec fuel buf out n base Hb ltac:(lia) Hlen Hfuel)
      as (cs & Hrun & Hnum & Hch & Hlt & Hl & Hhd).
    exists cs. repeat split; try assumption; try lia.
    destruct cs; [cbn in Hnum; lia|cbn; lia].
Qed.

(** With base 1 the digit loop never makes n smaller: it stores 32
    digits and then writes past the end of the buffer. *)
Lemma digit_loop_base_1 :
  forall (k fuel : nat) (n : Z) (buf : list Z) (i : nat),
    0 < n -> (k < fuel)%nat -> (i + k = 32)%nat -> length buf = 32%nat ->
    digit_loop fuel n 1 buf (Z.of_nat i) = Undefined.
Proof.
  induction k as [|k IH]; intros fuel n buf i Hn Hfuel Hi Hlen;
    (destruct fuel as [|fuel]; [lia|]); cbn [digit_loop];
    (destruct (Z.gtb_spec n 0); [|lia]); change (1 =? 0) with false;
    cbv iota; unfold array_set.
  - destruct (Z.ltb_spec (Z.of_nat i) (Z.of_nat (length buf))); [lia|].
    now rewrite andb_false_r.
  - destruct (Z.leb_spec 0 (Z.of_nat i)); [|lia].
    destruct (Z.ltb_spec (Z.of_nat i) (Z.of_nat (length buf))); [|lia].
    cbn [andb]. rewrite Z.div_1_r.
    assert (Hi1 : u32 (Z.of_nat i + 1) = Z.of_nat (S i))
      by (unfold u32; rewrite Z.mod_small; lia).
    rewrite Hi1. apply IH; [lia|lia|lia|now rewrite length_insert].
Qed.

(** X22. printIntegerInBase() guards neither of the bases 0 and 1.  For
    a number that is not zero, base 0 divides by zero at the first digit,
    and base 1 never makes the number smaller, so the digit loop fills
    all 32 entries of the buffer and then writes past its end.  Zero
    prints as '0' whatever the base. *)
Theorem print_in_base_0_or_1_is_undefined
        (fuel : nat) (buf out : list Z) (n : Z) :
  0 < n -> length buf = 32%nat -> (32 < fuel)%nat ->
  printIntegerInBase fuel buf n 0 out = Undefined /\
  printIntegerInBase fuel buf n 1 out = Undefined /\
  (forall base, printIntegerInBase fuel buf 0 base out = Done (out ++ [48])).
Proof.
  intros Hn Hlen Hfuel. unfold printIntegerInBase.
  destruct (Z.eqb_spec n 0); [lia|]. split; [|split].
  - destruct fuel; [lia|]. cbn [digit_loop].
    destruct (Z.gtb_spec n 0); [reflexivity|lia].
  - change 0 with (Z.of_nat 0) at 1.
    now rewrite (digit_loop_base_1 32 fuel n buf 0) by (assumption || lia).
  - reflexivity.
Qed.

(** X23. printInteger() prints a minus sign for a negative number and
    then the decimal digits of its magnitude, so the printed chars read
    back as the number; printHex() prints an unsigned number in the
    digits 0-9 and A-F so that it reads back in base 16.  The least long,
    whose negation overflows, is the one argument left out. *)
Theorem print_integer_reads_back
        (fuel : nat) (buf out : list Z) (n m : Z) :
  - 2 ^ 31 < n < 2 ^ 31 -> 0 <= m < 2 ^ 32 ->
  length buf = 32%nat -> (32 < fuel)%nat ->
  (exists cs,
     printInteger fuel buf n out
     = Done (out ++ (if n <? 0 then [45] else []) ++ cs) /\
     Forall (fun c => 48 <= c <= 57) cs /\
     (if n <? 0 then - number 10 cs else number 10 cs) = n) /\
  (exists cs,
     printHex fuel buf m out = Done (out ++ cs) /\
     Forall (fun c => 48 <= c <= 57 \/ 65 <= c <= 70) cs /\
     number 16 cs = m).
Proof.
  intros Hn Hm Hlen Hfuel.
  assert (Hdec : forall k o, 0 <= k < 2 ^ 32 ->
            exists cs, printIntegerInBase fuel buf k 10 o = Done (o ++ cs) /\
                       Forall (fun c => 48 <= c <= 57) cs /\
                       number 10 cs = k).
  { intros k o Hk. destruct (Z.eq_dec k 0) as [->|Hnz].
    - exists [48]. repeat split. repeat constructor; lia.
    - destruct (print_in_base_spec fuel buf o k 10 ltac:(lia) ltac:(lia)
                  Hlen Hfuel) as (cs & Hrun & Hnum & Hch & Hlt & _).
      exists cs. split; [exact Hrun|]. split; [|exact Hnum].
      rewrite Forall_forall in Hch, Hlt. apply Forall_forall. intros c Hc.
      specialize (Hch c Hc). specialize (Hlt c Hc). cbn in Hlt.
      unfold is_digit_char, digit_value in *.
      destruct (Z.ltb_spec c 65); lia. }
  split.
  - unfold printInteger. destruct (Z.ltb_spec n 0) as [Hneg|Hpos].
    + destruct (Z.eqb_spec n (- 2 ^ 31)); [lia|].
      assert (Hu : u32 (- n) = - n) by (unfold u32; rewrite Z.mod_small; lia).
      rewrite Hu. destruct (Hdec (- n) (out ++ [45]) ltac:(lia))
        as (cs & Hrun & Hch & Hnum).
      exists cs. rewrite Hrun, <- app_assoc. repeat split; [assumption|lia].
    + assert (Hu : u32 n = n) by (unfold u32; rewrite Z.mod_small; lia).
      rewrite Hu. destruct (Hdec n out ltac:(lia)) as (cs & Hrun & Hch & Hnum).
      exists cs. rewrite Hrun. now repeat split.
  - unfold printHex.
    destruct (Z.eq_dec m 0) as [->|Hnz].
    + exists [48]. repeat split. repeat constructor; lia.
    + destruct (print_in_base_spec fuel buf out m 16 ltac:(lia)
                  ltac:(lia) Hlen Hfuel) as (cs & Hrun & Hnum & Hch & Hlt & _).
      exists cs. split; [exact Hrun|]. split; [|exact Hnum].
      rewrite Forall_forall in Hch, Hlt. apply Forall_forall. intros c Hc.
      specialize (Hch c Hc). specialize (Hlt c Hc). cbn in Hlt.
      unfold is_digit_char, digit_value in *.
      destruct (Z.ltb_spec c 65); lia.
Qed.

End Print.

Section ConfigParser.

Lemma save_char_kept (c : Z) (g : globals) :
  save_char c g = match kept c with Some c' => store c' g | None => Some g end.
Proof.
  unfold save_char, kept.
  destruct (c =? 61), (c =? 45); cbn [orb]; try reflexivity.
  destruct ((97 <=? c) && (c <=? 122)).
  - now replace (c - 97 + 65) with (c - 32) by lia.
  - destruct ((65 <=? c) && (c <=? 90)), ((48 <=? c) && (c <=? 57));
      reflexivity.
Qed.

Lemma kept_in_alphabet (c c' : Z) : kept c = Some c' -> in_alphabet c'.
Proof.
  unfold kept, in_alphabet.
  destruct (Z.eqb_spec c 61); [intros [= <-]; lia|].
  destruct (Z.eqb_spec c 45); [intros [= <-]; lia|]. cbn [orb].
  destruct (Z.leb_spec 97 c), (Z.leb_spec c 122); cbn [andb];
    try (intros [= <-]; lia);
    destruct (Z.leb_spec 65 c), (Z.leb_spec c 90),
             (Z.leb_spec 48 c), (Z.leb_spec c 57); cbn [andb orb];
    try discriminate; intros [= <-]; lia.
Qed.

Lemma kept_fixes_alphabet (c : Z) : in_alphabet c -> kept c = Some c.
Proof.
  unfold kept, in_alphabet. intros H.
  destruct (Z.eqb_spec c 61); [reflexivity|].
  destruct (Z.eqb_spec c 45); [reflexivity|]. cbn [orb].
  destruct (Z.leb_spec 97 c), (Z.leb_spec c 122); cbn [andb]; try lia;
    destruct (Z.leb_spec 65 c), (Z.leb_spec c 90),
             (Z.leb_spec 48 c), (Z.leb_spec c 57); cbn [andb orb];
    try reflexivity; lia.
Qed.

Lemma normalised_in_alphabet (t : list Z) : Forall in_alphabet (normalised t).
Proof.
  unfold normalised. induction t as [|c t IH]; [constructor|].
  cbn [omap list_omap]. destruct (kept c) eqn:E; [|exact IH].
  constructor; [exact (kept_in_alphabet _ _ E)|exact IH].
Qed.

Lemma normalised_cons (c : Z) (t : list Z) :
  normalised (c :: t)
  = match kept c with Some c' => c' :: normalised t | None => normalised t end.
Proof. reflexivity. Qed.

Lemma normalised_app (t1 t2 : list Z) :
  normalised (t1 ++ t2) = normalised t1 ++ normalised t2.
Proof.
  induction t1 as [|c t1 IH]; [reflexivity|].
  cbn [app]. rewrite !normalised_cons, IH. now destruct (kept c).
Qed.

Lemma stored_nil (g : globals) :
  0 <= j g -> stored [] g = g.
Proof.
  intros Hj. unfold stored. cbn [app length].
  rewrite Nat.add_0_r, take_drop, Z.add_0_r. now destruct g.
Qed.

Lemma store_stored (c : Z) (cs : list Z) (g g' : globals) :
  0 <= j g -> j g < Z.of_nat (length (configline g)) <= 32767 ->
  store c g = Some g' ->
  0 <= j g' /\ length (configline g') = length (configline g) /\
  j g' = j g + 1 /\
  stored cs g' = stored (c :: cs) g.
Proof.
  intros Hj Hlen. unfold store.
  pose proof (array_set_nat (configline g) (Z.to_nat (j g)) c ltac:(lia))
    as Hs.
  rewrite Z2Nat.id in Hs by lia. rewrite Hs.
  intros [= <-]. cbn [j configline].
  rewrite s16_small by lia. rewrite length_insert.
  split; [lia|]. split; [reflexivity|]. split; [reflexivity|].
  unfold stored. cbn [j configline length]. f_equal; [|lia].
  replace (Z.to_nat (j g + 1)) with (S (Z.to_nat (j g))) by lia.
  apply store_step. lia.
Qed.

Lemma store_in_range (c : Z) (g : globals) :
  0 <= j g < Z.of_nat (length (configline g)) ->
  exists g', store c g = Some g'.
Proof.
  intros Hj. unfold store.
  pose proof (array_set_nat (configline g) (Z.to_nat (j g)) c ltac:(lia))
    as Hs.
  rewrite Z2Nat.id in Hs by lia. rewrite Hs. now eexists.
Qed.

Lemma store_out_of_range (c : Z) (g : globals) :
  Z.of_nat (length (configline g)) <= j g -> store c g = None.
Proof.
  intros Hj. unfold store, array_set.
  destruct (Z.ltb_spec (j g) (Z.of_nat (length (configline g)))); [lia|].
  now rewrite andb_false_r.
Qed.

(** The loop of config_parse() over a text that fits. *)
Lemma config_parse_loop_stores (t : list Z) :
  forall (fuel : nat) (pre post : list Z) (g : globals),
    Forall (fun c => c <> 0) t ->
    0 <= j g ->
    j g + Z.of_nat (length (normalised t))
    <= Z.of_nat (length (configline g)) <= 32767 ->
    Z.of_nat (length pre + length t) < 32767 ->
    (length t < fuel)%nat ->
    config_parse_loop fuel (pre ++ t ++ 0 :: post) (Z.of_nat (length pre)) g
    = Done (stored (normalised t) g).
Proof.
  induction t as [|c t IH]; intros fuel pre post g Hnz Hj Hfit Hi Hfuel;
    (destruct fuel as [|fuel]; [cbn in Hfuel; lia|]);
    cbn [config_parse_loop app]; rewrite array_get_middle.
  - change (0 =? 0) with true. cbv iota. now rewrite stored_nil.
  - inversion Hnz as [|? ? Hc Hnz']; subst.
    destruct (Z.eqb_spec c 0); [contradiction|].
    cbn [length] in *. rewrite s16_small by lia.
    replace (Z.of_nat (length pre) + 1) with (Z.of_nat (length (pre ++ [c])))
      by (rewrite length_app; cbn; lia).
    change (pre ++ c :: t ++ 0 :: post) with (pre ++ (c :: t) ++ 0 :: post).
    rewrite snoc_middle.
    rewrite save_char_kept. rewrite normalised_cons in *.
    destruct (kept c) as [c'|] eqn:E.
    + cbn [length] in Hfit.
      destruct (store_in_range c' g ltac:(lia)) as [g' Hs]. rewrite Hs.
      destruct (store_stored c' (normalised t) g g' Hj ltac:(lia) Hs)
        as (Hj' & Hl' & Hjj & Hst).
      rewrite IH; [now rewrite Hst|exact Hnz'|exact Hj'| | |lia].
      * rewrite Hl', Hjj. lia.
      * rewrite length_app. cbn [length]. lia.
    + rewrite IH; [reflexivity|exact Hnz'|exact Hj|exact Hfit| |lia].
      rewrite length_app. cbn [length]. lia.
Qed.

(** The loop over a text that does not fit. *)
Lemma config_parse_loop_overruns (t : list Z) :
  forall (fuel : nat) (pre post : list Z) (g : globals),
    Forall (fun c => c <> 0) t ->
    0 <= j g <= Z.of_nat (length (configline g)) ->
    Z.of_nat (length (configline g)) <= 32767 ->
    Z.of_nat (length (configline g))
    < j g + Z.of_nat (length (normalised t)) ->
    Z.of_nat (length pre + length t) < 32767 ->
    (length t < fuel)%nat ->
    config_parse_loop fuel (pre ++ t ++ 0 :: post) (Z.of_nat (length pre)) g
    = Undefined.
Proof.
  induction t as [|c t IH]; intros fuel pre post g Hnz Hj Hmax Hover Hi Hfuel;
    (destruct fuel as [|fuel]; [cbn in Hfuel; lia|]);
    cbn [config_parse_loop app]; rewrite array_get_middle.
  - cbn in Hover. lia.
  - inversion Hnz as [|? ? Hc Hnz']; subst.
    destruct (Z.eqb_spec c 0); [contradiction|].
    cbn [length] in *. rewrite s16_small by lia.
    replace (Z.of_nat (length pre) + 1) with (Z.of_nat (length (pre ++ [c])))
      by (rewrite length_app; cbn; lia).
    change (pre ++ c :: t ++ 0 :: post) with (pre ++ (c :: t) ++ 0 :: post).
    rewrite snoc_middle.
    rewrite save_char_kept. rewrite normalised_cons in *.
    destruct (kept c) as [c'|] eqn:E.
    + cbn [length] in Hover.
      destruct (Z_lt_le_dec (j g) (Z.of_nat (length (configline g))))
        as [Hin|Hout].
      * destruct (store_in_range c' g ltac:(lia)) as [g' Hs]. rewrite Hs.
        destruct (store_stored c' [] g g' ltac:(lia) ltac:(lia) Hs)
          as (Hj' & Hl' & Hjj & _).
        apply IH; [exact Hnz'|rewrite Hl', Hjj; lia|rewrite Hl'; lia| | |lia].
        -- rewrite Hl', Hjj. lia.
        -- rewrite length_app. cbn [length]. lia.
      * now rewrite store_out_of_range by lia.
    + apply IH; [exact Hnz'|exact Hj|exact Hmax|exact Hover| |lia].
      rewrite length_app. cbn [length]. lia.
Qed.


Lemma stored_fields (cs : list Z) (g : globals) :
  0 <= j g ->
  j g + Z.of_nat (length cs) <= Z.of_nat (length (configline g)) ->
  length (configline (stored cs g)) = length (configline g) /\
  take (Z.to_nat (j g)) (configline (stored cs g))
  = take (Z.to_nat (j g)) (configline g) /\
  take (length cs) (drop (Z.to_nat (j g)) (configline (stored cs g))) = cs /\
  drop (Z.to_nat (j (stored cs g))) (configline (stored cs g))
  = drop (Z.to_nat (j (stored cs g))) (configline g).
Proof.
  intros Hj Hfit. unfold stored. cbn [configline j].
  set (a := Z.to_nat (j g)). set (l := configline g) in *.
  assert (Ha : length (take a l) = a) by (rewrite length_take; lia).
  split; [|split; [|split]].
  - rewrite !length_app, Ha, length_drop. lia.
  - rewrite take_app_length'; [reflexivity|now rewrite Ha].
  - rewrite drop_app_length'; [|now rewrite Ha]. now rewrite take_app_length.
  - replace (Z.to_nat (j g + Z.of_nat (length cs))) with (a + length cs)%nat
      by lia.
    rewrite app_assoc. rewrite drop_app_length'; [reflexivity|].
    rewrite length_app, Ha. reflexivity.
Qed.

Lemma stored_app (cs1 cs2 : list Z) (g : globals) :
  0 <= j g ->
  j g + Z.of_nat (length cs1) <= Z.of_nat (length (configline g)) ->
  stored cs2 (stored cs1 g) = stored (cs1 ++ cs2) g.
Proof.
  intros Hj Hfit.
  destruct (stored_fields cs1 g Hj Hfit) as (_ & _ & _ & Hd).
  unfold stored in *. cbn [configline j] in *.
  set (a := Z.to_nat (j g)) in *. set (l := configline g) in *.
  assert (Ha : length (take a l) = a) by (rewrite length_take; lia).
  replace (Z.to_nat (j g + Z.of_nat (length cs1))) with (a + length cs1)%nat
    in * by lia.
  f_equal; [|rewrite length_app; lia].
  rewrite (app_assoc (take a l) cs1).
  rewrite take_app_length'; [|rewrite length_app, Ha; reflexivity].
  rewrite <- !app_assoc. f_equal. f_equal. f_equal.
  rewrite (app_assoc (take a l) cs1).
  rewrite drop_app_add'; [|rewrite length_app, Ha; reflexivity].
  rewrite drop_drop, length_app. f_equal. lia.
Qed.

Lemma config_parse_run (fuel : nat) (t post : list Z) (g : globals) :
  Forall (fun c => c <> 0) t ->
  0 <= j g ->
  j g + Z.of_nat (length (normalised t))
  <= Z.of_nat (length (configline g)) <= 32767 ->
  Z.of_nat (length t) < 32767 ->
  (length t < fuel)%nat ->
  config_parse fuel (t ++ 0 :: post) g = Done (stored (normalised t) g).
Proof.
  intros Hnz Hj Hfit Hi Hfuel.
  exact (config_parse_loop_stores t fuel [] post g Hnz Hj Hfit
           ltac:(cbn [length]; lia) Hfuel).
Qed.

(** X24. config_parse() stores the normalised text in configline[] from
    index j on and advances j by its length: of the chars before the
    NUL of the text line, '=' and '-', the upper-case letters and the
    digits are stored as they are, lower-case letters as upper case, and
    every other char is dropped.  The entries of configline[] before and
    after the stored chars are as they were, so the line gets no closing
    NUL. *)
Theorem config_parse_stores_normalised_text
        (fuel : nat) (t post : list Z) (g : globals) :
  Forall (fun c => c <> 0) t ->
  0 <= j g ->
  j g + Z.of_nat (length (normalised t))
  <= Z.of_nat (length (configline g)) <= 32767 ->
  Z.of_nat (length t) < 32767 ->
  (length t < fuel)%nat ->
  exists g',
    config_parse fuel (t ++ 0 :: post) g = Done g' /\
    j g' = j g + Z.of_nat (length (normalised t)) /\
    length (configline g') = length (configline g) /\
    take (Z.to_nat (j g)) (configline g')
    = take (Z.to_nat (j g)) (configline g) /\
    take (length (normalised t)) (drop (Z.to_nat (j g)) (configline g'))
    = normalised t /\
    drop (Z.to_nat (j g')) (configline g')
    = drop (Z.to_nat (j g')) (configline g) /\
    Forall in_alphabet (normalised t).
Proof.
  intros Hnz Hj Hfit Hi Hfuel.
  exists (stored (normalised t) g). split.
  - now apply config_parse_run.
  - destruct (stored_fields (normalised t) g Hj ltac:(lia))
      as (H1 & H2 & H3 & H4).
    split; [reflexivity|]. repeat (split; [assumption|]).
    apply normalised_in_alphabet.
Qed.

(** X25. Tags are case and punctuation insensitive, and so are values:
    a text with a lower-case letter and the text with its upper-case
    letter leave the same globals, and so do a text with a char that is
    neither '=', '-', a letter or a digit and the text without it.  The
    decimal point is such a char, as are the underscore, the blank and
    the plus sign, so 0.1 is stored as 01. *)
Theorem config_parse_ignores_case_and_punctuation
        (fuel : nat) (t1 t2 post post' : list Z) (c : Z) (g : globals) :
  Forall (fun c => c <> 0) (t1 ++ t2) -> c <> 0 ->
  0 <= j g ->
  j g + Z.of_nat (length (normalised (t1 ++ c :: t2)))
  <= Z.of_nat (length (configline g)) <= 32767 ->
  Z.of_nat (length (t1 ++ c :: t2)) < 32767 ->
  (length (t1 ++ c :: t2) < fuel)%nat ->
  (97 <= c <= 122 ->
   config_parse fuel ((t1 ++ c :: t2) ++ 0 :: post) g
   = config_parse fuel ((t1 ++ (c - 32) :: t2) ++ 0 :: post') g) /\
  (kept c = None ->
   config_parse fuel ((t1 ++ c :: t2) ++ 0 :: post) g
   = config_parse fuel ((t1 ++ t2) ++ 0 :: post') g) /\
  kept 46 = None /\ kept 95 = None /\ kept 32 = None /\ kept 43 = None.
Proof.
  intros Hnz Hc Hj Hfit Hi Hfuel.
  apply Forall_app in Hnz. destruct Hnz as [Hn1 Hn2].
  assert (Hrun : forall t p,
             Forall (fun c => c <> 0) t ->
             (length t <= length (t1 ++ c :: t2))%nat ->
             normalised t = normalised (t1 ++ c :: t2) ->
             config_parse fuel (t ++ 0 :: p) g
             = Done (stored (normalised (t1 ++ c :: t2)) g)).
  { intros t p Ht Hl Hn. rewrite <- Hn.
    apply config_parse_run; [exact Ht|exact Hj|now rewrite Hn|lia|lia]. }
  split; [|split; [|repeat split]].
  - intros Hlow.
    rewrite (Hrun (t1 ++ c :: t2) post);
      [|apply Forall_app; split; [|constructor]; assumption|lia|reflexivity].
    rewrite (Hrun (t1 ++ (c - 32) :: t2) post'); [reflexivity| | |].
    + apply Forall_app. split; [assumption|]. constructor; [lia|assumption].
    + rewrite !length_app. cbn [length]. lia.
    + rewrite !normalised_app, !normalised_cons. f_equal.
      assert (K1 : kept c = Some (c - 32)).
      { unfold kept. destruct (Z.eqb_spec c 61); [lia|].
        destruct (Z.eqb_spec c 45); [lia|]. cbn [orb].
        destruct (Z.leb_spec 97 c); [|lia].
        destruct (Z.leb_spec c 122); [|lia]. reflexivity. }
      assert (K2 : kept (c - 32) = Some (c - 32)).
      { apply kept_fixes_alphabet. unfold in_alphabet. lia. }
      now rewrite K1, K2.
  - intros Hdrop.
    rewrite (Hrun (t1 ++ c :: t2) post);
      [|apply Forall_app; split; [|constructor]; assumption|lia|reflexivity].
    rewrite (Hrun (t1 ++ t2) post'); [reflexivity| | |].
    + apply Forall_app. now split.
    + rewrite !length_app. cbn [length]. lia.
    + rewrite !normalised_app, normalised_cons. now rewrite Hdrop.
Qed.

(** X26. config_parse() never resets j, so calls accumulate: parsing
    one line and then a second leaves the globals that parsing the two
    texts as one line leaves.  The second line is appended to the first
    in configline[]; it does not replace it. *)
Theorem config_parse_calls_accumulate
        (fuel : nat) (t1 t2 post1 post2 post : list Z) (g : globals) :
  Forall (fun c => c <> 0) (t1 ++ t2) ->
  0 <= j g ->
  j g + Z.of_nat (length (normalised (t1 ++ t2)))
  <= Z.of_nat (length (configline g)) <= 32767 ->
  Z.of_nat (length (t1 ++ t2)) < 32767 ->
  (length (t1 ++ t2) < fuel)%nat ->
  exists g1 g2,
    config_parse fuel (t1 ++ 0 :: post1) g = Done g1 /\
    config_parse fuel (t2 ++ 0 :: post2) g1 = Done g2 /\
    config_parse fuel ((t1 ++ t2) ++ 0 :: post) g = Done g2 /\
    j g1 = j g + Z.of_nat (length (normalised t1)) /\
    j g2 = j g1 + Z.of_nat (length (normalised t2)).
Proof.
  intros Hnz Hj Hfit Hi Hfuel.
  pose proof Hnz as Hnz'. apply Forall_app in Hnz'.
  destruct Hnz' as [Hn1 Hn2].
  rewrite normalised_app, !length_app in *.
  assert (Hrun : forall t p g0,
             Forall (fun c => c <> 0) t -> 0 <= j g0 ->
             j g0 + Z.of_nat (length (normalised t))
             <= Z.of_nat (length (configline g0)) <= 32767 ->
             (length t <= length t1 + length t2)%nat ->
             config_parse fuel (t ++ 0 :: p) g0
             = Done (stored (normalised t) g0)).
  { intros t p g0 Ht Hj0 Hfit0 Hl.
    apply config_parse_run; [exact Ht|exact Hj0|exact Hfit0|lia|lia]. }
  destruct (stored_fields (normalised t1) g Hj ltac:(lia)) as (Hl1 & _).
  exists (stored (normalised t1) g),
         (stored (normalised t2) (stored (normalised t1) g)).
  split; [apply Hrun; [exact Hn1|exact Hj|lia|lia]|].
  split.
  { apply Hrun; [exact Hn2|cbn [stored j]; lia| |lia].
    rewrite Hl1. cbn [stored j]. lia. }
  split.
  { rewrite stored_app by lia. rewrite <- normalised_app.
    apply Hrun; [exact Hnz|exact Hj| |rewrite length_app; lia].
    rewrite normalised_app, length_app. lia. }
  split; reflexivity.
Qed.

(** X27. config_parse() does not test j against the size of
    configline[]: a text whose normalised form does not fit behind j
    makes it write past the end of the array. *)
Theorem config_parse_overruns_configline
        (fuel : nat) (t post : list Z) (g : globals) :
  Forall (fun c => c <> 0) t ->
  0 <= j g <= Z.of_nat (length (configline g)) ->
  Z.of_nat (length (configline g)) <= 32767 ->
  Z.of_nat (length (configline g))
  < j g + Z.of_nat (length (normalised t)) ->
  Z.of_nat (length t) < 32767 ->
  (length t < fuel)%nat ->
  config_parse fuel (t ++ 0 :: post) g = Undefined.
Proof.
  intros Hnz Hj Hmax Hover Hi Hfuel.
  exact (config_parse_loop_overruns t fuel [] post g Hnz Hj Hmax Hover
           ltac:(cbn [length]; lia) Hfuel).
Qed.

(** X28. config_test() overruns configline[]: it hands three lines to
    config_parse(), each normalised to 18 chars, and with j at 0 at the
    start the third runs past the 40 entries of the array, whatever the
    arrays held before. *)
Theorem config_test_overruns_configline
        (fuel : nat) (textline line : list Z) :
  length textline = 40%nat -> length line = 40%nat -> (100 <= fuel)%nat ->
  config_test fuel textline (mk_globals line 0) = Undefined.
Proof.
  intros Ht Hl Hfuel.
  replace fuel with (100 + (fuel - 100))%nat by lia.
  generalize (fuel - 100)%nat as k. intros k. clear Hfuel fuel.
  do 40 (destruct textline as [|? textline]; [discriminate|]).
  destruct textline; [|discriminate].
  do 40 (destruct line as [|? line]; [discriminate|]).
  destruct line; [|discriminate].
  vm_compute. reflexivity.
Qed.

End ConfigParser.

(** * Runs on the 32-byte configuration *)

Section Concrete.
#[local] Existing Instance cfg32.

Lemma cfg32_ok : cfg_ok cfg32.
Proof. split; cbn; lia. Qed.

(** C1. The exact-count write loop tests "--size == 0" before it sends:
    on an opened USB device write(fd, "Hi!", 3) sends the two bytes "Hi"
    and returns 2, and write(fd, "Hi!", 1) sends nothing and returns 0. *)
Theorem exact_count_write_is_one_byte_short :
  let w := usb_opened cfg32 0 in
  let o3 := xio_write 8 FD_USB [72; 105; 33] 3 w in
  let o1 := xio_write 8 FD_USB [72; 105; 33] 1 w in
  rx_size_max (fd_usb w) = 31 /\
  result_of o3 = Some 2 /\ DATA_tx (usartc0 (world_of o3 w)) = [72; 105] /\
  result_of o1 = Some 0 /\ DATA_tx (usartc0 (world_of o1 w)) = [].
Proof. vm_compute. repeat split. Qed.

(** C5. open() with a control word that carries only a baud-rate
    selector succeeds and leaves the device without its read flag: the
    test "control && IO_RDONLY" is true for every control word that is not
    zero.  With control word 0 both flags are set. *)
Theorem open_with_baud_only_clears_read_flag :
  Forall (fun control =>
            let w := reset_world cfg32 [] in
            let o := (xio_init ;;; xio_open DEV_USB control) w in
            result_of o = Some FD_USB /\
            READ_ENABLED (flags (fd_usb (world_of o w))) = false /\
            WRITE_ENABLED (flags (fd_usb (world_of o w))) = true)
         [IO_BAUD_9600; IO_BAUD_19200; IO_BAUD_38400; IO_BAUD_57600;
          IO_BAUD_115200; IO_BAUD_230400; IO_BAUD_460800; IO_BAUD_921600;
          IO_BAUD_500000; IO_BAUD_1000000] /\
  READ_ENABLED (flags (fd_usb (usb_opened cfg32 0))) = true /\
  WRITE_ENABLED (flags (fd_usb (usb_opened cfg32 0))) = true.
Proof.
  split; [|split; reflexivity].
  repeat constructor; vm_compute; reflexivity.
Qed.

(** C6. The exact-count write is checked against the read limit.  With
    rx_size_max 31 and tx_size_max 100, a write of 50 bytes fails with
    EFBIG and sends nothing although 50 is within the transmit limit;
    with rx_size_max 100 and tx_size_max 10, a write of 50 bytes is not
    refused although it exceeds the transmit limit. *)
Theorem write_limit_is_the_read_limit :
  let w := usb_opened cfg32 0 in
  let src := replicate 50 65 in
  let o1 := (xio_control FD_USB IO_WR_SIZE_MAX 100 ;;;
             xio_write 60 FD_USB src 50) w in
  let o2 := (xio_control FD_USB IO_RD_SIZE_MAX 100 ;;;
             xio_control FD_USB IO_WR_SIZE_MAX 10 ;;;
             xio_write 60 FD_USB src 50) w in
  (tx_size_max (fd_usb (world_of o1 w)) = 100 /\
   rx_size_max (fd_usb (world_of o1 w)) = 31 /\
   result_of o1 = Some (-1) /\ errno (world_of o1 w) = EFBIG /\
   DATA_tx (usartc0 (world_of o1 w)) = []) /\
  (tx_size_max (fd_usb (world_of o2 w)) = 10 /\
   result_of o2 = Some 49 /\ errno (world_of o2 w) = ENOERR /\
   length (DATA_tx (usartc0 (world_of o2 w))) = 49%nat).
Proof. vm_compute. repeat split. Qed.

(** C7. A string-mode read that reaches the limit sets EFBIG, not
    EMSGSIZE.  With rx_size_max 2 and "ab" in the ring, readstr() returns
    -1 with the buffer "ab" and a NUL and errno EFBIG; the line-mode read
    of the same input returns -1 with the same buffer and EMSGSIZE. *)
Theorem string_mode_limit_sets_EFBIG :
  let w := usb_opened cfg32 0 in
  let arrive := xio_control FD_USB IO_RD_SIZE_MAX 2 ;;;
                ISR_USB_RX 97 ;;; ISR_USB_RX 98 in
  let os := (arrive ;;; xio_read 8 FD_USB [9; 9; 9; 9] STR_MODE) w in
  let ol := (arrive ;;; xio_read 8 FD_USB [9; 9; 9; 9] LINE_MODE) w in
  result_of os = Some (-1, [97; 98; 0; 9]) /\
  errno (world_of os w) = EFBIG /\
  errno (world_of os w) <> EMSGSIZE /\
  result_of ol = Some (-1, [97; 98; 0; 9]) /\
  errno (world_of ol w) = EMSGSIZE.
Proof. vm_compute. repeat split. discriminate. Qed.

(** The thirty bytes fill the ring. *)
Lemma full_usb_world_is_full :
  index_ok (rx_buf_head (fd_usb full_usb_world)) /\
  ring_full (fd_usb full_usb_world).
Proof. split; [split; vm_compute; discriminate|reflexivity]. Qed.

Lemma push_on_full_witness :
  cfg_ok cfg32 /\
  index_ok (rx_buf_head (deref ref_usb full_usb_world)) /\
  ring_full (deref ref_usb full_usb_world) /\
  ISR_USB_RX 99 full_usb_world = Ret tt full_usb_world.
Proof.
  split; [exact cfg32_ok|].
  split; [exact (proj1 full_usb_world_is_full)|].
  split; [exact (proj2 full_usb_world_is_full)|].
  exact (push_on_full_changes_nothing ref_usb 99 full_usb_world cfg32_ok
           (proj1 full_usb_world_is_full) (proj2 full_usb_world_is_full)).
Defined.

Lemma nonblocking_empty_read_witness :
  let w := usb_opened cfg32 IO_RDNONBLOCK in
  BLOCKING_ENABLED (flags (deref ref_usb w)) = false /\
  ring_empty (deref ref_usb w) /\
  _read_char_USART ref_usb w = Ret (-1) (set_errno EAGAIN w) /\
  exists buf', _read_usb 4 ref_usb [9; 9; 9; 9] 3 w
               = Ret (-1, buf') (set_errno EAGAIN w).
Proof.
  cbv zeta.
  assert (Hnb : BLOCKING_ENABLED
                  (flags (deref ref_usb (usb_opened cfg32 IO_RDNONBLOCK)))
                = false) by reflexivity.
  assert (He : ring_empty (deref ref_usb (usb_opened cfg32 IO_RDNONBLOCK)))
    by reflexivity.
  split; [exact Hnb|]. split; [exact He|].
  destruct (nonblocking_empty_read_would_block
              ref_usb (usb_opened cfg32 IO_RDNONBLOCK) Hnb He)
    as [Hc [_ [_ Hbulk]]].
  split; [exact Hc|].
  apply Hbulk; [discriminate|discriminate|discriminate|].
  vm_compute. split; discriminate.
Defined.

Lemma failed_exact_read_witness :
  let w := usb_opened cfg32 IO_RDNONBLOCK in
  0 < 3 <= rx_size_max (deref ref_usb w) /\
  3 <= 32767 /\
  _read_usb 4 ref_usb [9; 9; 9; 9] 3 w
  = Ret (-1, [-1; 9; 9; 9]) (set_errno EAGAIN w).
Proof.
  cbv zeta.
  assert (Hsz : 0 < 3 <= rx_size_max
                             (deref ref_usb (usb_opened cfg32 IO_RDNONBLOCK)))
    by (vm_compute; split; [reflexivity|discriminate]).
  assert (Hmax : 3 <= 32767) by lia.
  split; [exact Hsz|]. split; [exact Hmax|].
  destruct (failed_exact_read_stores_sentinel
              4 ref_usb [9; 9; 9; 9] 3 (usb_opened cfg32 IO_RDNONBLOCK)
              Hsz Hmax) as [_ Hblock].
  apply Hblock; [reflexivity|reflexivity|discriminate|discriminate].
Defined.

Lemma usb_opened_ready : usb_ready (usb_opened cfg32 0).
Proof.
  split; [split| | |]; vm_compute;
    try reflexivity; try discriminate; split; discriminate.
Qed.

Lemma ring_pops_in_push_order_witness :
  let w := usb_opened cfg32 0 in
  let cs := [Receive 65; Pop FD_RS485; Receive 66; Pop FD_USB; Pop FD_USB] in
  cfg_ok cfg32 /\ usb_ready w /\ ring_empty (fd_usb w) /\
  Z.of_nat (length (rx_data (usb_ops cs))) < USART_RX_BUFSIZE /\
  result_of (run_calls cs w) = Some [(FD_USB, 65); (FD_USB, 66)] /\
  (forall out w',
      run_calls cs w = Ret out w' ->
      Forall (fun x => fst x = FD_USB) out /\
      fifo_run (BLOCKING_ENABLED (flags (fd_usb w))) (usb_ops cs) []
      = Some (map snd out) /\
      map snd out `prefix_of` rx_data (usb_ops cs)) /\
  (BLOCKING_ENABLED (flags (fd_usb w)) = false ->
   exists out w', run_calls cs w = Ret out w').
Proof.
  cbv zeta.
  assert (He : ring_empty (fd_usb (usb_opened cfg32 0))) by reflexivity.
  assert (Hn : Z.of_nat
                 (length
                    (rx_data
                       (usb_ops [Receive 65; Pop FD_RS485; Receive 66;
                                 Pop FD_USB; Pop FD_USB])))
               < USART_RX_BUFSIZE) by reflexivity.
  split; [exact cfg32_ok|]. split; [exact usb_opened_ready|].
  split; [exact He|]. split; [exact Hn|]. split; [reflexivity|].
  exact (ring_pops_in_push_order
           [Receive 65; Pop FD_RS485; Receive 66; Pop FD_USB; Pop FD_USB]
           (usb_opened cfg32 0) cfg32_ok usb_opened_ready He Hn).
Defined.


End Concrete.

(** * Instances on the 32-byte configuration *)

Section Instances.
#[local] Existing Instance cfg32.

(** Hypotheses at concrete inputs are settled by evaluation. *)
Ltac differ :=
  match goal with
  | |- _ -> False => let H := fresh in intro H; discriminate H
  end.

Ltac ev :=
  solve [ exact cfg32_ok
        | vm_compute; solve [exact eq_refl | differ | repeat constructor]
        | split; ev | right; ev | left; ev
        | progress vm_compute; ev ].

Lemma exact_read_returns_oldest_bytes_witness :
  let fuel := 4%nat in
  let buf := [0; 0; 0; 0] in
  let k := [72; 105] in
  let rest := [33] in
  let w := usb_received cfg32 [72; 105; 33] (usb_opened cfg32 0) in
  (cfg_ok cfg32) /\
  (usb_open w) /\
  (contents (fd_usb w) = k ++ rest) /\
  (k <> []) /\
  (Forall plain k) /\
  (Z.of_nat (length k) <= rx_size_max (fd_usb w)) /\
  (Z.of_nat (length k) <= 32767) /\
  ((length k <= fuel)%nat) /\
  ((length k <= length buf)%nat) /\
  (exists w',
     xio_read fuel FD_USB buf (Z.of_nat (length k)) w
     = Ret (Z.of_nat (length k), k ++ drop (length k) buf) w' /\
     usb_took k w w').
Proof.
  intros fuel buf k rest w.
  assert (H1 : cfg_ok cfg32) by ev.
  assert (H2 : usb_open w) by ev.
  assert (H3 : contents (fd_usb w) = k ++ rest) by ev.
  assert (H4 : k <> []) by ev.
  assert (H5 : Forall plain k) by ev.
  assert (H6 : Z.of_nat (length k) <= rx_size_max (fd_usb w)) by ev.
  assert (H7 : Z.of_nat (length k) <= 32767) by ev.
  assert (H8 : (length k <= fuel)%nat) by ev.
  assert (H9 : (length k <= length buf)%nat) by ev.
  split; [exact H1|]. split; [exact H2|]. split; [exact H3|].
  split; [exact H4|]. split; [exact H5|]. split; [exact H6|].
  split; [exact H7|]. split; [exact H8|]. split; [exact H9|].
  exact (exact_read_returns_oldest_bytes fuel buf k rest w
           H1 H2 H3 H4 H5 H6 H7 H8 H9).
Defined.



Lemma line_read_at_limit_witness :
  let fuel := 8%nat in
  let buf := [0; 0; 0; 0; 0; 0] in
  let s := [71; 48] in
  let rest := [88] in
  let c := 10 in
  let w := world_of (xio_control FD_USB IO_RD_SIZE_MAX 3
                 (usb_received cfg32 [71; 48; 10; 88] (usb_opened cfg32 0)))
              (reset_world cfg32 []) in
  (cfg_ok cfg32) /\
  (usb_open w) /\
  (contents (fd_usb w) = s ++ c :: rest) /\
  (Forall in_line s) /\
  (c <> -1) /\
  (rx_size_max (fd_usb w) = Z.of_nat (S (length s))) /\
  (Z.of_nat (S (length s)) <= 32767) /\
  ((length s < fuel)%nat) /\
  ((length s + 2 <= length buf)%nat) /\
  (exists w',
     xio_read fuel FD_USB buf LINE_MODE w
     = Ret (-1, (s ++ [c; NUL]) ++ drop (length s + 2) buf)
           (set_errno EMSGSIZE w') /\
     usb_took (s ++ [c]) w w').
Proof.
  intros fuel buf s rest c w.
  assert (H1 : cfg_ok cfg32) by ev.
  assert (H2 : usb_open w) by ev.
  assert (H3 : contents (fd_usb w) = s ++ c :: rest) by ev.
  assert (H4 : Forall in_line s) by ev.
  assert (H5 : c <> -1) by ev.
  assert (H6 : rx_size_max (fd_usb w) = Z.of_nat (S (length s))) by ev.
  assert (H7 : Z.of_nat (S (length s)) <= 32767) by ev.
  assert (H8 : (length s < fuel)%nat) by ev.
  assert (H9 : (length s + 2 <= length buf)%nat) by ev.
  split; [exact H1|]. split; [exact H2|]. split; [exact H3|].
  split; [exact H4|]. split; [exact H5|]. split; [exact H6|].
  split; [exact H7|]. split; [exact H8|]. split; [exact H9|].
  exact (line_read_at_limit fuel buf s rest c w
           H1 H2 H3 H4 H5 H6 H7 H8 H9).
Defined.

Lemma exact_read_stops_at_0xFF_witness :
  let fuel := 8%nat in
  let buf := [0; 0; 0; 0] in
  let s := [72] in
  let rest := [33] in
  let size := 3 in
  let w := usb_received cfg32 [72; 255; 33] (usb_opened cfg32 0) in
  (cfg_ok cfg32) /\
  (usb_open w) /\
  (contents (fd_usb w) = s ++ (-1) :: rest) /\
  (Forall plain s) /\
  (Z.of_nat (length s) < size) /\
  (size <= rx_size_max (fd_usb w)) /\
  (size <= 32767) /\
  ((length s < fuel)%nat) /\
  ((length s + 1 <= length buf)%nat) /\
  (exists w',
     xio_read fuel FD_USB buf size w
     = Ret (-1, (s ++ [-1]) ++ drop (length s + 1) buf) w' /\
     usb_took (s ++ [-1]) w w' /\
     errno w' = errno w /\ contents (fd_usb w') = rest).
Proof.
  intros fuel buf s rest size w.
  assert (H1 : cfg_ok cfg32) by ev.
  assert (H2 : usb_open w) by ev.
  assert (H3 : contents (fd_usb w) = s ++ (-1) :: rest) by ev.
  assert (H4 : Forall plain s) by ev.
  assert (H5 : Z.of_nat (length s) < size) by ev.
  assert (H6 : size <= rx_size_max (fd_usb w)) by ev.
  assert (H7 : size <= 32767) by ev.
  assert (H8 : (length s < fuel)%nat) by ev.
  assert (H9 : (length s + 1 <= length buf)%nat) by ev.
  split; [exact H1|]. split; [exact H2|]. split; [exact H3|].
  split; [exact H4|]. split; [exact H5|]. split; [exact H6|].
  split; [exact H7|]. split; [exact H8|]. split; [exact H9|].
  exact (exact_read_stops_at_0xFF fuel buf s rest size w
           H1 H2 H3 H4 H5 H6 H7 H8 H9).
Defined.

Lemma blocking_getc_sleeps_until_its_byte_witness :
  let w := set_pending [USARTC0_RXC 65; USARTC0_RXC 66] (usb_opened cfg32 0) in
  (cfg_ok cfg32) /\
  (3 <= USART_RX_BUFSIZE) /\
  (usb_open w) /\
  (ring_empty (fd_usb w)) /\
  (BLOCKING_ENABLED (flags (fd_usb w)) = true) /\
  ((pending w = [] -> _read_char_USART ref_usb w = Blocked) /\
   (forall d rest,
       pending w = USARTC0_RXC d :: rest ->
       exists w',
         _read_char_USART ref_usb w = Ret (s8 d) w' /\
         sleeps w' = S (sleeps w) /\
         pending w' = rest /\
         ring_empty (fd_usb w') /\
         errno w' = errno w)).
Proof.
  intros w.
  assert (H1 : cfg_ok cfg32) by ev.
  assert (H2 : 3 <= USART_RX_BUFSIZE) by ev.
  assert (H3 : usb_open w) by ev.
  assert (H4 : ring_empty (fd_usb w)) by ev.
  assert (H5 : BLOCKING_ENABLED (flags (fd_usb w)) = true) by ev.
  split; [exact H1|]. split; [exact H2|]. split; [exact H3|].
  split; [exact H4|]. split; [exact H5|].
  exact (blocking_getc_sleeps_until_its_byte w
           H1 H2 H3 H4 H5).
Defined.

Lemma ring_keeps_the_first_bytes_witness :
  let bs := seqZ 1 40 in
  let w := usb_opened cfg32 0 in
  (cfg_ok cfg32) /\
  (usb_open w) /\
  (exists w',
     run_usb (map Rx bs) w = Ret [] w' /\
     contents (fd_usb w')
     = take (Z.to_nat (USART_RX_BUFSIZE - 2))
            (contents (fd_usb w) ++ map s8 bs) /\
     usb_open w' /\
     rx_buf_tail (fd_usb w') = rx_buf_tail (fd_usb w) /\
     flags (fd_usb w') = flags (fd_usb w) /\
     rx_size_max (fd_usb w') = rx_size_max (fd_usb w) /\
     errno w' = errno w /\ sleeps w' = sleeps w).
Proof.
  intros bs w.
  assert (H1 : cfg_ok cfg32) by ev.
  assert (H2 : usb_open w) by ev.
  split; [exact H1|]. split; [exact H2|].
  exact (ring_keeps_the_first_bytes bs w
           H1 H2).
Defined.

Lemma received_bytes_are_read_back_witness :
  let fuel := 4%nat in
  let buf := [0; 0; 0] in
  let bs := [72; 105] in
  let w := usb_opened cfg32 0 in
  (cfg_ok cfg32) /\
  (usb_open w) /\
  (ring_empty (fd_usb w)) /\
  (bs <> []) /\
  (Forall plain (map s8 bs)) /\
  (Z.of_nat (length bs) <= USART_RX_BUFSIZE - 2) /\
  (Z.of_nat (length bs) <= rx_size_max (fd_usb w)) /\
  ((length bs <= fuel)%nat) /\
  ((length bs <= length buf)%nat) /\
  (exists w',
     (run_usb (map Rx bs) ;;;
      xio_read fuel FD_USB buf (Z.of_nat (length bs))) w
     = Ret (Z.of_nat (length bs), map s8 bs ++ drop (length bs) buf) w' /\
     ring_empty (fd_usb w') /\ errno w' = errno w).
Proof.
  intros fuel buf bs w.
  assert (H1 : cfg_ok cfg32) by ev.
  assert (H2 : usb_open w) by ev.
  assert (H3 : ring_empty (fd_usb w)) by ev.
  assert (H4 : bs <> []) by ev.
  assert (H5 : Forall plain (map s8 bs)) by ev.
  assert (H6 : Z.of_nat (length bs) <= USART_RX_BUFSIZE - 2) by ev.
  assert (H7 : Z.of_nat (length bs) <= rx_size_max (fd_usb w)) by ev.
  assert (H8 : (length bs <= fuel)%nat) by ev.
  assert (H9 : (length bs <= length buf)%nat) by ev.
  split; [exact H1|]. split; [exact H2|]. split; [exact H3|].
  split; [exact H4|]. split; [exact H5|]. split; [exact H6|].
  split; [exact H7|]. split; [exact H8|]. split; [exact H9|].
  exact (received_bytes_are_read_back fuel buf bs w
           H1 H2 H3 H4 H5 H6 H7 H8 H9).
Defined.

Lemma interrupt_never_moves_a_tail_witness :
  let q := USARTC0_RXC 65 in
  let w := usb_opened cfg32 0 in
  let w' := world_of (serve (USARTC0_RXC 65) (usb_opened cfg32 0))
               (reset_world cfg32 []) in
  (serve q w = Ret tt w') /\
  (rx_buf_tail (fd_usb w') = rx_buf_tail (fd_usb w) /\
   rx_buf_tail (fd_rs485 w') = rx_buf_tail (fd_rs485 w) /\
   flags (fd_usb w') = flags (fd_usb w) /\
   flags (fd_rs485 w') = flags (fd_rs485 w) /\
   rx_size_max (fd_usb w') = rx_size_max (fd_usb w) /\
   match q with
   | USARTC0_RXC _ => fd_rs485 w' = fd_rs485 w
   | USARTC1_RXC _ => fd_usb w' = fd_usb w
   end /\
   errno w' = errno w /\ sleeps w' = sleeps w /\ pending w' = pending w /\
   usartc0 w' = usartc0 w /\ usartc1 w' = usartc1 w /\ portc w' = portc w).
Proof.
  intros q w w'.
  assert (H1 : serve q w = Ret tt w') by ev.
  split; [exact H1|].
  exact (interrupt_never_moves_a_tail q w w'
           H1).
Defined.

Lemma reader_never_moves_a_head_witness :
  let p := ref_usb in
  let w := usb_received cfg32 [72] (usb_opened cfg32 0) in
  let w' := world_of (_read_char_USART ref_usb
                  (usb_received cfg32 [72] (usb_opened cfg32 0)))
               (reset_world cfg32 []) in
  let c := 72 in
  (pending w = []) /\
  (_read_char_USART p w = Ret c w') /\
  (rx_buf_head (fd_usb w') = rx_buf_head (fd_usb w) /\
   rx_buf_head (fd_rs485 w') = rx_buf_head (fd_rs485 w) /\
   rx_buf (fd_usb w') = rx_buf (fd_usb w) /\
   rx_buf (fd_rs485 w') = rx_buf (fd_rs485 w) /\
   flags (fd_usb w') = flags (fd_usb w) /\
   flags (fd_rs485 w') = flags (fd_rs485 w) /\
   rx_size_max (fd_usb w') = rx_size_max (fd_usb w) /\
   sleeps w' = sleeps w /\ pending w' = []).
Proof.
  intros p w w' c.
  assert (H1 : pending w = []) by ev.
  assert (H2 : _read_char_USART p w = Ret c w') by ev.
  split; [exact H1|]. split; [exact H2|].
  exact (reader_never_moves_a_head p w w' c
           H1 H2).
Defined.



Lemma sentinel_write_at_limit_witness :
  let fuel := 4%nat in
  let s := [72; 105] in
  let post := [0] in
  let w := world_of (xio_control FD_USB IO_RD_SIZE_MAX 3 (usb_opened cfg32 0))
              (reset_world cfg32 []) in
  (cfg_ok cfg32) /\
  (fd_ptrs w !! 1%nat = Some (Some ref_usb)) /\
  (usart (fd_usb w) = Some USARTC0) /\
  (rx_size_max (fd_usb w) = Z.of_nat (S (length s))) /\
  (Z.of_nat (S (length s)) <= 32767) /\
  ((length s < fuel)%nat) /\
  ((Forall in_string s ->
    forall mode, mode = STR_MODE \/ mode = PSTR_MODE ->
      exists w',
        xio_write fuel FD_USB (s ++ post) mode w
        = Ret (-1) (set_errno EMSGSIZE w') /\
        usb_sent s w w') /\
   (Forall in_line s ->
    exists w',
      xio_write fuel FD_USB (s ++ post) LINE_MODE w
      = Ret (-1) (set_errno EMSGSIZE w') /\
      usb_sent s w w')).
Proof.
  intros fuel s post w.
  assert (H1 : cfg_ok cfg32) by ev.
  assert (H2 : fd_ptrs w !! 1%nat = Some (Some ref_usb)) by ev.
  assert (H3 : usart (fd_usb w) = Some USARTC0) by ev.
  assert (H4 : rx_size_max (fd_usb w) = Z.of_nat (S (length s))) by ev.
  assert (H5 : Z.of_nat (S (length s)) <= 32767) by ev.
  assert (H6 : (length s < fuel)%nat) by ev.
  split; [exact H1|]. split; [exact H2|]. split; [exact H3|].
  split; [exact H4|]. split; [exact H5|]. split; [exact H6|].
  exact (sentinel_write_at_limit fuel s post w
           H1 H2 H3 H4 H5 H6).
Defined.

Lemma exact_write_sends_one_byte_less_witness :
  let fuel := 4%nat in
  let k := [72; 105] in
  let post := [33] in
  let w := usb_opened cfg32 0 in
  (fd_ptrs w !! 1%nat = Some (Some ref_usb)) /\
  (usart (fd_usb w) = Some USARTC0) /\
  (Forall plain k) /\
  (Z.of_nat (length k) + 1 <= rx_size_max (fd_usb w)) /\
  (Z.of_nat (length k) + 1 <= 32767) /\
  ((length k < fuel)%nat) /\
  (exists w',
     xio_write fuel FD_USB (k ++ post) (Z.of_nat (length k) + 1) w
     = Ret (Z.of_nat (length k)) w' /\
     DATA_tx (usartc0 w') = DATA_tx (usartc0 w) ++ map u8 k /\
     errno w' = errno w).
Proof.
  intros fuel k post w.
  assert (H1 : fd_ptrs w !! 1%nat = Some (Some ref_usb)) by ev.
  assert (H2 : usart (fd_usb w) = Some USARTC0) by ev.
  assert (H3 : Forall plain k) by ev.
  assert (H4 : Z.of_nat (length k) + 1 <= rx_size_max (fd_usb w)) by ev.
  assert (H5 : Z.of_nat (length k) + 1 <= 32767) by ev.
  assert (H6 : (length k < fuel)%nat) by ev.
  split; [exact H1|]. split; [exact H2|]. split; [exact H3|].
  split; [exact H4|]. split; [exact H5|]. split; [exact H6|].
  exact (exact_write_sends_one_byte_less fuel k post w
           H1 H2 H3 H4 H5 H6).
Defined.


Lemma open_usb_makes_device_ready_witness :
  let control := Z.lor IO_NOECHO IO_BAUD_9600 in
  let w := world_of (xio_init (reset_world cfg32 [])) (reset_world cfg32 []) in
  (cfg_ok cfg32) /\
  (fd_ptrs w = [None; Some ref_usb; Some ref_rs485]) /\
  (Z.of_nat (length (rx_buf (fd_usb w))) = USART_RX_BUFSIZE) /\
  (Z.land control (Z.lor IO_RDONLY IO_WRONLY) <> Z.lor IO_RDONLY IO_WRONLY) /\
  (Z.land control IO_BAUD_gm <= 10) /\
  (exists w',
     xio_open DEV_USB control w = Ret FD_USB w' /\
     usb_open w' /\ contents (fd_usb w') = [] /\
     rx_buf_head (fd_usb w') = 1 /\ rx_buf_tail (fd_usb w') = 1 /\
     flags (fd_usb w') = open_flags control /\
     rx_size_max (fd_usb w') = s16 (READ_BUFFER_SIZE - 1) /\
     baud (fd_usb w') = (if Z.land control IO_BAUD_gm =? IO_BAUD_UNSPECIFIED
                         then IO_BAUD_DEFAULT else Z.land control IO_BAUD_gm) /\
     array_get bsel (baud (fd_usb w')) = Some (BAUDCTRLA (usartc0 w')) /\
     array_get bscale (baud (fd_usb w')) = Some (BAUDCTRLB (usartc0 w')) /\
     CTRLB (usartc0 w') = Z.lor USART_TXEN_bm USART_RXEN_bm /\
     CTRLA (usartc0 w') = USART_RXCINTLVL_MED_gc /\
     DATA_tx (usartc0 w') = DATA_tx (usartc0 w) /\
     errno w' = errno w /\ fd_ptrs w' = fd_ptrs w /\
     fd_rs485 w' = fd_rs485 w).
Proof.
  intros control w.
  assert (H1 : cfg_ok cfg32) by ev.
  assert (H2 : fd_ptrs w = [None; Some ref_usb; Some ref_rs485]) by ev.
  assert (H3 : Z.of_nat (length (rx_buf (fd_usb w))) = USART_RX_BUFSIZE) by ev.
  assert (H4 : Z.land control (Z.lor IO_RDONLY IO_WRONLY) <> Z.lor IO_RDONLY IO_WRONLY)
    by ev.
  assert (H5 : Z.land control IO_BAUD_gm <= 10) by ev.
  split; [exact H1|]. split; [exact H2|]. split; [exact H3|].
  split; [exact H4|]. split; [exact H5|].
  exact (open_usb_makes_device_ready control w
           H1 H2 H3 H4 H5).
Defined.

Lemma open_read_only_write_only_faults_witness :
  let control := Z.lor IO_RDONLY IO_WRONLY in
  let w := world_of (xio_init (reset_world cfg32 [])) (reset_world cfg32 []) in
  (fd_ptrs w = [None; Some ref_usb; Some ref_rs485]) /\
  (Z.land control (Z.lor IO_RDONLY IO_WRONLY) = Z.lor IO_RDONLY IO_WRONLY) /\
  ((exists w1, _open_USART DEV_USARTC0 control w = Ret (-1) w1 /\
               errno w1 = EINVAL /\
               flags (fd_usb w1) = flags (fd_usb w) /\
               rx_buf_head (fd_usb w1) = 1 /\ rx_buf_tail (fd_usb w1) = 1) /\
   xio_open DEV_USB control w = Fault).
Proof.
  intros control w.
  assert (H1 : fd_ptrs w = [None; Some ref_usb; Some ref_rs485]) by ev.
  assert (H2 : Z.land control (Z.lor IO_RDONLY IO_WRONLY) = Z.lor IO_RDONLY IO_WRONLY)
    by ev.
  split; [exact H1|]. split; [exact H2|].
  exact (open_read_only_write_only_faults control w
           H1 H2).
Defined.

Lemma only_usb_is_served_witness :
  let fuel := 4%nat in
  let dev := 44 in
  let fdn := FD_RS485 in
  let control := 0 in
  let arg := 0 in
  let size := 2 in
  let c := 65 in
  let buf := [72; 105] in
  let w := usb_opened cfg32 0 in
  (dev <> DEV_USB) /\
  (fdn <> FD_USB) /\
  (xio_open dev control w = Ret (-1) (set_errno ENODEV w) /\
   xio_control fdn control arg w = Ret (-1) (set_errno ENODEV w) /\
   xio_read fuel fdn buf size w = Ret (-1, buf) (set_errno EBADF w) /\
   xio_write fuel fdn buf size w = Ret (-1) (set_errno EBADF w) /\
   xio_getc fdn w = Ret ERR_EOF (set_errno EBADF w) /\
   xio_putc fdn c w = Ret ERR_EOF (set_errno EBADF w)).
Proof.
  intros fuel dev fdn control arg size c buf w.
  assert (H1 : dev <> DEV_USB) by ev.
  assert (H2 : fdn <> FD_USB) by ev.
  split; [exact H1|]. split; [exact H2|].
  exact (only_usb_is_served fuel dev fdn control arg size c buf w
           H1 H2).
Defined.

Lemma control_clear_wins_over_set_witness :
  let control := Z.lor IO_ECHO IO_NOECHO in
  let arg := 0 in
  let w := usb_opened cfg32 0 in
  (fd_ptrs w !! 1%nat = Some (Some ref_usb)) /\
  (usart (fd_usb w) = Some USARTC0) /\
  (Z.land control IO_BAUD_gm <= 10) /\
  (exists w',
     xio_control FD_USB control arg w = Ret 0 w' /\
     ECHO_ENABLED (flags (fd_usb w')) =
       (if c_true (Z.land control IO_NOECHO) then false
        else if c_true (Z.land control IO_ECHO) then true
             else ECHO_ENABLED (flags (fd_usb w))) /\
     BLOCKING_ENABLED (flags (fd_usb w')) =
       (if c_true (Z.land control IO_RDNONBLOCK) then false
        else if c_true (Z.land control IO_RDBLOCK) then true
             else BLOCKING_ENABLED (flags (fd_usb w))) /\
     READ_ENABLED (flags (fd_usb w')) = READ_ENABLED (flags (fd_usb w)) /\
     WRITE_ENABLED (flags (fd_usb w')) = WRITE_ENABLED (flags (fd_usb w)) /\
     rx_buf_head (fd_usb w') = rx_buf_head (fd_usb w) /\
     rx_buf_tail (fd_usb w') = rx_buf_tail (fd_usb w) /\
     contents (fd_usb w') = contents (fd_usb w) /\
     usart (fd_usb w') = usart (fd_usb w) /\
     errno w' = errno w /\
     DATA_tx (usartc0 w') = DATA_tx (usartc0 w) /\
     (Z.land control IO_BAUD_gm = IO_BAUD_UNSPECIFIED ->
      usartc0 w' = usartc0 w /\ baud (fd_usb w') = baud (fd_usb w))).
Proof.
  intros control arg w.
  assert (H1 : fd_ptrs w !! 1%nat = Some (Some ref_usb)) by ev.
  assert (H2 : usart (fd_usb w) = Some USARTC0) by ev.
  assert (H3 : Z.land control IO_BAUD_gm <= 10) by ev.
  split; [exact H1|]. split; [exact H2|]. split; [exact H3|].
  exact (control_clear_wins_over_set control arg w
           H1 H2 H3).
Defined.

Lemma control_read_limit_first_witness :
  let fuel := 4%nat in
  let control := Z.lor IO_RD_SIZE_MAX IO_WR_SIZE_MAX in
  let arg := 2 in
  let size := 3 in
  let buf := [0; 0; 0] in
  let w := usb_opened cfg32 0 in
  (fd_ptrs w !! 1%nat = Some (Some ref_usb)) /\
  (usart (fd_usb w) = Some USARTC0) /\
  (Z.land control IO_BAUD_gm <= 10) /\
  (exists w',
     xio_control FD_USB control arg w = Ret 0 w' /\
     (c_true (Z.land control IO_RD_SIZE_MAX) = true ->
      rx_size_max (fd_usb w') = arg /\
      tx_size_max (fd_usb w') = tx_size_max (fd_usb w) /\
      (0 < size -> arg < size ->
       xio_read fuel FD_USB buf size w'
       = Ret (-1, buf) (set_errno EFBIG w') /\
       xio_write fuel FD_USB buf size w' = Ret (-1) (set_errno EFBIG w'))) /\
     (c_true (Z.land control IO_RD_SIZE_MAX) = false ->
      c_true (Z.land control IO_WR_SIZE_MAX) = true ->
      tx_size_max (fd_usb w') = arg /\
      rx_size_max (fd_usb w') = rx_size_max (fd_usb w)) /\
     (c_true (Z.land control IO_RD_SIZE_MAX) = false ->
      c_true (Z.land control IO_WR_SIZE_MAX) = false ->
      tx_size_max (fd_usb w') = tx_size_max (fd_usb w) /\
      rx_size_max (fd_usb w') = rx_size_max (fd_usb w))).
Proof.
  intros fuel control arg size buf w.
  assert (H1 : fd_ptrs w !! 1%nat = Some (Some ref_usb)) by ev.
  assert (H2 : usart (fd_usb w) = Some USARTC0) by ev.
  assert (H3 : Z.land control IO_BAUD_gm <= 10) by ev.
  split; [exact H1|]. split; [exact H2|]. split; [exact H3|].
  exact (control_read_limit_first fuel control arg size buf w
           H1 H2 H3).
Defined.

Lemma print_in_base_reads_back_witness :
  let fuel := 33%nat in
  let buf := replicate 32 7 in
  let out := [62] in
  let n := 48879 in
  let base := 16 in
  (2 <= base <= 36) /\
  (0 <= n < 2 ^ 32) /\
  (length buf = 32%nat) /\
  ((32 < fuel)%nat) /\
  (exists cs,
     printIntegerInBase fuel buf n base out = Done (out ++ cs) /\
     number base cs = n /\
     Forall is_digit_char cs /\
     Forall (fun c => 0 <= digit_value c < base) cs /\
     (1 <= length cs <= 32)%nat /\
     (n = 0 -> cs = [48]) /\
     (0 < n -> hd 0 cs <> 48)).
Proof.
  intros fuel buf out n base.
  assert (H1 : 2 <= base <= 36) by ev.
  assert (H2 : 0 <= n < 2 ^ 32) by ev.
  assert (H3 : length buf = 32%nat) by ev.
  assert (H4 : (32 < fuel)%nat) by ev.
  split; [exact H1|]. split; [exact H2|]. split; [exact H3|].
  split; [exact H4|].
  exact (print_in_base_reads_back fuel buf out n base
           H1 H2 H3 H4).
Defined.

Lemma print_in_base_0_or_1_is_undefined_witness :
  let fuel := 33%nat in
  let buf := replicate 32 7 in
  let out := @nil Z in
  let n := 5 in
  (0 < n) /\
  (length buf = 32%nat) /\
  ((32 < fuel)%nat) /\
  (printIntegerInBase fuel buf n 0 out = Undefined /\
   printIntegerInBase fuel buf n 1 out = Undefined /\
   (forall base, printIntegerInBase fuel buf 0 base out = Done (out ++ [48]))).
Proof.
  intros fuel buf out n.
  assert (H1 : 0 < n) by ev.
  assert (H2 : length buf = 32%nat) by ev.
  assert (H3 : (32 < fuel)%nat) by ev.
  split; [exact H1|]. split; [exact H2|]. split; [exact H3|].
  exact (print_in_base_0_or_1_is_undefined fuel buf out n
           H1 H2 H3).
Defined.

Lemma print_integer_reads_back_witness :
  let fuel := 33%nat in
  let buf := replicate 32 7 in
  let out := @nil Z in
  let n := (-1234) in
  let m := 255 in
  (- 2 ^ 31 < n < 2 ^ 31) /\
  (0 <= m < 2 ^ 32) /\
  (length buf = 32%nat) /\
  ((32 < fuel)%nat) /\
  ((exists cs,
      printInteger fuel buf n out
      = Done (out ++ (if n <? 0 then [45] else []) ++ cs) /\
      Forall (fun c => 48 <= c <= 57) cs /\
      (if n <? 0 then - number 10 cs else number 10 cs) = n) /\
   (exists cs,
      printHex fuel buf m out = Done (out ++ cs) /\
      Forall (fun c => 48 <= c <= 57 \/ 65 <= c <= 70) cs /\
      number 16 cs = m)).
Proof.
  intros fuel buf out n m.
  assert (H1 : - 2 ^ 31 < n < 2 ^ 31) by ev.
  assert (H2 : 0 <= m < 2 ^ 32) by ev.
  assert (H3 : length buf = 32%nat) by ev.
  assert (H4 : (32 < fuel)%nat) by ev.
  split; [exact H1|]. split; [exact H2|]. split; [exact H3|].
  split; [exact H4|].
  exact (print_integer_reads_back fuel buf out n m
           H1 H2 H3 H4).
Defined.

Lemma config_parse_stores_normalised_text_witness :
  let fuel := 8%nat in
  let t := [120; 95; 49; 61; 50] in
  let post := [7] in
  let g := mk_globals (replicate 40 0) 0 in
  (Forall (fun c => c <> 0) t) /\
  (0 <= j g) /\
  (j g + Z.of_nat (length (normalised t))
   <= Z.of_nat (length (configline g)) <= 32767) /\
  (Z.of_nat (length t) < 32767) /\
  ((length t < fuel)%nat) /\
  (exists g',
     config_parse fuel (t ++ 0 :: post) g = Done g' /\
     j g' = j g + Z.of_nat (length (normalised t)) /\
     length (configline g') = length (configline g) /\
     take (Z.to_nat (j g)) (configline g')
     = take (Z.to_nat (j g)) (configline g) /\
     take (length (normalised t)) (drop (Z.to_nat (j g)) (configline g'))
     = normalised t /\
     drop (Z.to_nat (j g')) (configline g')
     = drop (Z.to_nat (j g')) (configline g) /\
     Forall in_alphabet (normalised t)).
Proof.
  intros fuel t post g.
  assert (H1 : Forall (fun c => c <> 0) t) by ev.
  assert (H2 : 0 <= j g) by ev.
  assert (H3 : j g + Z.of_nat (length (normalised t))
               <= Z.of_nat (length (configline g)) <= 32767)
    by ev.
  assert (H4 : Z.of_nat (length t) < 32767) by ev.
  assert (H5 : (length t < fuel)%nat) by ev.
  split; [exact H1|]. split; [exact H2|]. split; [exact H3|].
  split; [exact H4|]. split; [exact H5|].
  exact (config_parse_stores_normalised_text fuel t post g
           H1 H2 H3 H4 H5).
Defined.

Lemma config_parse_ignores_case_and_punctuation_witness :
  let fuel := 8%nat in
  let t1 := [48] in
  let t2 := [49] in
  let post := @nil Z in
  let post' := [7] in
  let c := 46 in
  let g := mk_globals (replicate 40 0) 0 in
  (Forall (fun c => c <> 0) (t1 ++ t2)) /\
  (c <> 0) /\
  (0 <= j g) /\
  (j g + Z.of_nat (length (normalised (t1 ++ c :: t2)))
   <= Z.of_nat (length (configline g)) <= 32767) /\
  (Z.of_nat (length (t1 ++ c :: t2)) < 32767) /\
  ((length (t1 ++ c :: t2) < fuel)%nat) /\
  ((97 <= c <= 122 ->
    config_parse fuel ((t1 ++ c :: t2) ++ 0 :: post) g
    = config_parse fuel ((t1 ++ (c - 32) :: t2) ++ 0 :: post') g) /\
   (kept c = None ->
    config_parse fuel ((t1 ++ c :: t2) ++ 0 :: post) g
    = config_parse fuel ((t1 ++ t2) ++ 0 :: post') g) /\
   kept 46 = None /\ kept 95 = None /\ kept 32 = None /\ kept 43 = None).
Proof.
  intros fuel t1 t2 post post' c g.
  assert (H1 : Forall (fun c => c <> 0) (t1 ++ t2)) by ev.
  assert (H2 : c <> 0) by ev.
  assert (H3 : 0 <= j g) by ev.
  assert (H4 : j g + Z.of_nat (length (normalised (t1 ++ c :: t2)))
               <= Z.of_nat (length (configline g)) <= 32767)
    by ev.
  assert (H5 : Z.of_nat (length (t1 ++ c :: t2)) < 32767) by ev.
  assert (H6 : (length (t1 ++ c :: t2) < fuel)%nat) by ev.
  split; [exact H1|]. split; [exact H2|]. split; [exact H3|].
  split; [exact H4|]. split; [exact H5|]. split; [exact H6|].
  exact (config_parse_ignores_case_and_punctuation fuel t1 t2 post post' c g
           H1 H2 H3 H4 H5 H6).
Defined.

Lemma config_parse_calls_accumulate_witness :
  let fuel := 8%nat in
  let t1 := [120; 61; 49] in
  let t2 := [121; 61; 50] in
  let post1 := @nil Z in
  let post2 := @nil Z in
  let post := @nil Z in
  let g := mk_globals (replicate 40 0) 0 in
  (Forall (fun c => c <> 0) (t1 ++ t2)) /\
  (0 <= j g) /\
  (j g + Z.of_nat (length (normalised (t1 ++ t2)))
   <= Z.of_nat (length (configline g)) <= 32767) /\
  (Z.of_nat (length (t1 ++ t2)) < 32767) /\
  ((length (t1 ++ t2) < fuel)%nat) /\
  (exists g1 g2,
     config_parse fuel (t1 ++ 0 :: post1) g = Done g1 /\
     config_parse fuel (t2 ++ 0 :: post2) g1 = Done g2 /\
     config_parse fuel ((t1 ++ t2) ++ 0 :: post) g = Done g2 /\
     j g1 = j g + Z.of_nat (length (normalised t1)) /\
     j g2 = j g1 + Z.of_nat (length (normalised t2))).
Proof.
  intros fuel t1 t2 post1 post2 post g.
  assert (H1 : Forall (fun c => c <> 0) (t1 ++ t2)) by ev.
  assert (H2 : 0 <= j g) by ev.
  assert (H3 : j g + Z.of_nat (length (normalised (t1 ++ t2)))
               <= Z.of_nat (length (configline g)) <= 32767)
    by ev.
  assert (H4 : Z.of_nat (length (t1 ++ t2)) < 32767) by ev.
  assert (H5 : (length (t1 ++ t2) < fuel)%nat) by ev.
  split; [exact H1|]. split; [exact H2|]. split; [exact H3|].
  split; [exact H4|]. split; [exact H5|].
  exact (config_parse_calls_accumulate fuel t1 t2 post1 post2 post g
           H1 H2 H3 H4 H5).
Defined.

Lemma config_parse_overruns_configline_witness :
  let fuel := 8%nat in
  let t := [65; 66] in
  let post := @nil Z in
  let g := mk_globals (replicate 40 0) 39 in
  (Forall (fun c => c <> 0) t) /\
  (0 <= j g <= Z.of_nat (length (configline g))) /\
  (Z.of_nat (length (configline g)) <= 32767) /\
  (Z.of_nat (length (configline g))
   < j g + Z.of_nat (length (normalised t))) /\
  (Z.of_nat (length t) < 32767) /\
  ((length t < fuel)%nat) /\
  (config_parse fuel (t ++ 0 :: post) g = Undefined).
Proof.
  intros fuel t post g.
  assert (H1 : Forall (fun c => c <> 0) t) by ev.
  assert (H2 : 0 <= j g <= Z.of_nat (length (configline g))) by ev.
  assert (H3 : Z.of_nat (length (configline g)) <= 32767) by ev.
  assert (H4 : Z.of_nat (length (configline g))
               < j g + Z.of_nat (length (normalised t)))
    by ev.
  assert (H5 : Z.of_nat (length t) < 32767) by ev.
  assert (H6 : (length t < fuel)%nat) by ev.
  split; [exact H1|]. split; [exact H2|]. split; [exact H3|].
  split; [exact H4|]. split; [exact H5|]. split; [exact H6|].
  exact (config_parse_overruns_configline fuel t post g
           H1 H2 H3 H4 H5 H6).
Defined.

Lemma config_test_overruns_configline_witness :
  let fuel := 100%nat in
  let textline := replicate 40 0 in
  let line := replicate 40 7 in
  (length textline = 40%nat) /\
  (length line = 40%nat) /\
  ((100 <= fuel)%nat) /\
  (config_test fuel textline (mk_globals line 0) = Undefined).
Proof.
  intros fuel textline line.
  assert (H1 : length textline = 40%nat) by ev.
  assert (H2 : length line = 40%nat) by ev.
  assert (H3 : (100 <= fuel)%nat) by ev.
  split; [exact H1|]. split; [exact H2|]. split; [exact H3|].
  exact (config_test_overruns_configline fuel textline line
           H1 H2 H3).
Defined.

End Instances.
